(** * aptos-tsgen: the decoder registry, the struct decode protocol and the
    resource cache

    A shallow embedding of [src/parserRepo.ts] and [src/aptosResourceCache.ts].
    JavaScript values are a first-order data type, the records used as
    dictionaries are finite maps, [throw] is the [Throw] result, and the
    methods of the cache are functions from the cache object to an outcome
    that holds the result, the cache object as the call left it and the
    observable events the call produced (listener callbacks, console lines),
    in order. *)

From Stdlib Require Import ZArith QArith Bool List.
From Stdlib Require Import Strings.String Strings.Ascii.
From stdpp Require Import base option list strings gmap.
Import ListNotations.

Set Warnings "-register-all".
Local Open Scope string_scope.
Local Open Scope Z_scope.

(** ** Results of code that may throw *)

Inductive result (E A : Type) : Type :=
  | Ok (a : A)
  | Throw (e : E).
Arguments Ok {E A} a.
Arguments Throw {E A} e.

Definition bindR {E A B} (m : result E A) (k : A -> result E B) : result E B :=
  match m with
  | Ok a => k a
  | Throw e => Throw e
  end.

Declare Scope result_scope.
Delimit Scope result_scope with result.
Notation "x <- m ;; k" := (bindR m (fun x => k))
  (at level 100, m at next level, right associativity) : result_scope.

(** The loop [for (const x of xs) out.push(f(x))], stopping at the first
    throw. *)
Definition mapR {E A B} (f : A -> result E B) : list A -> result E (list B) :=
  fix go (xs : list A) : result E (list B) :=
    match xs with
    | [] => Ok []
    | x :: rest =>
        match f x with
        | Throw e => Throw e
        | Ok y => match go rest with
                  | Throw e => Throw e
                  | Ok ys => Ok (y :: ys)
                  end
        end
    end.

(** The loop [for (const x of xs) acc = f(acc, x)], stopping at the first
    throw. *)
Definition foldR {E A B} (f : B -> A -> result E B) : list A -> B -> result E B :=
  fix go (xs : list A) (acc : B) : result E B :=
    match xs with
    | [] => Ok acc
    | x :: rest =>
        match f acc x with
        | Throw e => Throw e
        | Ok acc' => go rest acc'
        end
    end.

(** ** HexString

    The class [HexString] of the [aptos] SDK, an external package: a wrapper
    of a hexadecimal text that always carries the prefix [0x].  The methods
    follow the SDK: the constructor adds the prefix when it is missing,
    [hex] returns the text, [toShortString] drops the leading zeros
    (the replacement of [/^0x0*/] by the empty string, prefixed again), and
    [toUint8Array] decodes pairs of hexadecimal digits the way Node's
    [Buffer.from(text, "hex")] does, stopping at the first pair that is not
    made of two hexadecimal digits.  (The [buffer] package that stands in
    for it in a browser keeps the valid start of such a pair; the two agree
    on every text of hexadecimal digits.) *)

Record HexString : Type := { hexString : string }.

Definition startsWith (s p : string) : bool := String.prefix p s.

Definition HexString_new (s : string) : HexString :=
  if startsWith s "0x" then {| hexString := s |}
  else {| hexString := "0x" +:+ s |}.

Definition hex (h : HexString) : string := hexString h.

Definition noPrefix (h : HexString) : string :=
  String.substring 2 (String.length (hexString h) - 2) (hexString h).

Fixpoint dropZeros (s : string) : string :=
  match s with
  | String c rest => if Ascii.eqb c "0"%char then dropZeros rest else s
  | EmptyString => s
  end.

Definition toShortString (h : HexString) : string :=
  "0x" +:+ dropZeros (noPrefix h).

Definition hexDigit (c : ascii) : option Z :=
  let n := Z.of_nat (nat_of_ascii c) in
  if (48 <=? n) && (n <=? 57) then Some (n - 48)
  else if (97 <=? n) && (n <=? 102) then Some (n - 87)
  else if (65 <=? n) && (n <=? 70) then Some (n - 55)
  else None.

Fixpoint hexDecode (s : string) : list Z :=
  match s with
  | String a (String b rest) =>
      match hexDigit a, hexDigit b with
      | Some hi, Some lo => (16 * hi + lo) :: hexDecode rest
      | _, _ => []
      end
  | _ => []
  end.

Definition toUint8Array (h : HexString) : list Z := hexDecode (noPrefix h).

(** The inverse direction, [HexString.fromUint8Array(bytes).hex()], used to
    state what the decoder of byte vectors computes. *)
Definition hexChar (n : Z) : ascii :=
  if n <? 10 then ascii_of_nat (Z.to_nat (48 + n))
  else ascii_of_nat (Z.to_nat (87 + n)).

Fixpoint hexEncode (bytes : list Z) : string :=
  match bytes with
  | [] => EmptyString
  | b :: rest => String (hexChar (b / 16)) (String (hexChar (b mod 16)) (hexEncode rest))
  end.

(** ** Type tags

    Modelled from the spec: [src/typeTag.ts] is not among the sources.  The
    variants and their fields are the ones of the spec's data model, which
    are also the ones [parserRepo.ts] reads ([elementType], [address],
    [module], [name], [typeParams], [index]). *)

Inductive AtomicTypeTag : Type := Bool | U8 | U64 | U128 | Address.

Inductive TypeTag : Type :=
  | TAtomic (a : AtomicTypeTag)
  | VectorTag (elementType : TypeTag)
  | StructTag (address : HexString) (module name : string) (typeParams : list TypeTag)
  | TypeParamIdx (index : nat).

(** ** JavaScript values

    One type for the raw values received from the chain (JSON data) and for
    the decoded ones, as the source types both [any].  Numbers are rationals:
    a JSON number is a finite decimal.  An object is the list of its own
    properties in insertion order. *)

Inductive Value : Type :=
  | VUndefined
  | VNull
  | VBool (b : bool)
  | VNum (n : Q)
  | VStr (s : string)
  | VArr (elems : list Value)
  | VObj (props : list (string * Value))
  | VBigInt (z : Z)
  | VHexString (h : HexString).

Definition typeof (v : Value) : string :=
  match v with
  | VUndefined => "undefined"
  | VBool _ => "boolean"
  | VNum _ => "number"
  | VStr _ => "string"
  | VNull | VArr _ | VObj _ | VBigInt _ | VHexString _ => "object"
  end.

(** [obj[key]] on the list of own properties. *)
Fixpoint getProp (key : string) (props : list (string * Value)) : option Value :=
  match props with
  | [] => None
  | (k, v) :: rest => if String.eqb k key then Some v else getProp key rest
  end.

(** [obj[key] = v]: an existing property keeps its place, a new one goes
    last. *)
Fixpoint setProp (key : string) (v : Value) (props : list (string * Value))
  : list (string * Value) :=
  match props with
  | [] => [(key, v)]
  | (k, w) :: rest =>
      if String.eqb k key then (k, v) :: rest else (k, w) :: setProp key v rest
  end.

(** The result of [key in data] followed by a use of [data[key]]: the
    operator [in] raises a TypeError on [null]; on an object the own
    properties are searched, and the continuation [k] receives the value of
    the property found.  Only own data properties of plain objects are
    modelled: members inherited from a prototype, and the indices and
    [length] of an array, are not properties here. *)
Inductive PropLookup (B : Type) : Type :=
  | PropTypeError
  | PropAbsent
  | PropFound (b : B).
Arguments PropTypeError {B}.
Arguments PropAbsent {B}.
Arguments PropFound {B} b.

Definition withProp {B} (k : Value -> B) (key : string) (data : Value) : PropLookup B :=
  match data with
  | VNull => PropTypeError
  | VObj props =>
      (fix find (ps : list (string * Value)) : PropLookup B :=
         match ps with
         | [] => PropAbsent
         | (n, v) :: rest => if String.eqb n key then PropFound (k v) else find rest
         end) props
  | _ => PropAbsent
  end.

(** ** Errors

    One constructor per [throw] of the two source files, with the values the
    message interpolates. *)

Inductive Error : Type :=
  | ExpectsStructTag (structName : string) (received : TypeTag)
  | ExpectsModuleAddress (structName : string) (expected received : HexString)
  | ExpectsModuleName (structName expected received : string)
  | ExpectsStructName (structName expected received : string)
  | ExpectsObject (structName received : string)
  | MissingField (structName fieldName : string)
  | BadParamIdx
  | NoFieldParser (fieldName : string) (fieldTypeTag : TypeTag)
  | CannotParseType (parser paramlessName : string)
  | ExpectsDataType (parser expected received : string)
  | U8OutOfRange (data : Q)
  | U8NotInteger (data : Q)
  | VectorU8NoPrefix (data : string)
  | AsciiUnsupported (tagName : string)
  | NoElementParser (paramlessName : string)
  | NoParserRegistered (paramlessName : string)
  | TypeParamArity (expected received : nat)
  | TypeError (operand : string)
  | ExternalError (message : string).

Abbreviation res := (result Error).

(** ** Struct schemas and the registry *)

Record TypeParamDeclType : Type := {
  tp_name : string;
  isPhantom : bool
}.

Record FieldDeclType : Type := {
  fd_name : string;
  fd_typeTag : TypeTag
}.

(** [StructInfoType]: the static side of a generated class.  [construct] is
    the construct signature [new(proto, typeTag)].  The generated classes
    carry the struct's name twice, as the class's own [name] and as the
    static member [structName]; the cache reads the second one. *)
Record StructInfoType : Type := {
  moduleAddress : HexString;
  moduleName : string;
  name : string;
  structName : string;
  typeParameters : list TypeParamDeclType;
  fields : list FieldDeclType;
  construct : Value -> TypeTag -> Value
}.

(** [ParserFunc]: the functions that are registered in a repo.  A JavaScript
    parser receives the repo it was found in; here a parser is named, and
    [applyParser] below runs a named parser against a repo.  The names are
    the seven parsers of [parserRepo.ts], the static [XParser] that the
    generator emits for a struct [X], and [Fn_extern] for a function of the
    caller's that does not call back into the repo. *)
Inductive ParserFunc : Type :=
  | Fn_BoolParser
  | Fn_U8Parser
  | Fn_U64Parser
  | Fn_U128Parser
  | Fn_AddressParser
  | Fn_VectorParser
  | Fn_AsciiParser
  | Fn_StructParser (struct : StructInfoType)
  | Fn_extern (f : Value -> TypeTag -> res Value).

Record AptosParserRepo : Type := {
  paramlessNameToParser : gmap string ParserFunc
}.

Definition Qltb (a b : Q) : bool := negb (Qle_bool b a).

(** [Number.isInteger]. *)
Definition Number_isInteger (n : Q) : bool :=
  (Qnum n mod Z.pos (Qden n) =? 0)%Z.

(** ** The decoders of [parserRepo.ts] *)

Section Decoders.

(** Modelled from the spec: the functions of [src/typeTag.ts], which is not
    among the sources, are parameters of the development.
    [getTypeTagParamlessName] is the spec's paramless name,
    [getTypeTagFullname] its full name. *)
Variable getTypeTagParamlessName : TypeTag -> string.
Variable getTypeTagFullname : TypeTag -> string.

(** The constructor of the [big-integer] package applied to a text; it
    throws on a text that is not an integer. *)
Variable bigInt : string -> res Z.

(** [parser(data, typeTag, repo)]: the call of a registered parser.  The
    bodies that call parsers take it as an argument; [applyParser] ties
    the knot. *)
Variable invoke : ParserFunc -> Value -> TypeTag -> AptosParserRepo -> res Value.

Definition getParserFromParamlessName (repo : AptosParserRepo) (paramlessName : string)
  : option ParserFunc :=
  paramlessNameToParser repo !! paramlessName.

Definition getParserFromTypeTag (repo : AptosParserRepo) (typeTag : TypeTag)
  : option ParserFunc :=
  let paramlessName := getTypeTagParamlessName typeTag in
  getParserFromParamlessName repo paramlessName.

Definition addParser (repo : AptosParserRepo) (paramlessName : string) (parser : ParserFunc)
  : AptosParserRepo :=
  {| paramlessNameToParser := <[paramlessName := parser]> (paramlessNameToParser repo) |}.

Definition U8Parser (data : Value) (typeTag : TypeTag) (_repo : AptosParserRepo) : res Value :=
  match typeTag with
  | TAtomic U8 =>
      match data with
      | VNum n =>
          if Qltb n 0 || Qltb 255 n then Throw (U8OutOfRange n)
          else if negb (Number_isInteger n) then Throw (U8NotInteger n)
          else Ok data
      | _ => Throw (ExpectsDataType "U8Parser" "number" (typeof data))
      end
  | _ => Throw (CannotParseType "U8Parser" (getTypeTagParamlessName typeTag))
  end.

Definition U64Parser (data : Value) (typeTag : TypeTag) (_repo : AptosParserRepo) : res Value :=
  match typeTag with
  | TAtomic U64 =>
      match data with
      | VStr s => (z <- bigInt s ;; Ok (VBigInt z))%result
      | _ => Throw (ExpectsDataType "U64Parser" "string" (typeof data))
      end
  | _ => Throw (CannotParseType "U64Parser" (getTypeTagParamlessName typeTag))
  end.

Definition U128Parser (data : Value) (typeTag : TypeTag) (_repo : AptosParserRepo) : res Value :=
  match typeTag with
  | TAtomic U128 =>
      match data with
      | VStr s => (z <- bigInt s ;; Ok (VBigInt z))%result
      | _ => Throw (ExpectsDataType "U128Parser" "string" (typeof data))
      end
  | _ => Throw (CannotParseType "U128Parser" (getTypeTagParamlessName typeTag))
  end.

Definition BoolParser (data : Value) (typeTag : TypeTag) (_repo : AptosParserRepo) : res Value :=
  match typeTag with
  | TAtomic Bool =>
      match data with
      | VBool _ => Ok data
      | _ => Throw (ExpectsDataType "BoolParser" "bool" (typeof data))
      end
  | _ => Throw (CannotParseType "BoolParser" (getTypeTagParamlessName typeTag))
  end.

Definition AddressParser (data : Value) (typeTag : TypeTag) (_repo : AptosParserRepo) : res Value :=
  match typeTag with
  | TAtomic Address =>
      match data with
      | VStr s => Ok (VHexString (HexString_new s))
      | _ => Throw (ExpectsDataType "AddressParser" "string" (typeof data))
      end
  | _ => Throw (CannotParseType "AddressParser" (getTypeTagParamlessName typeTag))
  end.

Definition parseVectorU8 (data : Value) : res (list Z) :=
  match data with
  | VStr s =>
      if negb (startsWith s "0x") then Throw (VectorU8NoPrefix s)
      else
        let hexString := HexString_new s in
        Ok (toUint8Array hexString)
  | _ => Throw (ExpectsDataType "VectorU8" "string" (typeof data))
  end.

Definition AsciiParser (data : Value) (typeTag : TypeTag) (_repo : AptosParserRepo) : res Value :=
  let tagName := getTypeTagFullname typeTag in
  if negb (String.eqb tagName "0x1::ASCII::String") then Throw (AsciiUnsupported tagName)
  else Ok data.

(** [Array.from(u8array)]: the bytes as numbers. *)
Definition Array_from (u8array : list Z) : Value :=
  VArr (map (fun b => VNum (inject_Z b)) u8array).

Definition VectorParser (data : Value) (typeTag : TypeTag) (repo : AptosParserRepo) : res Value :=
  match typeTag with
  | VectorTag elementType =>
      match elementType with
      | TAtomic U8 =>
          (u8array <- parseVectorU8 data ;; Ok (Array_from u8array))%result
      | _ =>
          match data with
          | VArr elems =>
              let elementTypeParamlessName := getTypeTagParamlessName elementType in
              match getParserFromParamlessName repo elementTypeParamlessName with
              | None => Throw (NoElementParser elementTypeParamlessName)
              | Some elementParser =>
                  (vector <- mapR (fun element => invoke elementParser element elementType repo) elems ;;
                   Ok (VArr vector))%result
              end
          | _ => Throw (ExpectsDataType "VectorParser" "Array" (typeof data))
          end
      end
  | _ => Throw (CannotParseType "VectorParser" (getTypeTagParamlessName typeTag))
  end.

(** The type a field is decoded with (lines 52-53): the type argument at
    the declared index for a [TypeParamIdx], the declared type otherwise.
    [None] is [undefined], the result of reading past the end of
    [typeParams]. *)
Definition fieldTypeTagOf (typeParams : list TypeTag) (declared : TypeTag) : option TypeTag :=
  match declared with
  | TypeParamIdx index => typeParams !! index
  | _ => Some declared
  end.

(** One turn of the loop over [struct.fields] (lines 47-65).  The two
    [console.log] lines that precede the BAD ParamIdx throw (lines 55-56)
    are not kept: a decoder gives a result or an error, not a log. *)
Definition parseField (data : Value) (typeParams : list TypeTag) (repo : AptosParserRepo)
    (struct : StructInfoType) (proto : list (string * Value)) (fieldDecl : FieldDeclType)
  : res (list (string * Value)) :=
  let fieldName := fd_name fieldDecl in
  match
    withProp (fun fieldValue =>
      match fieldTypeTagOf typeParams (fd_typeTag fieldDecl) with
      | None => Throw BadParamIdx
      | Some fieldTypeTag =>
          match getParserFromTypeTag repo fieldTypeTag with
          | None => Throw (NoFieldParser fieldName fieldTypeTag)
          | Some parser =>
              (parsedValue <- invoke parser fieldValue fieldTypeTag repo ;;
               Ok (setProp fieldName parsedValue proto))%result
          end
      end) fieldName data
  with
  | PropTypeError => Throw (TypeError fieldName)
  | PropAbsent => Throw (MissingField (name struct) fieldName)
  | PropFound r => r
  end.

Definition parseStructProto (data : Value) (typeTag : TypeTag) (repo : AptosParserRepo)
    (struct : StructInfoType) : res Value :=
  match typeTag with
  | StructTag address module tagName typeParams =>
      if negb (String.eqb (hex address) (hex (moduleAddress struct))) then
        Throw (ExpectsModuleAddress (name struct) (moduleAddress struct) address)
      else if negb (String.eqb module (moduleName struct)) then
        Throw (ExpectsModuleName (name struct) (moduleName struct) module)
      else if negb (String.eqb tagName (name struct)) then
        Throw (ExpectsStructName (name struct) (name struct) tagName)
      else if negb (String.eqb (typeof data) "object") then
        if String.eqb (toShortString address) "0x1" && String.eqb module "ASCII"
           && String.eqb tagName "String"
        then Ok data
        else Throw (ExpectsObject (name struct) (typeof data))
      else
        (proto <- foldR (parseField data typeParams repo struct) (fields struct) [] ;;
         Ok (VObj proto))%result
  | _ => Throw (ExpectsStructTag (name struct) typeTag)
  end.

End Decoders.

Section Registry.

Variable getTypeTagParamlessName : TypeTag -> string.
Variable getTypeTagFullname : TypeTag -> string.
Variable bigInt : string -> res Z.

(** [parser(data, typeTag, repo)] for a registered parser.  The static
    parser of a generated class is the two lines the generator emits:
    [parseStructProto], then [new X(proto, typeTag)].  Every call a parser
    makes is on a value inside [data], so the recursion is structural. *)
Fixpoint applyParser (parser : ParserFunc) (data : Value) (typeTag : TypeTag)
    (repo : AptosParserRepo) {struct data} : res Value :=
  match parser with
  | Fn_BoolParser => BoolParser getTypeTagParamlessName data typeTag repo
  | Fn_U8Parser => U8Parser getTypeTagParamlessName data typeTag repo
  | Fn_U64Parser => U64Parser getTypeTagParamlessName bigInt data typeTag repo
  | Fn_U128Parser => U128Parser getTypeTagParamlessName bigInt data typeTag repo
  | Fn_AddressParser => AddressParser getTypeTagParamlessName data typeTag repo
  | Fn_VectorParser => VectorParser getTypeTagParamlessName applyParser data typeTag repo
  | Fn_AsciiParser => AsciiParser getTypeTagFullname data typeTag repo
  | Fn_StructParser struct =>
      (proto <- parseStructProto getTypeTagParamlessName applyParser data typeTag repo struct ;;
       Ok (construct struct proto typeTag))%result
  | Fn_extern f => f data typeTag
  end.

(** [AptosParserRepo.parse]. *)
Definition parse (repo : AptosParserRepo) (data : Value) (typeTag : TypeTag) : res Value :=
  let paramlessName := getTypeTagParamlessName typeTag in
  match paramlessNameToParser repo !! paramlessName with
  | None => Throw (NoParserRegistered paramlessName)
  | Some parser => applyParser parser data typeTag repo
  end.

(** [addDefaultParsers]. *)
Definition addDefaultParsers (repo : AptosParserRepo) : AptosParserRepo :=
  let repo := addParser repo "bool" Fn_BoolParser in
  let repo := addParser repo "u8" Fn_U8Parser in
  let repo := addParser repo "u64" Fn_U64Parser in
  let repo := addParser repo "u128" Fn_U128Parser in
  let repo := addParser repo "address" Fn_AddressParser in
  let repo := addParser repo "vector" Fn_VectorParser in
  addParser repo "0x1::ASCII::String" Fn_AsciiParser.

End Registry.

(** ** The resource cache of [aptosResourceCache.ts] *)

(** ['update' | 'delete']. *)
Inductive UpdateType : Type := type_update | type_delete.

(** A callback is a JavaScript function of the caller's.  It is kept by
    reference; calling it is an observable event of the run, recorded with
    the arguments it receives.  Callbacks are taken to return normally and
    not to call back into the cache. *)
Record ListenerType : Type := {
  id : string;
  callback : nat
}.

Inductive Event : Type :=
  | Called (listener : ListenerType) (type : UpdateType) (value : Value)
  | ConsoleLog (line : string).

(** The part of the network client the cache uses.  A client is what the
    network answers at the time of a call: the resource stored under an
    address and a full type name, and the list of an account's resources;
    either request may fail. *)
Record AccountResource : Type := {
  ar_type : string;
  ar_data : Value
}.

Record AptosClient : Type := {
  getAccountResource : HexString -> string -> res AccountResource;
  getAccountResources : HexString -> res (list AccountResource)
}.

(** The changes of a transaction: [WriteResource], [DeleteResource], and the
    other kinds (modules, table items), of which only [type] is read. *)
Inductive WriteSetChange : Type :=
  | write_resource (address : string) (data_type : string) (data_data : Value)
  | delete_resource (address : string) (resource : string)
  | other_change (type : string).

Record UserTransaction : Type := {
  success : bool;
  hash : string;
  changes : list WriteSetChange
}.

(** The cache object.  [watchedAddresses] is a JavaScript [Set], kept in
    insertion order; an address object is identified with its text. *)
Record AptosResourceCache : Type := {
  cachedResources : gmap string Value;
  resourceKeyToLoadParams : gmap string (StructInfoType * HexString * list TypeTag);
  updateListener : gmap string (list ListenerType);
  watchedAddresses : list HexString;
  client : AptosClient;
  repo : AptosParserRepo
}.

Definition set_cachedResources (f : gmap string Value -> gmap string Value)
    (this : AptosResourceCache) : AptosResourceCache :=
  {| cachedResources := f (cachedResources this);
     resourceKeyToLoadParams := resourceKeyToLoadParams this;
     updateListener := updateListener this;
     watchedAddresses := watchedAddresses this;
     client := client this;
     repo := repo this |}.

Definition set_resourceKeyToLoadParams
    (f : gmap string (StructInfoType * HexString * list TypeTag)
         -> gmap string (StructInfoType * HexString * list TypeTag))
    (this : AptosResourceCache) : AptosResourceCache :=
  {| cachedResources := cachedResources this;
     resourceKeyToLoadParams := f (resourceKeyToLoadParams this);
     updateListener := updateListener this;
     watchedAddresses := watchedAddresses this;
     client := client this;
     repo := repo this |}.

Definition set_updateListener
    (f : gmap string (list ListenerType) -> gmap string (list ListenerType))
    (this : AptosResourceCache) : AptosResourceCache :=
  {| cachedResources := cachedResources this;
     resourceKeyToLoadParams := resourceKeyToLoadParams this;
     updateListener := f (updateListener this);
     watchedAddresses := watchedAddresses this;
     client := client this;
     repo := repo this |}.

Definition set_watchedAddresses (f : list HexString -> list HexString)
    (this : AptosResourceCache) : AptosResourceCache :=
  {| cachedResources := cachedResources this;
     resourceKeyToLoadParams := resourceKeyToLoadParams this;
     updateListener := updateListener this;
     watchedAddresses := f (watchedAddresses this);
     client := client this;
     repo := repo this |}.

(** [key in record]. *)
Definition has_key {V} (record : gmap string V) (key : string) : bool :=
  match record !! key with
  | Some _ => true
  | None => false
  end.

Definition HexString_eqb (a b : HexString) : bool :=
  String.eqb (hexString a) (hexString b).

(** [set.add(x)]. *)
Definition Set_add (x : HexString) (set : list HexString) : list HexString :=
  if existsb (HexString_eqb x) set then set else (set ++ [x])%list.

(** *** Methods as state transformers

    A method runs on the cache object [this] and ends with a result or a
    throw; either way the object keeps the writes made so far, and the
    events emitted so far have happened. *)

Record Outcome (A : Type) : Type := {
  returned : res A;
  final : AptosResourceCache;
  emitted : list Event
}.
Arguments returned {A} o.
Arguments final {A} o.
Arguments emitted {A} o.

Definition M (A : Type) : Type := AptosResourceCache -> Outcome A.

Definition ret {A} (a : A) : M A :=
  fun this => {| returned := Ok a; final := this; emitted := [] |}.

Definition throw {A} (e : Error) : M A :=
  fun this => {| returned := Throw e; final := this; emitted := [] |}.

Definition bind {A B} (m : M A) (k : A -> M B) : M B :=
  fun this =>
    let o := m this in
    match returned o with
    | Throw e => {| returned := Throw e; final := final o; emitted := emitted o |}
    | Ok a =>
        let o' := k a (final o) in
        {| returned := returned o'; final := final o'; emitted := (emitted o ++ emitted o')%list |}
    end.

Declare Scope cache_scope.
Delimit Scope cache_scope with cache.
Notation "x <- m ;; k" := (bind m (fun x => k))
  (at level 100, m at next level, right associativity) : cache_scope.

(** A call of code that does not touch the cache. *)
Definition liftR {A} (r : res A) : M A :=
  match r with
  | Ok a => ret a
  | Throw e => throw e
  end.

Definition getThis : M AptosResourceCache :=
  fun this => {| returned := Ok this; final := this; emitted := [] |}.

Definition modify (f : AptosResourceCache -> AptosResourceCache) : M unit :=
  fun this => {| returned := Ok tt; final := f this; emitted := [] |}.

Definition emit (e : Event) : M unit :=
  fun this => {| returned := Ok tt; final := this; emitted := [e] |}.

(** The outcome [o] of a continuation, after the events [ev] of what ran
    before it. *)
Definition after {A} (ev : list Event) (o : Outcome A) : Outcome A :=
  {| returned := returned o; final := final o; emitted := (ev ++ emitted o)%list |}.

(** [try { body } catch (e) { handler }]. *)
Definition tryCatch {A} (body : M A) (handler : Error -> M A) : M A :=
  fun this =>
    let o := body this in
    match returned o with
    | Ok _ => o
    | Throw e =>
        let o' := handler e (final o) in
        {| returned := returned o'; final := final o'; emitted := (emitted o ++ emitted o')%list |}
    end.

(** [for (const x of xs) { body }]. *)
Fixpoint forEach {A} (xs : list A) (body : A -> M unit) : M unit :=
  match xs with
  | [] => ret tt
  | x :: rest => (_ <- body x ;; forEach rest body)%cache
  end.

(** The same loop with the local variable it updates. *)
Fixpoint foldM {A B} (body : B -> A -> M B) (xs : list A) (acc : B) : M B :=
  match xs with
  | [] => ret acc
  | x :: rest => (acc' <- body acc x ;; foldM body rest acc')%cache
  end.

Section Cache.

Variable getTypeTagParamlessName : TypeTag -> string.
Variable getTypeTagFullname : TypeTag -> string.
Variable bigInt : string -> res Z.

(** Modelled from the spec: [parseTypeTagOrThrow] of [src/typeTag.ts]
    parses the text of a type and fails with a parse error. *)
Variable parseTypeTagOrThrow : string -> res TypeTag.

Local Open Scope cache_scope.

(** [AptosParserRepo.loadResource]: it reads the network and touches no
    state. *)
Definition loadResource (repo : AptosParserRepo) (client : AptosClient) (address : HexString)
    (structTsType : StructInfoType) (typeParams : list TypeTag) : res Value :=
  if negb (Nat.eqb (length (typeParameters structTsType)) (length typeParams)) then
    Throw (TypeParamArity (length (typeParameters structTsType)) (length typeParams))
  else
    let typeTag :=
      StructTag (moduleAddress structTsType) (moduleName structTsType)
                (name structTsType) typeParams in
    (resource <- getAccountResource client address (getTypeTagFullname typeTag) ;;
     proto <- parseStructProto getTypeTagParamlessName
                (applyParser getTypeTagParamlessName getTypeTagFullname bigInt)
                (ar_data resource) typeTag repo structTsType ;;
     Ok (construct structTsType proto typeTag))%result.

Definition getResourceKey (ownerAddress : HexString) (typeTag : TypeTag) : string :=
  hex ownerAddress +:+ "/" +:+ getTypeTagFullname typeTag.

Definition addListenerForResource (resourceKey : string) (listener : ListenerType) : M unit :=
  this <- getThis ;;
  _ <- (if negb (has_key (updateListener this) resourceKey)
        then modify (set_updateListener <[resourceKey := []]>)
        else ret tt) ;;
  this <- getThis ;;
  let registered := default [] (updateListener this !! resourceKey) in
  if existsb (fun registeredListener => String.eqb (id registeredListener) (id listener))
             registered
  then ret tt
  else modify (set_updateListener <[resourceKey := (registered ++ [listener])%list]>).

Definition updateResource (resourceKey : string) (value : Value) : M unit :=
  _ <- modify (set_cachedResources <[resourceKey := value]>) ;;
  this <- getThis ;;
  match updateListener this !! resourceKey with
  | Some listeners =>
      forEach listeners (fun listener => emit (Called listener type_update value))
  | None => ret tt
  end.

Definition deleteResource (resourceKey : string) : M unit :=
  _ <- modify (set_cachedResources (delete resourceKey)) ;;
  this <- getThis ;;
  match updateListener this !! resourceKey with
  | Some listeners =>
      forEach listeners (fun listener => emit (Called listener type_delete VNull))
  | None => ret tt
  end.

(** Lines 40-45 and 64-69: update with notification when the key is
    cached, plain insertion otherwise. *)
Definition upsert (resourceKey : string) (value : Value) : M unit :=
  this <- getThis ;;
  if has_key (cachedResources this) resourceKey
  then updateResource resourceKey value
  else modify (set_cachedResources <[resourceKey := value]>).

Definition load (struct : StructInfoType) (address : HexString) (typeParams : list TypeTag)
    (listener : option ListenerType) : M Value :=
  this <- getThis ;;
  loaded <- liftR (loadResource (repo this) (client this) address struct typeParams) ;;
  let typeTag :=
    StructTag (moduleAddress struct) (moduleName struct) (structName struct) typeParams in
  let resourceKey := getResourceKey address typeTag in
  _ <- upsert resourceKey loaded ;;
  _ <- modify (set_resourceKeyToLoadParams <[resourceKey := (struct, address, typeParams)]>) ;;
  _ <- match listener with
       | Some listener => addListenerForResource resourceKey listener
       | None => ret tt
       end ;;
  ret loaded.

(** One turn of the loop of [loadAccount] (lines 59-78);
    [loadedResourceKeys] is the local array. *)
Definition loadAccount_resource (address : HexString) (listener : option ListenerType)
    (loadedResourceKeys : list string) (resource : AccountResource) : M (list string) :=
  typeTag <- liftR (parseTypeTagOrThrow (ar_type resource)) ;;
  tryCatch
    (this <- getThis ;;
     value <- liftR (parse getTypeTagParamlessName getTypeTagFullname bigInt
                       (repo this) (ar_data resource) typeTag) ;;
     let resourceKey := getResourceKey address typeTag in
     _ <- upsert resourceKey value ;;
     let loadedResourceKeys := (loadedResourceKeys ++ [resourceKey])%list in
     _ <- match listener with
          | Some listener => addListenerForResource resourceKey listener
          | None => ret tt
          end ;;
     ret loadedResourceKeys)
    (fun e =>
       _ <- emit (ConsoleLog ("Failed to parse resource of type: " +:+ ar_type resource)) ;;
       ret loadedResourceKeys).

Definition loadAccount (address : HexString) (listener : option ListenerType)
  : M (list string) :=
  this <- getThis ;;
  resources <- liftR (getAccountResources (client this) address) ;;
  loadedResourceKeys <- foldM (loadAccount_resource address listener) resources [] ;;
  _ <- modify (set_watchedAddresses (Set_add address)) ;;
  ret loadedResourceKeys.

(** One turn of the loop of [updateFromTransactionResult] (lines 130-149). *)
Definition applyChange (change : WriteSetChange) : M unit :=
  match change with
  | write_resource address data_type data_data =>
      typeTag <- liftR (parseTypeTagOrThrow data_type) ;;
      let resourceKey := getResourceKey (HexString_new address) typeTag in
      this <- getThis ;;
      if has_key (cachedResources this) resourceKey then
        newValue <- liftR (parse getTypeTagParamlessName getTypeTagFullname bigInt
                             (repo this) data_data typeTag) ;;
        updateResource resourceKey newValue
      else ret tt
  | delete_resource address resource =>
      typeTag <- liftR (parseTypeTagOrThrow resource) ;;
      let resourceKey := getResourceKey (HexString_new address) typeTag in
      this <- getThis ;;
      if has_key (cachedResources this) resourceKey then deleteResource resourceKey
      else ret tt
  | other_change _ => ret tt
  end.

Definition updateFromTransactionResult (txn : UserTransaction) : M unit :=
  if success txn && negb (String.eqb (hash txn) "0x0")
  then forEach (changes txn) applyChange
  else ret tt.

End Cache.

(** ** Reference behaviour and a concrete setting

    [notifications] are the calls one update or delete makes;
    [decodeEntry] is what [loadAccount] obtains from one entry of an
    account's resource list when nothing fails. *)

Definition sameId (listener registeredListener : ListenerType) : bool :=
  String.eqb (id registeredListener) (id listener).

Definition notifications (type : UpdateType) (value : Value) (listeners : list ListenerType)
  : list Event :=
  map (fun listener => Called listener type value) listeners.

Definition listenersOf (this : AptosResourceCache) (resourceKey : string) : list ListenerType :=
  default [] (updateListener this !! resourceKey).

(** The cache object after the optional registration of a listener. *)
Definition withListener (resourceKey : string) (listener : option ListenerType)
    (this : AptosResourceCache) : AptosResourceCache :=
  match listener with
  | None => this
  | Some l =>
      if existsb (sameId l) (listenersOf this resourceKey) then this
      else set_updateListener
             <[resourceKey := (listenersOf this resourceKey ++ [l])%list]> this
  end.

Section Reference.

Variable getTypeTagParamlessName : TypeTag -> string.
Variable getTypeTagFullname : TypeTag -> string.
Variable bigInt : string -> res Z.
Variable parseTypeTagOrThrow : string -> res TypeTag.

Definition decodeEntry (repo : AptosParserRepo) (address : HexString)
    (resource : AccountResource) : res (string * Value) :=
  (typeTag <- parseTypeTagOrThrow (ar_type resource) ;;
   value <- parse getTypeTagParamlessName getTypeTagFullname bigInt
              repo (ar_data resource) typeTag ;;
   Ok (getResourceKey getTypeTagFullname address typeTag, value))%result.

(** The cache object after a [load] that obtained [loaded]. *)
Definition afterLoad (struct : StructInfoType) (address : HexString)
    (typeParams : list TypeTag) (listener : option ListenerType) (loaded : Value)
    (this : AptosResourceCache) : AptosResourceCache :=
  let key :=
    getResourceKey getTypeTagFullname address
      (StructTag (moduleAddress struct) (moduleName struct) (structName struct) typeParams) in
  withListener key listener
    (set_resourceKeyToLoadParams <[key := (struct, address, typeParams)]>
       (set_cachedResources <[key := loaded]> this)).

End Reference.

Definition insertAll (entries : list (string * Value)) (cached : gmap string Value)
  : gmap string Value :=
  fold_left (fun m kv => <[fst kv := snd kv]> m) entries cached.

(** Stand-ins for the parameters, for the examples: names in the spec's
    format, a table of a few type texts, and integers in decimal digits. *)

Definition atomicName (a : AtomicTypeTag) : string :=
  match a with
  | Bool => "bool"
  | U8 => "u8"
  | U64 => "u64"
  | U128 => "u128"
  | Address => "address"
  end.

Definition demo_paramlessName (t : TypeTag) : string :=
  match t with
  | TAtomic a => atomicName a
  | VectorTag _ => "vector"
  | StructTag a m n _ => hex a +:+ "::" +:+ m +:+ "::" +:+ n
  | TypeParamIdx _ => "$tv"
  end.

Fixpoint demo_fullName (t : TypeTag) : string :=
  match t with
  | TAtomic a => atomicName a
  | VectorTag e => "vector<" +:+ demo_fullName e +:+ ">"
  | StructTag a m n tps =>
      hex a +:+ "::" +:+ m +:+ "::" +:+ n +:+
      match tps with
      | [] => ""
      | _ => "<" +:+ String.concat ", " (map demo_fullName tps) +:+ ">"
      end
  | TypeParamIdx _ => "$tv"
  end.

Definition demo_parseType (text : string) : res TypeTag :=
  if String.eqb text "bool" then Ok (TAtomic Bool)
  else if String.eqb text "u8" then Ok (TAtomic U8)
  else if String.eqb text "u64" then Ok (TAtomic U64)
  else if String.eqb text "vector<u8>" then Ok (VectorTag (TAtomic U8))
  else if String.eqb text "0x1::ASCII::String" then
    Ok (StructTag (HexString_new "0x1") "ASCII" "String" [])
  else if String.eqb text "0x1::Box::Box<u64>" then
    Ok (StructTag (HexString_new "0x1") "Box" "Box" [TAtomic U64])
  else Throw (ExternalError text).

Fixpoint digitsValue (s : string) (acc : Z) : option Z :=
  match s with
  | EmptyString => Some acc
  | String c rest =>
      let n := Z.of_nat (nat_of_ascii c) in
      if (48 <=? n) && (n <=? 57) then digitsValue rest (10 * acc + (n - 48)) else None
  end.

Definition demo_bigInt (text : string) : res Z :=
  match text with
  | EmptyString => Throw (ExternalError "Invalid integer: ")
  | _ =>
      match digitsValue text 0 with
      | Some z => Ok z
      | None => Throw (ExternalError ("Invalid integer: " +:+ text))
      end
  end.

Definition demo_client (resources : list AccountResource) : AptosClient :=
  {| getAccountResource := fun _ fullname =>
       match find (fun r => String.eqb (ar_type r) fullname) resources with
       | Some r => Ok r
       | None => Throw (ExternalError "resource not found")
       end;
     getAccountResources := fun _ => Ok resources |}.

Definition demo_repo : AptosParserRepo :=
  addDefaultParsers {| paramlessNameToParser := ∅ |}.

Definition demo_cache (resources : list AccountResource) : AptosResourceCache :=
  {| cachedResources := ∅;
     resourceKeyToLoadParams := ∅;
     updateListener := ∅;
     watchedAddresses := [];
     client := demo_client resources;
     repo := demo_repo |}.

(** A generic struct [0x1::Box::Box<T>] with one field [value : T], and the
    struct of the library's text type. *)
Definition Box : StructInfoType :=
  {| moduleAddress := HexString_new "0x1";
     moduleName := "Box";
     name := "Box";
     structName := "Box";
     typeParameters := [{| tp_name := "T"; isPhantom := false |}];
     fields := [{| fd_name := "value"; fd_typeTag := TypeParamIdx 0 |}];
     construct := fun proto _ => proto |}.

Definition AsciiString : StructInfoType :=
  {| moduleAddress := HexString_new "0x1";
     moduleName := "ASCII";
     name := "String";
     structName := "String";
     typeParameters := [];
     fields := [{| fd_name := "bytes"; fd_typeTag := VectorTag (TAtomic U8) |}];
     construct := fun proto _ => proto |}.

(** The scenarios of the examples: the account [0x1] holds a text resource
    that two listeners watch. *)

Definition owner : HexString := HexString_new "0x1".

Definition textTag : TypeTag := StructTag (HexString_new "0x1") "ASCII" "String" [].

Definition textKey : string := getResourceKey demo_fullName owner textTag.

Definition listenerA : ListenerType := {| id := "a"; callback := 1%nat |}.
Definition listenerB : ListenerType := {| id := "b"; callback := 2%nat |}.

Definition textResource (text : string) : AccountResource :=
  {| ar_type := "0x1::ASCII::String"; ar_data := VStr text |}.

Definition watching (resources : list AccountResource) : AptosResourceCache :=
  {| cachedResources := {[ textKey := VStr "old" ]};
     resourceKeyToLoadParams := ∅;
     updateListener := {[ textKey := [listenerA; listenerB] ]};
     watchedAddresses := [];
     client := demo_client resources;
     repo := demo_repo |}.

Definition txn_failed : UserTransaction :=
  {| success := false; hash := "0x5e";
     changes := [delete_resource "0x1" "0x1::ASCII::String"] |}.

Definition txn_delete : UserTransaction :=
  {| success := true; hash := "0x5e";
     changes := [delete_resource "0x1" "0x1::ASCII::String"] |}.

(** The cache after a [load] of [Box<u64>] under the same account: the
    resource is cached, and the repo, which holds the default parsers only,
    has no parser for [0x1::Box::Box]. *)
Definition boxOfU64 : TypeTag := StructTag (HexString_new "0x1") "Box" "Box" [TAtomic U64].

Definition boxKey : string := getResourceKey demo_fullName owner boxOfU64.

Definition watchingWithBox : AptosResourceCache :=
  set_resourceKeyToLoadParams <[boxKey := (Box, owner, [TAtomic U64])]>
    (set_cachedResources <[boxKey := VObj [("value", VBigInt 1)]]> (watching [])).

(** A successful transaction that writes the box and then deletes the text
    resource. *)
Definition txn_blocked : UserTransaction :=
  {| success := true; hash := "0x5e";
     changes := [write_resource "0x1" "0x1::Box::Box<u64>" (VObj [("value", VStr "8")]);
                 delete_resource "0x1" "0x1::ASCII::String"] |}.

(** A successful transaction whose first change names a type that
    [demo_parseType] does not parse. *)
Definition txn_unparsable : UserTransaction :=
  {| success := true; hash := "0x5e";
     changes := [delete_resource "0x1" "signer";
                 delete_resource "0x1" "0x1::ASCII::String"] |}.

(** A struct without fields, under the same account. *)
Definition Marker : StructInfoType :=
  {| moduleAddress := HexString_new "0x1";
     moduleName := "Box";
     name := "Marker";
     structName := "Marker";
     typeParameters := [];
     fields := [];
     construct := fun proto _ => proto |}.

Definition markerTag : TypeTag := StructTag (HexString_new "0x1") "Box" "Marker" [].

Definition u64Resource : AccountResource := {| ar_type := "u64"; ar_data := VStr "7" |}.
Definition boolResource : AccountResource := {| ar_type := "bool"; ar_data := VBool true |}.
(** A [u8] whose data is a text: the shape does not fit. *)
Definition misshapenResource : AccountResource := {| ar_type := "u8"; ar_data := VStr "x" |}.
(** A type text outside the table of [demo_parseType]. *)
Definition unparsableResource : AccountResource := {| ar_type := "signer"; ar_data := VNull |}.

(** ** More of [parserRepo.ts]: byte vectors and events *)

(** A [Uint8Array] is the list of its bytes, each from 0 to 255.
    [new Uint8Array(numbers)] converts each (integer) number modulo 256.
    [new TextEncoder().encode(text)] returns the bytes of the UTF-8 encoding
    of the text; a text is held here as those bytes. *)
Definition Uint8Array_from_numbers (input : list Z) : list Z :=
  map (fun n => n mod 256) input.

Definition TextEncoder_encode (input : string) : list Z :=
  map (fun c => Z.of_nat (nat_of_ascii c)) (list_ascii_of_string input).

(** [HexString.fromUint8Array] of the SDK: the bytes in two lower-case
    hexadecimal digits each, given to the constructor. *)
Definition HexString_fromUint8Array (arr : list Z) : HexString :=
  HexString_new (hexEncode arr).

(** The argument [number[] | string | Uint8Array] of [AptosVectorU8] and of
    [numbersOrStringToHexString]. *)
Inductive BytesInput : Type :=
  | InNumbers (numbers : list Z)
  | InString (text : string)
  | InUint8Array (bytes : list Z).

(** The invariant of the input's type: the elements of a [Uint8Array] are
    bytes. *)
Definition wellFormedInput (input : BytesInput) : Prop :=
  match input with
  | InUint8Array bytes => Forall (fun b => 0 <= b < 256) bytes
  | _ => True
  end.

Record AptosVectorU8 : Type := { u8Array : list Z }.

Definition AptosVectorU8_new (input : BytesInput) : AptosVectorU8 :=
  match input with
  | InUint8Array bytes => {| u8Array := bytes |}
  | InString text => {| u8Array := TextEncoder_encode text |}
  | InNumbers numbers => {| u8Array := Uint8Array_from_numbers numbers |}
  end.

Definition AptosVectorU8_toHexString (v : AptosVectorU8) : HexString :=
  HexString_fromUint8Array (u8Array v).

Definition AptosVectorU8_hex (v : AptosVectorU8) : string :=
  hex (HexString_fromUint8Array (u8Array v)).

Definition AptosVectorU8_asNumbers (v : AptosVectorU8) : list Z := u8Array v.

Definition numbersOrStringToHexString (input : BytesInput) : HexString :=
  match input with
  | InString text => HexString_fromUint8Array (TextEncoder_encode text)
  | InUint8Array bytes => HexString_fromUint8Array bytes
  | InNumbers numbers => HexString_fromUint8Array (Uint8Array_from_numbers numbers)
  end.

(** An event of the chain, of which [type] and [data] are read, and the
    optional query of [loadEvents], which is handed to the client as it is. *)
Record ChainEvent : Type := {
  ev_type : string;
  ev_data : Value
}.

Record EventQuery : Type := {
  q_start : option Z;
  q_limit : option Z
}.

(** The throw of [loadEvents] itself (line 239), beside the errors of the
    code it calls. *)
Inductive LoadEventsError : Type :=
  | ContainerNotAStruct (paramlessName : string)
  | EventError (e : Error).

Definition liftE {A} (r : res A) : result LoadEventsError A :=
  match r with
  | Ok a => Ok a
  | Throw e => Throw (EventError e)
  end.

Section Events.

Variable getTypeTagParamlessName : TypeTag -> string.
Variable getTypeTagFullname : TypeTag -> string.
Variable bigInt : string -> res Z.
Variable parseTypeTagOrThrow : string -> res TypeTag.

(** [client.getEventsByEventHandle]: what the network answers. *)
Variable getEventsByEventHandle :
  HexString -> string -> string -> option EventQuery -> res (list ChainEvent).

(** The callback of [events.map] (lines 242-245). *)
Definition loadEvents_event (repo : AptosParserRepo) (e : ChainEvent) : res Value :=
  (tag <- parseTypeTagOrThrow (ev_type e) ;;
   parse getTypeTagParamlessName getTypeTagFullname bigInt repo (ev_data e) tag)%result.

Definition loadEvents (repo : AptosParserRepo) (address : HexString)
    (containerTypeTag : TypeTag) (field : string) (query : option EventQuery)
  : result LoadEventsError (list Value) :=
  let handlerFullname := getTypeTagFullname containerTypeTag in
  match containerTypeTag with
  | StructTag _ _ _ _ =>
      (events <- liftE (getEventsByEventHandle address handlerFullname field query) ;;
       liftE (mapR (loadEvents_event repo) events))%result
  | _ => Throw (ContainerNotAStruct (getTypeTagParamlessName containerTypeTag))
  end.

(** What [loadAccount] keeps of a resource list: the entries that decode,
    and a log line for each of the others. *)
Definition decodedEntries (repo : AptosParserRepo) (address : HexString)
    (resources : list AccountResource) : list (string * Value) :=
  flat_map (fun r =>
              match decodeEntry getTypeTagParamlessName getTypeTagFullname bigInt
                      parseTypeTagOrThrow repo address r with
              | Ok kv => [kv]
              | Throw _ => []
              end) resources.

Definition failureLogs (repo : AptosParserRepo) (address : HexString)
    (resources : list AccountResource) : list Event :=
  flat_map (fun r =>
              match decodeEntry getTypeTagParamlessName getTypeTagFullname bigInt
                      parseTypeTagOrThrow repo address r with
              | Ok _ => []
              | Throw _ => [ConsoleLog ("Failed to parse resource of type: " +:+ ar_type r)]
              end) resources.

End Events.

Definition isConsoleLog (e : Event) : bool :=
  match e with
  | ConsoleLog _ => true
  | Called _ _ _ => false
  end.

(** The listeners of every key have distinct ids. *)
Definition listenersDistinct (this : AptosResourceCache) : Prop :=
  forall key listeners,
    updateListener this !! key = Some listeners -> NoDup (map id listeners).

(** The names of the parsers that [addDefaultParsers] registers. *)
Definition defaultParser (paramlessName : string) : option ParserFunc :=
  if String.eqb paramlessName "0x1::ASCII::String" then Some Fn_AsciiParser
  else if String.eqb paramlessName "vector" then Some Fn_VectorParser
  else if String.eqb paramlessName "address" then Some Fn_AddressParser
  else if String.eqb paramlessName "u128" then Some Fn_U128Parser
  else if String.eqb paramlessName "u64" then Some Fn_U64Parser
  else if String.eqb paramlessName "u8" then Some Fn_U8Parser
  else if String.eqb paramlessName "bool" then Some Fn_BoolParser
  else None.

(** ** The generator ([AptosTsgen]): types and script function parameters

    The methods that compute on type tags and emit lines.  The generator
    object is the state; a method returns a result or a throw together with
    the object as it left it.  Of the module and function descriptions the
    fields that these methods read are kept. *)

Inductive IMPORT : Type :=
  | HEXSTRING | BIGINT | TYPE_PARAM_DECL_TYPE | FIELD_DECL_TYPE
  | PARSE_TYPE_TAG_OR_THROW | TYPETAG | GET_TYPETAG_FULLNAME | APTOS_PARSER_REPO
  | PARSE_STRUCT_PROTO | APTOS_CLIENT | APTOS_ACCOUNT | USER_TRANSACTION | SEND_AND_WAIT.

Definition IMPORT_index (i : IMPORT) : nat :=
  match i with
  | HEXSTRING => 0 | BIGINT => 1 | TYPE_PARAM_DECL_TYPE => 2 | FIELD_DECL_TYPE => 3
  | PARSE_TYPE_TAG_OR_THROW => 4 | TYPETAG => 5 | GET_TYPETAG_FULLNAME => 6
  | APTOS_PARSER_REPO => 7 | PARSE_STRUCT_PROTO => 8 | APTOS_CLIENT => 9
  | APTOS_ACCOUNT => 10 | USER_TRANSACTION => 11 | SEND_AND_WAIT => 12
  end%nat.

Definition IMPORT_eqb (a b : IMPORT) : bool := Nat.eqb (IMPORT_index a) (IMPORT_index b).

Record JsonNamedConstantType : Type := {
  const_name : string;
  const_type : string;
  const_value : string
}.

Record JsonFuncParamType : Type := {
  param_name : string;
  param_type : string
}.

Record JsonFuncType : Type := {
  func_name : string;
  func_params : list JsonFuncParamType
}.

Record JsonModuleType : Type := {
  mod_address : string;
  mod_module : string
}.

Inductive GenError : Type :=
  | UnsupportedConstantType (type : string)
  | StructTagNotAllowed (typeTag : TypeTag)
  | NotAcceptableParameterType (tag : TypeTag)
  | VectorNotSupported (tag : TypeTag)
  | StructArgument (tag : TypeTag)
  | TypeParameterArgument
  | UnsupportedParameterType (tag : TypeTag)
  | TypeTagError (e : Error).

(** The sets of the generator hold strings and enum values, which a
    JavaScript [Set] compares by value; they are kept in insertion order. *)
Record AptosTsgen : Type := {
  lines : list string;
  imports : list IMPORT;
  importedAddresses : list string;
  importedModulesUnderSameAddress : list string
}.

Definition addTo {A} (eqb : A -> A -> bool) (x : A) (set : list A) : list A :=
  if existsb (eqb x) set then set else (set ++ [x])%list.

Definition G (A : Type) : Type := AptosTsgen -> result GenError A * AptosTsgen.

Definition gret {A} (a : A) : G A := fun this => (Ok a, this).

Definition gthrow {A} (e : GenError) : G A := fun this => (Throw e, this).

Definition gbind {A B} (m : G A) (k : A -> G B) : G B :=
  fun this =>
    match m this with
    | (Ok a, this') => k a this'
    | (Throw e, this') => (Throw e, this')
    end.

Declare Scope gen_scope.
Delimit Scope gen_scope with gen.
Notation "x <- m ;; k" := (gbind m (fun x => k))
  (at level 100, m at next level, right associativity) : gen_scope.

Definition emitln (line : string) : G unit :=
  fun this =>
    (Ok tt, {| lines := (lines this ++ [line])%list;
               imports := imports this;
               importedAddresses := importedAddresses this;
               importedModulesUnderSameAddress := importedModulesUnderSameAddress this |}).

Definition imports_add (i : IMPORT) : G unit :=
  fun this =>
    (Ok tt, {| lines := lines this;
               imports := addTo IMPORT_eqb i (imports this);
               importedAddresses := importedAddresses this;
               importedModulesUnderSameAddress := importedModulesUnderSameAddress this |}).

Definition importedAddresses_add (a : string) : G unit :=
  fun this =>
    (Ok tt, {| lines := lines this;
               imports := imports this;
               importedAddresses := addTo String.eqb a (importedAddresses this);
               importedModulesUnderSameAddress := importedModulesUnderSameAddress this |}).

Definition importedModulesUnderSameAddress_add (m : string) : G unit :=
  fun this =>
    (Ok tt, {| lines := lines this;
               imports := imports this;
               importedAddresses := importedAddresses this;
               importedModulesUnderSameAddress :=
                 addTo String.eqb m (importedModulesUnderSameAddress this) |}).

(** [xs.forEach(body)] in a method of the generator. *)
Fixpoint gforEach {A} (xs : list A) (body : A -> G unit) : G unit :=
  match xs with
  | [] => gret tt
  | x :: rest => (_ <- body x ;; gforEach rest body)%gen
  end.

(** The double quote, for the lines that hold one. *)
Definition dquote : string := String (ascii_of_nat 34) EmptyString.

(** Modelled from the spec: the values of the enum [AtomicTypeTag] of
    [src/typeTag.ts], which is not among the sources, are the tokens of the
    spec's grammar; the generator compares the type text of a constant with
    them, and the README's example agrees for [u64]. *)
Definition AtomicTypeTag_value (a : AtomicTypeTag) : string :=
  match a with
  | Bool => "bool"
  | U8 => "u8"
  | U64 => "u64"
  | U128 => "u128"
  | Address => "address"
  end.

Definition generateConstant (constant : JsonNamedConstantType) : G unit :=
  let typeTag := const_type constant in
  if String.eqb typeTag (AtomicTypeTag_value Bool) then
    emitln ("export const " +:+ const_name constant +:+ ": " +:+ "boolean" +:+ " = "
            +:+ const_value constant +:+ ";")
  else if String.eqb typeTag (AtomicTypeTag_value U8) then
    emitln ("export const " +:+ const_name constant +:+ ": " +:+ "number" +:+ " = "
            +:+ const_value constant +:+ ";")
  else if String.eqb typeTag (AtomicTypeTag_value U64)
          || String.eqb typeTag (AtomicTypeTag_value U128) then
    (_ <- imports_add BIGINT ;;
     emitln ("export const " +:+ const_name constant +:+ ": " +:+ "bigInt.BigInteger" +:+ " = "
             +:+ ("bigInt(" +:+ dquote +:+ const_value constant +:+ dquote +:+ ")") +:+ ";"))%gen
  else gthrow (UnsupportedConstantType (const_type constant)).

(** [typeTagToTsType].  A template holds an address as [address.toString()],
    which is [hex()].  Every atomic tag has a branch, so the last [throw] of
    the source is not reached. *)
Fixpoint typeTagToTsType (typeTag : TypeTag) (module : JsonModuleType) (allowStruct : bool)
  : G string :=
  match typeTag with
  | StructTag address tagModule tagName _ =>
      if String.eqb tagModule "ASCII" && String.eqb (toShortString address) "0x1" then
        gret "string"
      else if negb allowStruct then gthrow (StructTagNotAllowed typeTag)
      else
        let sameAddress :=
          String.eqb (toShortString address)
                     (toShortString (HexString_new (mod_address module))) in
        let isInternal := sameAddress && String.eqb tagModule (mod_module module) in
        if isInternal then gret tagName
        else if sameAddress then
          (_ <- importedModulesUnderSameAddress_add tagModule ;;
           gret (tagModule +:+ "." +:+ tagName))%gen
        else
          (_ <- importedAddresses_add ("X" +:+ hex address) ;;
           gret ("X" +:+ hex address +:+ "." +:+ tagModule +:+ "." +:+ tagName))%gen
  | VectorTag elementType =>
      (innerTsType <- typeTagToTsType elementType module allowStruct ;;
       gret (innerTsType +:+ "[]"))%gen
  | TypeParamIdx _ => gret "any"
  | TAtomic U8 => gret "number"
  | TAtomic U64 | TAtomic U128 =>
      (_ <- imports_add BIGINT ;; gret "bigInt.BigInteger")%gen
  | TAtomic Bool => gret "boolean"
  | TAtomic Address => (_ <- imports_add HEXSTRING ;; gret "HexString")%gen
  end.

Fixpoint isAcceptableConstantType (tag : TypeTag) : bool :=
  match tag with
  | StructTag _ _ _ _ => false
  | VectorTag elementType => isAcceptableConstantType elementType
  | TypeParamIdx _ => false
  | TAtomic _ => true
  end.

Definition getTsHandlerForScriptFunctionParameter (tag : TypeTag) (param : JsonFuncParamType)
  : result GenError string :=
  if negb (isAcceptableConstantType tag) then Throw (NotAcceptableParameterType tag)
  else
    match tag with
    | VectorTag elementType =>
        match elementType with
        | TAtomic U8 =>
            Ok ("HexString.fromUint8Array(new Uint8Array(" +:+ param_name param +:+ ")).hex()")
        | TAtomic U64 | TAtomic U128 =>
            Ok (param_name param +:+ ".map(bigi => bigi.toString())")
        | TAtomic Bool => Ok (param_name param)
        | TAtomic Address => Ok (param_name param)
        | _ => Throw (VectorNotSupported tag)
        end
    | StructTag _ _ _ _ => Throw (StructArgument tag)
    | TypeParamIdx _ => Throw TypeParameterArgument
    | TAtomic Address => Ok ("new HexString(" +:+ param_name param +:+ ")")
    | TAtomic Bool => Ok (param_name param)
    | TAtomic U8 => Ok (param_name param)
    | TAtomic U64 | TAtomic U128 => Ok (param_name param +:+ ".toString()")
    end.

Definition gliftTag (r : res TypeTag) : G TypeTag :=
  match r with
  | Ok t => gret t
  | Throw e => gthrow (TypeTagError e)
  end.

Definition gliftR {A} (r : result GenError A) : G A :=
  match r with
  | Ok a => gret a
  | Throw e => gthrow e
  end.

Definition notSigner (a : JsonFuncParamType) : bool :=
  negb (String.eqb (param_type a) "&signer") && negb (String.eqb (param_type a) "signer").

Section Generator.

Variable parseTypeTagOrThrow : string -> res TypeTag.

Local Open Scope gen_scope.

Definition generateScriptFunction (func : JsonFuncType) (module : JsonModuleType) : G unit :=
  _ <- imports_add APTOS_CLIENT ;;
  _ <- imports_add APTOS_ACCOUNT ;;
  _ <- emitln ("export async function " +:+ func_name func +:+ "(") ;;
  _ <- emitln "  client: AptosClient," ;;
  _ <- emitln "  account: AptosAccount," ;;
  let paramsWithoutSigners := List.filter notSigner (func_params func) in
  _ <- gforEach paramsWithoutSigners (fun param =>
         tag <- gliftTag (parseTypeTagOrThrow (param_type param)) ;;
         let ALLOW_STRUCT := false in
         tsType <- typeTagToTsType tag module ALLOW_STRUCT ;;
         emitln ("  " +:+ param_name param +:+ ": " +:+ tsType +:+ ",")) ;;
  _ <- imports_add TYPETAG ;;
  _ <- imports_add GET_TYPETAG_FULLNAME ;;
  _ <- emitln "  typeParams: TypeTag[]," ;;
  _ <- emitln ") {" ;;
  _ <- emitln "  const typeParamStrings = typeParams.map(t=>getTypeTagFullname(t));" ;;
  _ <- imports_add SEND_AND_WAIT ;;
  _ <- emitln "  return sendAndWait(" ;;
  _ <- emitln "    client," ;;
  _ <- emitln "    account," ;;
  _ <- emitln ("    " +:+ dquote +:+ mod_address module +:+ "::" +:+ mod_module module +:+ "::"
               +:+ func_name func +:+ dquote +:+ ",") ;;
  _ <- emitln "    typeParamStrings," ;;
  _ <- (if Nat.eqb (length paramsWithoutSigners) 0 then emitln "    []"
        else
          _ <- emitln "    [" ;;
          _ <- gforEach paramsWithoutSigners (fun param =>
                 tag <- gliftTag (parseTypeTagOrThrow (param_type param)) ;;
                 tsHandler <- gliftR (getTsHandlerForScriptFunctionParameter tag param) ;;
                 emitln ("      " +:+ tsHandler +:+ ",")) ;;
          emitln "    ]") ;;
  _ <- emitln "  );" ;;
  emitln "}".

End Generator.

(** The shape of a type tag under its vectors. *)
Fixpoint innermost (t : TypeTag) : TypeTag :=
  match t with
  | VectorTag e => innermost e
  | _ => t
  end.

Fixpoint vectorDepth (t : TypeTag) : nat :=
  match t with
  | VectorTag e => S (vectorDepth e)
  | _ => 0
  end.

Fixpoint brackets (n : nat) : string :=
  match n with
  | O => EmptyString
  | S k => "[]" +:+ brackets k
  end.

Definition isAsciiStruct (t : TypeTag) : bool :=
  match t with
  | StructTag address tagModule _ _ =>
      String.eqb tagModule "ASCII" && String.eqb (toShortString address) "0x1"
  | _ => false
  end.

Definition isStruct (t : TypeTag) : bool :=
  match t with
  | StructTag _ _ _ _ => true
  | _ => false
  end.

Definition isAtomic (t : TypeTag) : bool :=
  match t with
  | TAtomic _ => true
  | _ => false
  end.

(** A parameter type that a script function can take: an atomic type or a
    vector of an atomic type. *)
Definition isPlainParameterType (t : TypeTag) : bool :=
  match t with
  | TAtomic _ => true
  | VectorTag (TAtomic _) => true
  | _ => false
  end.

Definition emptyTsgen : AptosTsgen :=
  {| lines := []; imports := []; importedAddresses := [];
     importedModulesUnderSameAddress := [] |}.

Definition demo_module : JsonModuleType :=
  {| mod_address := "0x1234"; mod_module := "TestModule" |}.

(** The function [register] of the README's example, without its signer. *)
Definition demo_register : JsonFuncType :=
  {| func_name := "register";
     func_params := [ {| param_name := "account"; param_type := "&signer" |};
                      {| param_name := "name"; param_type := "vector<u8>" |};
                      {| param_name := "age"; param_type := "u8" |};
                      {| param_name := "balance"; param_type := "u64" |} ] |}.

(** What a call may have changed when it only writes cached values. *)
Definition onlyCacheChanged (before after : AptosResourceCache) : Prop :=
  updateListener after = updateListener before /\
  resourceKeyToLoadParams after = resourceKeyToLoadParams before /\
  watchedAddresses after = watchedAddresses before /\
  client after = client before /\
  repo after = repo before.

(** A listener with the id of [listener] is registered for the key. *)
Definition registeredFor (listener : ListenerType) (this : AptosResourceCache)
    (resourceKey : string) : Prop :=
  existsb (sameId listener) (listenersOf this resourceKey) = true.

(** The constructor of the cache. *)
Definition AptosResourceCache_new (client : AptosClient) (repo : AptosParserRepo)
  : AptosResourceCache :=
  {| cachedResources := ∅;
     resourceKeyToLoadParams := ∅;
     updateListener := ∅;
     watchedAddresses := [];
     client := client;
     repo := repo |}.

(** The type tags that [typeTagToTsType] refuses: under its vectors, a
    struct outside the module [0x1::ASCII], when structs are not allowed. *)
Definition refusedType (allowStruct : bool) (t : TypeTag) : bool :=
  negb allowStruct && isStruct (innermost t) && negb (isAsciiStruct (innermost t)).

(** A successful transaction that writes the text resource, and an event
    stream whose second event does not decode. *)
Definition txn_write : UserTransaction :=
  {| success := true; hash := "0x5e";
     changes := [write_resource "0x1" "0x1::ASCII::String" (VStr "new")] |}.

Definition demo_events (events : list ChainEvent)
  : HexString -> string -> string -> option EventQuery -> res (list ChainEvent) :=
  fun _ _ _ _ => Ok events.

Definition u64Event : ChainEvent := {| ev_type := "u64"; ev_data := VStr "7" |}.
Definition misshapenEvent : ChainEvent := {| ev_type := "u8"; ev_data := VStr "x" |}.

Definition listenerC : ListenerType := {| id := "c"; callback := 3%nat |}.

Definition maxAddress : JsonNamedConstantType :=
  {| const_name := "MAX"; const_type := "address"; const_value := "0x1" |}.

(** ** Properties of the decoders *)

Lemma withProp_getProp {B} (k : Value -> B) key props :
  withProp k key (VObj props) =
    match getProp key props with
    | Some v => PropFound (k v)
    | None => PropAbsent
    end.
Proof.
  cbn [withProp]. induction props as [|[n v] props IH]; [reflexivity|].
  cbn [getProp]. destruct (String.eqb n key); [reflexivity | exact IH].
Qed.

Lemma withProp_found_inv {B} (k : Value -> B) key data r :
  withProp k key data = PropFound r ->
  exists props v, data = VObj props /\ getProp key props = Some v /\ r = k v.
Proof.
  destruct data as [| | | | | |props| |]; try discriminate.
  rewrite withProp_getProp. destruct (getProp key props) as [v|] eqn:E; [|discriminate].
  intros H. simplify_eq. exists props, v. repeat split. exact E.
Qed.

Lemma getProp_setProp_eq key v props : getProp key (setProp key v props) = Some v.
Proof.
  induction props as [|[k w] props IH]; cbn.
  - rewrite String.eqb_refl. reflexivity.
  - destruct (String.eqb k key) eqn:E; cbn; rewrite E; [reflexivity | exact IH].
Qed.

Lemma getProp_setProp_ne key key' v props :
  key' <> key -> getProp key (setProp key' v props) = getProp key props.
Proof.
  intros Hne. induction props as [|[k w] props IH]; cbn.
  - apply String.eqb_neq in Hne. rewrite Hne. reflexivity.
  - destruct (String.eqb k key') eqn:E; cbn.
    + apply String.eqb_eq in E. subst k.
      apply String.eqb_neq in Hne. rewrite Hne. reflexivity.
    + destruct (String.eqb k key); [reflexivity | exact IH].
Qed.

Lemma hexDigit_hexChar n : 0 <= n < 16 -> hexDigit (hexChar n) = Some n.
Proof.
  intros H.
  assert (Hall : forallb (fun k => match hexDigit (hexChar (Z.of_nat k)) with
                                   | Some m => m =? Z.of_nat k
                                   | None => false
                                   end) (seq 0 16) = true) by reflexivity.
  rewrite forallb_forall in Hall.
  specialize (Hall (Z.to_nat n)). rewrite Z2Nat.id in Hall by lia.
  destruct (hexDigit (hexChar n)) as [m|].
  - f_equal. apply Z.eqb_eq, Hall, in_seq. lia.
  - discriminate Hall. apply in_seq. lia.
Qed.

Lemma hexDecode_hexEncode bytes :
  Forall (fun b => 0 <= b < 256) bytes -> hexDecode (hexEncode bytes) = bytes.
Proof.
  induction 1 as [|b bytes Hb _ IH]; [reflexivity|].
  cbn [hexEncode hexDecode].
  rewrite !hexDigit_hexChar.
  - rewrite IH. f_equal. pose proof (Z.div_mod b 16). lia.
  - apply Z.mod_pos_bound. lia.
  - split; [apply Z.div_pos; lia | apply Z.div_lt_upper_bound; lia].
Qed.

Lemma substring_all s : String.substring 0 (String.length s) s = s.
Proof. induction s as [|c s IH]; cbn; [reflexivity | rewrite IH; reflexivity]. Qed.

Lemma startsWith_0x s : startsWith ("0x" +:+ s) "0x" = true.
Proof. destruct s; reflexivity. Qed.

Lemma toUint8Array_of_hex bytes :
  Forall (fun b => 0 <= b < 256) bytes ->
  toUint8Array (HexString_new ("0x" +:+ hexEncode bytes)) = bytes.
Proof.
  intros H. unfold toUint8Array, noPrefix, HexString_new.
  rewrite startsWith_0x.
  change ("0x" +:+ hexEncode bytes) with (String "0" (String "x" (hexEncode bytes))).
  cbn [hexString String.length Nat.sub String.substring].
  rewrite Nat.sub_0_r, substring_all. apply hexDecode_hexEncode, H.
Qed.

Section DecoderProperties.

Variable getTypeTagParamlessName : TypeTag -> string.
Variable getTypeTagFullname : TypeTag -> string.
Variable bigInt : string -> res Z.

Local Abbreviation applyParser :=
  (applyParser getTypeTagParamlessName getTypeTagFullname bigInt).
Local Abbreviation VectorParser := (VectorParser getTypeTagParamlessName).
Local Abbreviation parseStructProto := (parseStructProto getTypeTagParamlessName).
Local Abbreviation parseField := (parseField getTypeTagParamlessName).
Local Abbreviation getParserFromTypeTag := (getParserFromTypeTag getTypeTagParamlessName).

(** The registered vector parser and the static parser of a struct are the
    bodies of the source, called on the same repo. *)
Lemma applyParser_VectorParser data typeTag repo :
  applyParser Fn_VectorParser data typeTag repo = VectorParser applyParser data typeTag repo.
Proof. destruct data; reflexivity. Qed.

Lemma applyParser_StructParser struct data typeTag repo :
  applyParser (Fn_StructParser struct) data typeTag repo =
    (proto <- parseStructProto applyParser data typeTag repo struct ;;
     Ok (construct struct proto typeTag))%result.
Proof. destruct data; reflexivity. Qed.


(** C7, as the code has it: after the three identity checks, a raw value
    whose [typeof] is not ["object"] (a text, a number, a boolean,
    [undefined]) is returned as it is when the tag is the text type of the
    library (short address [0x1], module [ASCII], name [String]), and is
    refused with an error for any other struct. *)
Theorem parseStructProto_non_object
    invoke data address module tagName typeParams repo struct :
  typeof data <> "object" ->
  hex address = hex (moduleAddress struct) ->
  module = moduleName struct ->
  tagName = name struct ->
  (toShortString address = "0x1" /\ module = "ASCII" /\ tagName = "String" ->
   parseStructProto invoke data (StructTag address module tagName typeParams) repo struct
   = Ok data) /\
  (~ (toShortString address = "0x1" /\ module = "ASCII" /\ tagName = "String") ->
   parseStructProto invoke data (StructTag address module tagName typeParams) repo struct
   = Throw (ExpectsObject (name struct) (typeof data))).
Proof.
  intros Hobj Haddr Hmod Hname. unfold parseStructProto.
  rewrite Haddr, String.eqb_refl, <- Hmod, String.eqb_refl, <- Hname, String.eqb_refl.
  cbn [negb]. apply String.eqb_neq in Hobj. rewrite Hobj. cbn [negb]. split.
  - intros (Ha & Hm & Hn). rewrite Ha, Hm, Hn. reflexivity.
  - intros Hnot.
    destruct (String.eqb (toShortString address) "0x1") eqn:Ea; [|reflexivity].
    destruct (String.eqb module "ASCII") eqn:Em; [|reflexivity].
    destruct (String.eqb tagName "String") eqn:En; [|reflexivity].
    exfalso. apply Hnot.
    apply String.eqb_eq in Ea, Em, En. repeat split; assumption.
Qed.

(** One turn of the field loop on an object that has the field. *)
Lemma parseField_found invoke props typeParams repo struct proto fieldDecl fieldValue :
  getProp (fd_name fieldDecl) props = Some fieldValue ->
  parseField invoke (VObj props) typeParams repo struct proto fieldDecl =
    match fieldTypeTagOf typeParams (fd_typeTag fieldDecl) with
    | None => Throw BadParamIdx
    | Some fieldTypeTag =>
        match getParserFromTypeTag repo fieldTypeTag with
        | None => Throw (NoFieldParser (fd_name fieldDecl) fieldTypeTag)
        | Some parser =>
            (parsedValue <- invoke parser fieldValue fieldTypeTag repo ;;
             Ok (setProp (fd_name fieldDecl) parsedValue proto))%result
        end
    end.
Proof.
  intros Hprop. unfold parseField. rewrite withProp_getProp, Hprop. reflexivity.
Qed.

Lemma parseField_Ok_inv invoke data typeParams repo struct proto fieldDecl proto' :
  parseField invoke data typeParams repo struct proto fieldDecl = Ok proto' ->
  exists props fieldValue fieldTypeTag parser parsedValue,
    data = VObj props /\
    getProp (fd_name fieldDecl) props = Some fieldValue /\
    fieldTypeTagOf typeParams (fd_typeTag fieldDecl) = Some fieldTypeTag /\
    getParserFromTypeTag repo fieldTypeTag = Some parser /\
    invoke parser fieldValue fieldTypeTag repo = Ok parsedValue /\
    proto' = setProp (fd_name fieldDecl) parsedValue proto.
Proof.
  unfold parseField. intros H.
  match type of H with
  | match ?w with _ => _ end = _ => destruct w as [| |r] eqn:Hw; try discriminate
  end.
  apply withProp_found_inv in Hw as (props & fieldValue & -> & Hprop & ->).
  destruct (fieldTypeTagOf typeParams (fd_typeTag fieldDecl)) as [fieldTypeTag|] eqn:Htag;
    [|discriminate].
  destruct (getParserFromTypeTag repo fieldTypeTag) as [parser|] eqn:Hparser;
    [|discriminate].
  destruct (invoke parser fieldValue fieldTypeTag repo) as [parsedValue|e] eqn:Hinvoke;
    [|discriminate].
  cbn [bindR] in H. simplify_eq.
  exists props, fieldValue, fieldTypeTag, parser, parsedValue.
  repeat split; first [assumption | reflexivity].
Qed.

(** The fields after a name do not touch the property of that name. *)
Lemma fields_keep_other_properties invoke data typeParams repo struct fieldDecls proto out key :
  foldR (parseField invoke data typeParams repo struct) fieldDecls proto = Ok out ->
  ~ In key (map fd_name fieldDecls) ->
  getProp key out = getProp key proto.
Proof.
  revert proto. induction fieldDecls as [|d ds IH]; intros proto Hrun Hnot.
  - cbn in Hrun. simplify_eq. reflexivity.
  - cbn [foldR] in Hrun.
    destruct (parseField invoke data typeParams repo struct proto d) as [proto'|e] eqn:Hd;
      [|discriminate].
    apply parseField_Ok_inv in Hd as (props & v & t & parser & parsedValue & Hrest).
    destruct Hrest as (_ & _ & _ & _ & _ & ->).
    rewrite (IH _ Hrun).
    + apply getProp_setProp_ne. intros Heq. apply Hnot. left. exact Heq.
    + intros Hin. apply Hnot. right. exact Hin.
Qed.

Lemma fields_decoded_with_resolved_types
    invoke data typeParams repo struct fieldDecls proto out fieldDecl :
  foldR (parseField invoke data typeParams repo struct) fieldDecls proto = Ok out ->
  In fieldDecl fieldDecls ->
  exists props fieldValue fieldTypeTag parser parsedValue,
    data = VObj props /\
    getProp (fd_name fieldDecl) props = Some fieldValue /\
    fieldTypeTagOf typeParams (fd_typeTag fieldDecl) = Some fieldTypeTag /\
    getParserFromTypeTag repo fieldTypeTag = Some parser /\
    invoke parser fieldValue fieldTypeTag repo = Ok parsedValue /\
    (NoDup (map fd_name fieldDecls) -> getProp (fd_name fieldDecl) out = Some parsedValue).
Proof.
  revert proto. induction fieldDecls as [|d ds IH]; intros proto Hrun Hin; [destruct Hin|].
  cbn [foldR] in Hrun.
  destruct (parseField invoke data typeParams repo struct proto d) as [proto'|e] eqn:Hd;
    [|discriminate].
  destruct Hin as [->|Hin].
  - apply parseField_Ok_inv in Hd
      as (props & fieldValue & fieldTypeTag & parser & parsedValue
          & -> & Hprop & Htag & Hparser & Hinvoke & ->).
    exists props, fieldValue, fieldTypeTag, parser, parsedValue.
    repeat split; try assumption.
    intros Hnodup. cbn [map] in Hnodup. apply NoDup_cons in Hnodup as [Hfresh _].
    rewrite (fields_keep_other_properties _ _ _ _ _ _ _ _ _ Hrun).
    + apply getProp_setProp_eq.
    + rewrite <- list_elem_of_In. exact Hfresh.
  - destruct (IH _ Hrun Hin)
      as (props & fieldValue & fieldTypeTag & parser & parsedValue
          & -> & Hprop & Htag & Hparser & Hinvoke & Hout).
    exists props, fieldValue, fieldTypeTag, parser, parsedValue.
    repeat split; try assumption.
    intros Hnodup. apply Hout. cbn [map] in Hnodup. apply NoDup_cons in Hnodup as [_ H].
    exact H.
Qed.

Lemma fieldTypeTagOf_resolved typeParams fieldDecl fieldTypeTag :
  match fd_typeTag fieldDecl with
  | TypeParamIdx index => typeParams !! index = Some fieldTypeTag
  | declared => fieldTypeTag = declared
  end <->
  fieldTypeTagOf typeParams (fd_typeTag fieldDecl) = Some fieldTypeTag.
Proof. unfold fieldTypeTagOf. destruct (fd_typeTag fieldDecl); split; congruence. Qed.

(** A property that the object does not have yet goes last. *)
Lemma setProp_fresh key v props :
  ~ In key (map fst props) -> setProp key v props = (props ++ [(key, v)])%list.
Proof.
  induction props as [|[k w] props IH]; intros Hfresh; [reflexivity|].
  cbn [setProp]. destruct (String.eqb_spec k key) as [->|Hne].
  - exfalso. apply Hfresh. left. reflexivity.
  - cbn [app]. rewrite IH; [reflexivity|]. intros Hin. apply Hfresh. right. exact Hin.
Qed.

Lemma foldR_app {E A B} (f : B -> A -> result E B) xs ys acc :
  foldR f (xs ++ ys) acc =
    match foldR f xs acc with
    | Ok acc' => foldR f ys acc'
    | Throw e => Throw e
    end.
Proof.
  revert acc. induction xs as [|x xs IH]; intros acc; [reflexivity|].
  cbn [app foldR]. destruct (f acc x) as [acc'|e]; [apply IH | reflexivity].
Qed.

(** The field loop on an object whose declared fields all decode: the
    values are stored under the field names, in the order of declaration. *)
Lemma fields_all_decoded invoke props typeParams repo struct fieldDecls values proto :
  NoDup (map fst proto ++ map fd_name fieldDecls) ->
  Forall2 (fun fieldDecl parsedValue =>
             exists fieldValue fieldTypeTag parser,
               getProp (fd_name fieldDecl) props = Some fieldValue /\
               fieldTypeTagOf typeParams (fd_typeTag fieldDecl) = Some fieldTypeTag /\
               getParserFromTypeTag repo fieldTypeTag = Some parser /\
               invoke parser fieldValue fieldTypeTag repo = Ok parsedValue)
          fieldDecls values ->
  foldR (parseField invoke (VObj props) typeParams repo struct) fieldDecls proto
  = Ok (proto ++ combine (map fd_name fieldDecls) values)%list.
Proof.
  intros Hnodup Hall. revert proto Hnodup.
  induction Hall as [|d v ds vs (fieldValue & fieldTypeTag & parser & Hprop & Htag & Hparser & Hrun)
                      _ IH]; intros proto Hnodup.
  - cbn. rewrite app_nil_r. reflexivity.
  - cbn [foldR map combine].
    rewrite (parseField_found _ _ _ _ _ _ _ _ Hprop), Htag, Hparser, Hrun. cbn [bindR].
    cbn [map] in Hnodup. apply NoDup_app in Hnodup as (Hproto & Hfresh & Hrest).
    apply NoDup_cons in Hrest as [Hd Hds].
    rewrite setProp_fresh.
    + rewrite IH.
      * rewrite <- app_assoc. reflexivity.
      * rewrite map_app. cbn [map fst]. apply NoDup_app. split; [|split].
        -- apply NoDup_app. split; [exact Hproto|]. split; [|apply NoDup_singleton].
           intros x Hx Hx'. apply list_elem_of_singleton in Hx'. subst x.
           apply (Hfresh _ Hx). left.
        -- intros x Hx Hx'. apply elem_of_app in Hx as [Hx|Hx].
           ++ apply (Hfresh _ Hx). right. exact Hx'.
           ++ apply list_elem_of_singleton in Hx. subst x. exact (Hd Hx').
        -- exact Hds.
    + intros Hin. apply list_elem_of_In in Hin. apply (Hfresh _ Hin). left.
Qed.

(** The field loop over fields that decode does not throw. *)
Lemma fields_decoded_go_on invoke props typeParams repo struct fieldDecls :
  Forall (fun fieldDecl =>
            exists fieldValue fieldTypeTag parser parsedValue,
              getProp (fd_name fieldDecl) props = Some fieldValue /\
              fieldTypeTagOf typeParams (fd_typeTag fieldDecl) = Some fieldTypeTag /\
              getParserFromTypeTag repo fieldTypeTag = Some parser /\
              invoke parser fieldValue fieldTypeTag repo = Ok parsedValue)
         fieldDecls ->
  forall proto,
    exists proto',
      foldR (parseField invoke (VObj props) typeParams repo struct) fieldDecls proto = Ok proto'.
Proof.
  induction 1 as [|d ds (fieldValue & fieldTypeTag & parser & parsedValue
                          & Hprop & Htag & Hparser & Hrun) _ IH]; intros proto.
  - exists proto. reflexivity.
  - cbn [foldR].
    rewrite (parseField_found _ _ _ _ _ _ _ _ Hprop), Htag, Hparser, Hrun. cbn [bindR].
    apply IH.
Qed.

(** The whole call on an object, under a tag that passes the identity
    checks, is the field loop. *)
Lemma parseStructProto_on_object invoke props address typeParams repo struct :
  hex address = hex (moduleAddress struct) ->
  parseStructProto invoke (VObj props)
    (StructTag address (moduleName struct) (name struct) typeParams) repo struct =
    (proto <- foldR (parseField invoke (VObj props) typeParams repo struct) (fields struct) [] ;;
     Ok (VObj proto))%result.
Proof.
  intros Haddr. unfold parseStructProto. rewrite Haddr, !String.eqb_refl. reflexivity.
Qed.

(** C2: [parseStructProto] decodes a field with the parser that the repo
    holds for the field's resolved type, called with that type: the type
    argument [typeParams[i]] for a field declared [TypeParamIdx(i)], the
    declared type itself for any other field.  The first part is one turn of
    the field loop, with the errors it can end in.  The second part is the
    whole call on an object, under a tag that passes the identity checks:
    when every declared field is a property of the object and the parser of
    its resolved type decodes its raw value, the call returns the object of
    the decoded values under the field names.  The third part is the field
    that does not decode: after fields that decode, the call throws when the
    repo holds no parser for the field's resolved type, and throws the error
    of that parser when it throws on the field's raw value.  The fourth part
    is the converse for a call that returned: a declared field that is a
    property of the object was decoded by the parser of its resolved type,
    and with distinct field names the result holds that value. *)
Theorem parseStructProto_decodes_fields_with_resolved_types :
  (forall props typeParams repo struct proto fieldDecl fieldValue fieldTypeTag,
     getProp (fd_name fieldDecl) props = Some fieldValue ->
     match fd_typeTag fieldDecl with
     | TypeParamIdx index => typeParams !! index = Some fieldTypeTag
     | declared => fieldTypeTag = declared
     end ->
     parseField applyParser (VObj props) typeParams repo struct proto fieldDecl =
       match paramlessNameToParser repo !! getTypeTagParamlessName fieldTypeTag with
       | None => Throw (NoFieldParser (fd_name fieldDecl) fieldTypeTag)
       | Some parser =>
           (parsedValue <- applyParser parser fieldValue fieldTypeTag repo ;;
            Ok (setProp (fd_name fieldDecl) parsedValue proto))%result
       end) /\
  (forall props address typeParams repo struct values,
     hex address = hex (moduleAddress struct) ->
     NoDup (map fd_name (fields struct)) ->
     Forall2 (fun fieldDecl parsedValue =>
                exists fieldValue fieldTypeTag parser,
                  getProp (fd_name fieldDecl) props = Some fieldValue /\
                  match fd_typeTag fieldDecl with
                  | TypeParamIdx index => typeParams !! index = Some fieldTypeTag
                  | declared => fieldTypeTag = declared
                  end /\
                  paramlessNameToParser repo !! getTypeTagParamlessName fieldTypeTag
                  = Some parser /\
                  applyParser parser fieldValue fieldTypeTag repo = Ok parsedValue)
             (fields struct) values ->
     parseStructProto applyParser (VObj props)
       (StructTag address (moduleName struct) (name struct) typeParams) repo struct
     = Ok (VObj (combine (map fd_name (fields struct)) values))) /\
  (forall props address typeParams repo struct before fieldDecl later fieldValue fieldTypeTag,
     hex address = hex (moduleAddress struct) ->
     fields struct = (before ++ fieldDecl :: later)%list ->
     Forall (fun earlier =>
               exists earlierValue earlierTypeTag parser parsedValue,
                 getProp (fd_name earlier) props = Some earlierValue /\
                 match fd_typeTag earlier with
                 | TypeParamIdx index => typeParams !! index = Some earlierTypeTag
                 | declared => earlierTypeTag = declared
                 end /\
                 paramlessNameToParser repo !! getTypeTagParamlessName earlierTypeTag
                 = Some parser /\
                 applyParser parser earlierValue earlierTypeTag repo = Ok parsedValue)
            before ->
     getProp (fd_name fieldDecl) props = Some fieldValue ->
     match fd_typeTag fieldDecl with
     | TypeParamIdx index => typeParams !! index = Some fieldTypeTag
     | declared => fieldTypeTag = declared
     end ->
     let run :=
       parseStructProto applyParser (VObj props)
         (StructTag address (moduleName struct) (name struct) typeParams) repo struct in
     (paramlessNameToParser repo !! getTypeTagParamlessName fieldTypeTag = None ->
      run = Throw (NoFieldParser (fd_name fieldDecl) fieldTypeTag)) /\
     (forall parser e,
        paramlessNameToParser repo !! getTypeTagParamlessName fieldTypeTag = Some parser ->
        applyParser parser fieldValue fieldTypeTag repo = Throw e ->
        run = Throw e)) /\
  (forall props address module tagName typeParams repo struct out fieldDecl fieldValue,
     parseStructProto applyParser (VObj props) (StructTag address module tagName typeParams)
       repo struct
     = Ok out ->
     In fieldDecl (fields struct) ->
     getProp (fd_name fieldDecl) props = Some fieldValue ->
     exists proto fieldTypeTag parser parsedValue,
       out = VObj proto /\
       match fd_typeTag fieldDecl with
       | TypeParamIdx index => typeParams !! index = Some fieldTypeTag
       | declared => fieldTypeTag = declared
       end /\
       paramlessNameToParser repo !! getTypeTagParamlessName fieldTypeTag = Some parser /\
       applyParser parser fieldValue fieldTypeTag repo = Ok parsedValue /\
       (NoDup (map fd_name (fields struct)) ->
        getProp (fd_name fieldDecl) proto = Some parsedValue)).
Proof.
  split; [|split; [|split]].
  - intros props typeParams repo struct proto fieldDecl fieldValue fieldTypeTag Hprop Htag.
    rewrite (parseField_found _ _ _ _ _ _ _ _ Hprop).
    apply fieldTypeTagOf_resolved in Htag. rewrite Htag. reflexivity.
  - intros props address typeParams repo struct values Haddr Hnodup Hall.
    rewrite (parseStructProto_on_object _ _ _ _ _ _ Haddr).
    rewrite (fields_all_decoded applyParser props typeParams repo struct
               (fields struct) values []).
    + reflexivity.
    + exact Hnodup.
    + apply (Forall2_impl _ _ _ _ Hall).
      intros d v (fieldValue & fieldTypeTag & parser & Hprop & Htag & Hparser & Hrun).
      exists fieldValue, fieldTypeTag, parser.
      apply fieldTypeTagOf_resolved in Htag. repeat split; assumption.
  - intros props address typeParams repo struct before fieldDecl later fieldValue fieldTypeTag
           Haddr Hfields Hbefore Hprop Htag run.
    assert (Hgo : exists proto,
               foldR (parseField applyParser (VObj props) typeParams repo struct) before []
               = Ok proto).
    { apply fields_decoded_go_on.
      apply (Forall_impl _ _ _ Hbefore).
      intros d (v & t & parser & parsedValue & Hp & Ht & Hparser & Hrun).
      exists v, t, parser, parsedValue.
      apply fieldTypeTagOf_resolved in Ht. repeat split; assumption. }
    destruct Hgo as [proto Hgo].
    apply fieldTypeTagOf_resolved in Htag.
    assert (Hrun : run =
              match paramlessNameToParser repo !! getTypeTagParamlessName fieldTypeTag with
              | None => Throw (NoFieldParser (fd_name fieldDecl) fieldTypeTag)
              | Some parser =>
                  (parsedValue <- applyParser parser fieldValue fieldTypeTag repo ;;
                   proto' <- foldR (parseField applyParser (VObj props) typeParams repo struct)
                               later (setProp (fd_name fieldDecl) parsedValue proto) ;;
                   Ok (VObj proto'))%result
              end).
    { subst run. rewrite (parseStructProto_on_object _ _ _ _ _ _ Haddr).
      rewrite Hfields, foldR_app, Hgo. cbn [foldR].
      rewrite (parseField_found _ _ _ _ _ _ _ _ Hprop), Htag.
      unfold getParserFromTypeTag, getParserFromParamlessName.
      destruct (paramlessNameToParser repo !! getTypeTagParamlessName fieldTypeTag)
        as [parser|]; [|reflexivity].
      destruct (applyParser parser fieldValue fieldTypeTag repo); reflexivity. }
    rewrite Hrun. split.
    + intros ->. reflexivity.
    + intros parser e -> ->. reflexivity.
  - intros props address module tagName typeParams repo struct out fieldDecl fieldValue
           Hrun Hin Hprop.
    unfold parseStructProto in Hrun.
    destruct (negb (String.eqb (hex address) (hex (moduleAddress struct)))); [discriminate|].
    destruct (negb (String.eqb module (moduleName struct))); [discriminate|].
    destruct (negb (String.eqb tagName (name struct))); [discriminate|].
    change (negb (String.eqb (typeof (VObj props)) "object")) with false in Hrun.
    destruct (foldR (parseField applyParser (VObj props) typeParams repo struct)
                (fields struct) [])
      as [proto|e] eqn:Hfields; [|discriminate].
    cbn [bindR] in Hrun.
    destruct (fields_decoded_with_resolved_types _ _ _ _ _ _ _ _ _ Hfields Hin)
      as (props' & fieldValue' & fieldTypeTag & parser & parsedValue
          & Hdata & Hprop' & Htag & Hparser & Hinvoke & Hout).
    simplify_eq.
    exists proto, fieldTypeTag, parser, parsedValue.
    split; [reflexivity|]. split; [apply fieldTypeTagOf_resolved, Htag|].
    split; [exact Hparser|]. split; [exact Hinvoke | exact Hout].
Qed.

End DecoderProperties.

(** ** Properties of the cache *)

Lemma after_nil {A} (o : Outcome A) : after [] o = o.
Proof. destruct o; reflexivity. Qed.

Lemma after_after {A} ev1 ev2 (o : Outcome A) :
  after ev1 (after ev2 o) = after (ev1 ++ ev2) o.
Proof. unfold after; cbn. rewrite app_assoc. reflexivity. Qed.

Lemma bind_run {A B} (m : M A) (k : A -> M B) this a s ev :
  m this = {| returned := Ok a; final := s; emitted := ev |} ->
  bind m k this = after ev (k a s).
Proof. intros H. unfold bind, after. rewrite H. reflexivity. Qed.

Lemma bind_throw {A B} (m : M A) (k : A -> M B) this e s ev :
  m this = {| returned := Throw e; final := s; emitted := ev |} ->
  bind m k this = {| returned := Throw e; final := s; emitted := ev |}.
Proof. intros H. unfold bind. rewrite H. reflexivity. Qed.

Lemma bind_ret {A B} (a : A) (k : A -> M B) this : bind (ret a) k this = k a this.
Proof. rewrite (bind_run _ _ this a this []) by reflexivity. apply after_nil. Qed.

Lemma bind_getThis {B} (k : AptosResourceCache -> M B) this :
  bind getThis k this = k this this.
Proof. rewrite (bind_run _ _ this this this []) by reflexivity. apply after_nil. Qed.

Lemma bind_modify {B} f (k : unit -> M B) this : bind (modify f) k this = k tt (f this).
Proof. rewrite (bind_run _ _ this tt (f this) []) by reflexivity. apply after_nil. Qed.

Lemma bind_emit {B} e (k : unit -> M B) this : bind (emit e) k this = after [e] (k tt this).
Proof. apply bind_run. reflexivity. Qed.

Lemma bind_liftR_Ok {A B} (r : res A) (a : A) (k : A -> M B) this :
  r = Ok a -> bind (liftR r) k this = k a this.
Proof. intros ->. apply bind_ret. Qed.

Lemma bind_liftR_Throw {A B} (r : res A) e (k : A -> M B) this :
  r = Throw e -> bind (liftR r) k this = {| returned := Throw e; final := this; emitted := [] |}.
Proof. intros ->. reflexivity. Qed.

Lemma forEach_emit {A} (f : A -> Event) (xs : list A) this :
  forEach xs (fun x => emit (f x)) this =
    {| returned := Ok tt; final := this; emitted := map f xs |}.
Proof.
  induction xs as [|x xs IH]; [reflexivity|].
  cbn [forEach]. rewrite bind_emit, IH. reflexivity.
Qed.

Lemma forEach_app_Ok {A} (xs ys : list A) (body : A -> M unit) this s ev :
  forEach xs body this = {| returned := Ok tt; final := s; emitted := ev |} ->
  forEach (xs ++ ys) body this = after ev (forEach ys body s).
Proof.
  revert this ev. induction xs as [|x xs IH]; intros this ev Hrun.
  - cbv [forEach ret] in Hrun. simplify_eq. cbn [app]. symmetry. apply after_nil.
  - cbn [forEach app] in *.
    destruct (body x this) as [[[]|e] s1 ev1] eqn:Hx.
    + rewrite (bind_run _ _ _ _ _ _ Hx) in Hrun.
      rewrite (bind_run _ _ _ _ _ _ Hx).
      destruct (forEach xs body s1) as [r2 s2 ev2] eqn:Hxs.
      unfold after in Hrun. cbn in Hrun. simplify_eq.
      rewrite (IH _ _ Hxs). apply after_after.
    + rewrite (bind_throw _ _ _ _ _ _ Hx) in Hrun. discriminate.
Qed.

Lemma forEach_cons {A} (x : A) (xs : list A) (body : A -> M unit) this :
  forEach (x :: xs) body this = bind (body x) (fun _ => forEach xs body) this.
Proof. reflexivity. Qed.

Lemma final_after {A} ev (o : Outcome A) : final (after ev o) = final o.
Proof. reflexivity. Qed.

Lemma tryCatch_Ok {A} (body : M A) handler this a s ev :
  body this = {| returned := Ok a; final := s; emitted := ev |} ->
  tryCatch body handler this = {| returned := Ok a; final := s; emitted := ev |}.
Proof. intros H. unfold tryCatch. rewrite H. reflexivity. Qed.

Lemma tryCatch_Throw {A} (body : M A) handler this e s ev :
  body this = {| returned := Throw e; final := s; emitted := ev |} ->
  tryCatch body handler this = after ev (handler e s).
Proof. intros H. unfold tryCatch. rewrite H. reflexivity. Qed.

Lemma foldM_cons {A B} (body : B -> A -> M B) x xs acc this :
  foldM body (x :: xs) acc this = bind (body acc x) (fun acc' => foldM body xs acc') this.
Proof. reflexivity. Qed.

Lemma foldM_app_Ok {A B} (body : B -> A -> M B) xs ys acc this acc' s ev :
  foldM body xs acc this = {| returned := Ok acc'; final := s; emitted := ev |} ->
  foldM body (xs ++ ys) acc this = after ev (foldM body ys acc' s).
Proof.
  revert acc this ev. induction xs as [|x xs IH]; intros acc this ev Hrun.
  - cbv [foldM ret] in Hrun. simplify_eq. cbn [app]. symmetry. apply after_nil.
  - cbn [app]. rewrite foldM_cons in Hrun. rewrite foldM_cons.
    destruct (body acc x this) as [[acc1|e] s1 ev1] eqn:Hx.
    + rewrite (bind_run _ _ _ _ _ _ Hx) in Hrun.
      rewrite (bind_run _ _ _ _ _ _ Hx).
      destruct (foldM body xs acc1 s1) as [r2 s2 ev2] eqn:Hxs.
      unfold after in Hrun. cbn in Hrun. simplify_eq.
      rewrite (IH _ _ _ Hxs). apply after_after.
    + rewrite (bind_throw _ _ _ _ _ _ Hx) in Hrun. discriminate.
Qed.

Lemma mapR_app_Ok {E A B} (f : A -> result E B) xs ys zs :
  mapR f (xs ++ ys) = Ok zs ->
  exists zs1 zs2, mapR f xs = Ok zs1 /\ mapR f ys = Ok zs2 /\ zs = (zs1 ++ zs2)%list.
Proof.
  revert zs. induction xs as [|x xs IH]; intros zs H.
  - exists [], zs. repeat split. exact H.
  - cbn in H. destruct (f x) as [y|e] eqn:Hx; [|discriminate].
    destruct (mapR f (xs ++ ys)) as [zs'|e] eqn:Hrest; [|discriminate].
    simplify_eq. destruct (IH _ eq_refl) as (zs1 & zs2 & H1 & H2 & ->).
    exists (y :: zs1), zs2. cbn. rewrite Hx, H1. repeat split. exact H2.
Qed.

Lemma mapR_length {E A B} (f : A -> result E B) xs zs :
  mapR f xs = Ok zs -> length zs = length xs.
Proof.
  revert zs. induction xs as [|x xs IH]; intros zs H.
  - cbn in H. simplify_eq. reflexivity.
  - cbn in H. destruct (f x) as [y|e]; [|discriminate].
    destruct (mapR f xs) as [zs'|e]; [|discriminate].
    simplify_eq. cbn. f_equal. apply IH. reflexivity.
Qed.

Lemma insertAll_app d1 d2 m : insertAll (d1 ++ d2) m = insertAll d2 (insertAll d1 m).
Proof. unfold insertAll. apply fold_left_app. Qed.

Lemma insertAll_cached entries m k :
  In k (map fst entries) -> is_Some (insertAll entries m !! k).
Proof.
  revert m. induction entries as [|[k' v] entries IH]; intros m Hin; [destruct Hin|].
  cbn in Hin. cbn [insertAll fold_left fst snd].
  destruct (in_dec string_dec k (map fst entries)) as [Hlater|Hnot].
  - apply IH, Hlater.
  - destruct Hin as [->|Hin]; [|contradiction].
    assert (Hkeep : forall es m', ~ In k (map fst es) -> is_Some (m' !! k) ->
                                  is_Some (insertAll es m' !! k)).
    { clear. induction es as [|[k2 v2] es IHes]; intros m' Hn Hs; [exact Hs|].
      cbn [insertAll fold_left fst snd]. apply IHes.
      - intros Hk. apply Hn. right. exact Hk.
      - rewrite lookup_insert_ne; [exact Hs|]. intros ->. apply Hn. left. reflexivity. }
    apply Hkeep; [exact Hnot|]. rewrite lookup_insert_eq. eexists; reflexivity.
Qed.

Lemma Set_add_In x set : In x (Set_add x set).
Proof.
  unfold Set_add. destruct (existsb (HexString_eqb x) set) eqn:E.
  - apply existsb_exists in E as (y & Hy & Heq).
    unfold HexString_eqb in Heq. apply String.eqb_eq in Heq.
    destruct x, y; cbn in Heq; subst. exact Hy.
  - apply in_or_app. right. left. reflexivity.
Qed.

Section CacheProperties.

Variable getTypeTagParamlessName : TypeTag -> string.
Variable getTypeTagFullname : TypeTag -> string.
Variable bigInt : string -> res Z.
Variable parseTypeTagOrThrow : string -> res TypeTag.

Local Abbreviation getResourceKey := (getResourceKey getTypeTagFullname).
Local Abbreviation loadResource := (loadResource getTypeTagParamlessName getTypeTagFullname bigInt).
Local Abbreviation parse := (parse getTypeTagParamlessName getTypeTagFullname bigInt).
Local Abbreviation load := (load getTypeTagParamlessName getTypeTagFullname bigInt).
Local Abbreviation loadAccount :=
  (loadAccount getTypeTagParamlessName getTypeTagFullname bigInt parseTypeTagOrThrow).
Local Abbreviation loadAccount_resource :=
  (loadAccount_resource getTypeTagParamlessName getTypeTagFullname bigInt parseTypeTagOrThrow).
Local Abbreviation applyChange :=
  (applyChange getTypeTagParamlessName getTypeTagFullname bigInt parseTypeTagOrThrow).
Local Abbreviation updateFromTransactionResult :=
  (updateFromTransactionResult getTypeTagParamlessName getTypeTagFullname bigInt
     parseTypeTagOrThrow).
Local Abbreviation decodeEntry :=
  (decodeEntry getTypeTagParamlessName getTypeTagFullname bigInt parseTypeTagOrThrow).

Lemma updateResource_run key value this :
  updateResource key value this =
    {| returned := Ok tt;
       final := set_cachedResources <[key := value]> this;
       emitted := notifications type_update value (listenersOf this key) |}.
Proof.
  unfold updateResource. rewrite bind_modify, bind_getThis.
  unfold listenersOf, notifications. cbn [updateListener set_cachedResources].
  destruct (updateListener this !! key) as [ls|]; [apply forEach_emit | reflexivity].
Qed.

Lemma deleteResource_run key this :
  deleteResource key this =
    {| returned := Ok tt;
       final := set_cachedResources (delete key) this;
       emitted := notifications type_delete VNull (listenersOf this key) |}.
Proof.
  unfold deleteResource. rewrite bind_modify, bind_getThis.
  unfold listenersOf, notifications. cbn [updateListener set_cachedResources].
  destruct (updateListener this !! key) as [ls|]; [apply forEach_emit | reflexivity].
Qed.

Lemma upsert_run key value this :
  upsert key value this =
    {| returned := Ok tt;
       final := set_cachedResources <[key := value]> this;
       emitted := if has_key (cachedResources this) key
                  then notifications type_update value (listenersOf this key)
                  else [] |}.
Proof.
  unfold upsert. rewrite bind_getThis.
  destruct (has_key (cachedResources this) key); [apply updateResource_run | reflexivity].
Qed.

Lemma addListenerForResource_run key listener this :
  addListenerForResource key listener this =
    {| returned := Ok tt;
       final := if existsb (sameId listener) (listenersOf this key) then this
                else set_updateListener
                       <[key := (listenersOf this key ++ [listener])%list]> this;
       emitted := [] |}.
Proof.
  unfold addListenerForResource. rewrite bind_getThis.
  unfold listenersOf, has_key.
  destruct (updateListener this !! key) as [ls|] eqn:E; cbn [negb].
  - rewrite bind_ret, bind_getThis, E. cbn [default from_option Datatypes.id].
    fold (sameId listener).
    destruct (existsb (sameId listener) ls); reflexivity.
  - rewrite bind_modify, bind_getThis. cbn [set_updateListener updateListener].
    rewrite lookup_insert_eq. cbn. unfold set_updateListener, modify. cbn.
    rewrite insert_insert_eq. reflexivity.
Qed.

Lemma registration_run key listener this :
  match listener with
  | Some l => addListenerForResource key l
  | None => ret tt
  end this
  = {| returned := Ok tt; final := withListener key listener this; emitted := [] |}.
Proof.
  destruct listener as [l|]; [|reflexivity].
  rewrite addListenerForResource_run. reflexivity.
Qed.

Lemma load_run struct address typeParams listener this loaded :
  loadResource (repo this) (client this) address struct typeParams = Ok loaded ->
  let key :=
    getResourceKey address
      (StructTag (moduleAddress struct) (moduleName struct) (structName struct) typeParams) in
  load struct address typeParams listener this =
    {| returned := Ok loaded;
       final := afterLoad getTypeTagFullname struct address typeParams listener loaded this;
       emitted := if has_key (cachedResources this) key
                  then notifications type_update loaded (listenersOf this key)
                  else [] |}.
Proof.
  intros Hload key. unfold load, afterLoad. fold key.
  rewrite bind_getThis, (bind_liftR_Ok _ _ _ _ Hload).
  rewrite (bind_run _ _ _ _ _ _ (upsert_run _ _ _)), bind_modify.
  rewrite (bind_run _ _ _ _ _ _ (registration_run _ _ _)).
  unfold after, ret. cbn [returned final emitted]. rewrite !app_nil_r. reflexivity.
Qed.

Lemma load_throw struct address typeParams listener this e :
  loadResource (repo this) (client this) address struct typeParams = Throw e ->
  load struct address typeParams listener this =
    {| returned := Throw e; final := this; emitted := [] |}.
Proof.
  intros Hload. unfold load. rewrite bind_getThis.
  apply bind_liftR_Throw, Hload.
Qed.

(** C1: a transaction that did not succeed, or whose hash is the null
    hash ['0x0'], leaves the whole cache object as it was and calls no
    listener; so a call that changed the cache or emitted an event was
    given a successful transaction with another hash. *)
Theorem updateFromTransactionResult_applies_only_on_success txn this :
  (success txn = false \/ hash txn = "0x0" ->
   updateFromTransactionResult txn this =
     {| returned := Ok tt; final := this; emitted := [] |}) /\
  (updateFromTransactionResult txn this <>
     {| returned := Ok tt; final := this; emitted := [] |} ->
   success txn = true /\ hash txn <> "0x0").
Proof.
  assert (Hgate : success txn = false \/ hash txn = "0x0" ->
                  updateFromTransactionResult txn this =
                    {| returned := Ok tt; final := this; emitted := [] |}).
  { intros [Hs | Hh]; unfold updateFromTransactionResult.
    - rewrite Hs. reflexivity.
    - rewrite Hh. cbn. rewrite andb_false_r. reflexivity. }
  split; [exact Hgate|].
  intros Hchanged. split.
  - destruct (success txn) eqn:Hs; [reflexivity|].
    exfalso. apply Hchanged, Hgate. left; reflexivity.
  - intros Hh. apply Hchanged, Hgate. right; exact Hh.
Qed.

(** C3: a [load] that obtained a decoded value stores it under the key;
    when the key was not cached no listener is called, and when the key
    was cached every listener registered for the key is called once with
    ['update'] and the new value, and nothing else is called. *)
Theorem load_inserts_silently_and_notifies_on_update
    struct address typeParams listener this loaded :
  loadResource (repo this) (client this) address struct typeParams = Ok loaded ->
  let key :=
    getResourceKey address
      (StructTag (moduleAddress struct) (moduleName struct) (structName struct) typeParams) in
  let o := load struct address typeParams listener this in
  returned o = Ok loaded /\
  cachedResources (final o) = <[key := loaded]> (cachedResources this) /\
  (cachedResources this !! key = None -> emitted o = []) /\
  (is_Some (cachedResources this !! key) ->
   emitted o = map (fun l => Called l type_update loaded) (listenersOf this key)).
Proof.
  intros Hload key o. subst o. rewrite (load_run _ _ _ _ _ _ Hload). fold key.
  cbn [returned final emitted]. repeat split.
  - unfold afterLoad, withListener. fold key. destruct listener as [l|]; [|reflexivity].
    match goal with |- context [existsb ?f ?ls] => destruct (existsb f ls) end;
      reflexivity.
  - intros Hnone. unfold has_key. rewrite Hnone. reflexivity.
  - intros [old Hold]. unfold has_key. rewrite Hold. reflexivity.
Qed.

(** C8: registering a listener whose [id] is the [id] of a listener
    already registered for the key changes nothing; any other registration
    puts the listener after the ones registered before; and an update or a
    delete notification calls the listeners of the key in the order of
    that list, each once. *)
Theorem listeners_deduplicated_and_notified_in_order key listener this :
  (existsb (sameId listener) (listenersOf this key) = true ->
   addListenerForResource key listener this =
     {| returned := Ok tt; final := this; emitted := [] |}) /\
  (existsb (sameId listener) (listenersOf this key) = false ->
   listenersOf (final (addListenerForResource key listener this)) key
   = (listenersOf this key ++ [listener])%list) /\
  (forall value,
     emitted (updateResource key value this)
     = map (fun l => Called l type_update value) (listenersOf this key)) /\
  emitted (deleteResource key this)
  = map (fun l => Called l type_delete VNull) (listenersOf this key).
Proof.
  rewrite addListenerForResource_run. repeat split.
  - intros ->. reflexivity.
  - intros ->. cbn [final]. unfold listenersOf at 1. cbn [updateListener set_updateListener].
    rewrite lookup_insert_eq. reflexivity.
  - intros value. rewrite updateResource_run. reflexivity.
  - rewrite deleteResource_run. reflexivity.
Qed.

(** C10: when [loadResource] throws (the type arguments do not fit, the
    network request fails, or the struct does not decode), [load] throws
    the same error, the cache object is the one before the call, and no
    listener was called. *)
Theorem load_failure_leaves_cache_unchanged struct address typeParams listener this e :
  loadResource (repo this) (client this) address struct typeParams = Throw e ->
  load struct address typeParams listener this =
    {| returned := Throw e; final := this; emitted := [] |}.
Proof. apply load_throw. Qed.

(** The two causes named by C10, as throws of [loadResource]. *)
Lemma loadResource_fetch_throws repo client address struct typeParams e :
  length (typeParameters struct) = length typeParams ->
  getAccountResource client address
    (getTypeTagFullname
       (StructTag (moduleAddress struct) (moduleName struct) (name struct) typeParams))
  = Throw e ->
  loadResource repo client address struct typeParams = Throw e.
Proof.
  intros Hlen Hfetch. unfold loadResource.
  rewrite Hlen, Nat.eqb_refl. cbn [negb]. rewrite Hfetch. reflexivity.
Qed.

Lemma loadResource_decode_throws repo client address struct typeParams resource e :
  length (typeParameters struct) = length typeParams ->
  let typeTag :=
    StructTag (moduleAddress struct) (moduleName struct) (name struct) typeParams in
  getAccountResource client address (getTypeTagFullname typeTag) = Ok resource ->
  parseStructProto getTypeTagParamlessName
    (applyParser getTypeTagParamlessName getTypeTagFullname bigInt)
    (ar_data resource) typeTag repo struct = Throw e ->
  loadResource repo client address struct typeParams = Throw e.
Proof.
  intros Hlen typeTag Hfetch Hdecode. unfold loadResource.
  rewrite Hlen, Nat.eqb_refl. cbn [negb]. fold typeTag.
  rewrite Hfetch. cbn [bindR]. rewrite Hdecode. reflexivity.
Qed.

Lemma applyChange_delete_run address resource typeTag this :
  parseTypeTagOrThrow resource = Ok typeTag ->
  let key := getResourceKey (HexString_new address) typeTag in
  applyChange (delete_resource address resource) this =
    if has_key (cachedResources this) key
    then {| returned := Ok tt;
            final := set_cachedResources (delete key) this;
            emitted := notifications type_delete VNull (listenersOf this key) |}
    else {| returned := Ok tt; final := this; emitted := [] |}.
Proof.
  intros Hparse key. unfold applyChange.
  rewrite (bind_liftR_Ok _ _ _ _ Hparse), bind_getThis. fold key.
  destruct (has_key (cachedResources this) key); [apply deleteResource_run | reflexivity].
Qed.

(** No change of a transaction adds a key to the cache. *)
Lemma applyChange_adds_no_key change this k :
  cachedResources this !! k = None ->
  cachedResources (final (applyChange change this)) !! k = None.
Proof.
  intros Hk. destruct change as [address data_type data_data | address resource | type];
    unfold applyChange.
  - destruct (parseTypeTagOrThrow data_type) as [typeTag|e]; [|exact Hk].
    cbn [liftR]. rewrite bind_ret, bind_getThis.
    set (key := getResourceKey (HexString_new address) typeTag).
    destruct (has_key (cachedResources this) key) eqn:Hkey; [|exact Hk].
    destruct (parse (repo this) data_data typeTag) as [newValue|e]; [|exact Hk].
    cbn [liftR]. rewrite bind_ret, updateResource_run.
    cbn [final set_cachedResources cachedResources].
    rewrite lookup_insert_ne; [exact Hk|].
    intros ->. unfold has_key in Hkey. rewrite Hk in Hkey. discriminate.
  - destruct (parseTypeTagOrThrow resource) as [typeTag|e]; [|exact Hk].
    cbn [liftR]. rewrite bind_ret, bind_getThis.
    set (key := getResourceKey (HexString_new address) typeTag).
    destruct (has_key (cachedResources this) key); [|exact Hk].
    rewrite deleteResource_run. cbn [final set_cachedResources cachedResources].
    rewrite lookup_delete_None. right; exact Hk.
  - exact Hk.
Qed.

Lemma forEach_applyChange_adds_no_key changes this k :
  cachedResources this !! k = None ->
  cachedResources (final (forEach changes applyChange this)) !! k = None.
Proof.
  revert this. induction changes as [|change changes IH]; intros this Hk; [exact Hk|].
  rewrite forEach_cons.
  pose proof (applyChange_adds_no_key change this k Hk) as Hstep.
  destruct (applyChange change this) as [[[]|e] s1 ev1] eqn:Hx; cbn [final] in Hstep.
  - rewrite (bind_run _ _ _ _ _ _ Hx), final_after. apply IH, Hstep.
  - rewrite (bind_throw _ _ _ _ _ _ Hx). exact Hstep.
Qed.

(** The changes that make [applyChange] throw: a type text that does not
    parse, and the data of a write to a cached key that does not decode.
    The cache object is then the one the change found, and nothing was
    called. *)
Lemma applyChange_throws change this e :
  match change with
  | write_resource address data_type data_data =>
      parseTypeTagOrThrow data_type = Throw e \/
      exists typeTag,
        parseTypeTagOrThrow data_type = Ok typeTag /\
        is_Some (cachedResources this !! getResourceKey (HexString_new address) typeTag) /\
        parse (repo this) data_data typeTag = Throw e
  | delete_resource address resource => parseTypeTagOrThrow resource = Throw e
  | other_change _ => False
  end ->
  applyChange change this = {| returned := Throw e; final := this; emitted := [] |}.
Proof.
  destruct change as [address data_type data_data | address resource | type].
  - intros [Hparse | (typeTag & Hparse & [old Hold] & Hdecode)].
    + unfold applyChange. apply bind_liftR_Throw, Hparse.
    + unfold applyChange. rewrite (bind_liftR_Ok _ _ _ _ Hparse), bind_getThis.
      unfold has_key. rewrite Hold. apply bind_liftR_Throw, Hdecode.
  - intros Hparse. unfold applyChange. apply bind_liftR_Throw, Hparse.
  - intros [].
Qed.

(** C4, as the code has it: in a successful transaction whose hash is not
    ['0x0'], when the changes before a change were applied without a throw.
    If the change is a [delete_resource] whose type text parses, a key that
    is cached at that point is removed and stays absent to the end of the
    call, and the listeners registered for it are called once each with
    ['delete'] and [null], in the order of registration; a key that is not
    cached at that point produces no event and no change.  If the change
    throws, because its type text does not parse or because it writes a
    cached key with data that does not decode, the call throws that error
    with the cache as it was at that point: the changes after it are not
    applied. *)
Theorem delete_change_removes_and_notifies
    txn this before change later reached events :
  success txn = true ->
  hash txn <> "0x0" ->
  changes txn = (before ++ change :: later)%list ->
  forEach before applyChange this
    = {| returned := Ok tt; final := reached; emitted := events |} ->
  let o := updateFromTransactionResult txn this in
  (forall address resource typeTag,
     change = delete_resource address resource ->
     parseTypeTagOrThrow resource = Ok typeTag ->
     let key := getResourceKey (HexString_new address) typeTag in
     (is_Some (cachedResources reached !! key) ->
      o = after (events ++ map (fun l => Called l type_delete VNull) (listenersOf reached key))
            (forEach later applyChange (set_cachedResources (delete key) reached)) /\
      cachedResources (final o) !! key = None) /\
     (cachedResources reached !! key = None ->
      o = after events (forEach later applyChange reached))) /\
  (forall e,
     match change with
     | write_resource address data_type data_data =>
         parseTypeTagOrThrow data_type = Throw e \/
         exists typeTag,
           parseTypeTagOrThrow data_type = Ok typeTag /\
           is_Some (cachedResources reached
                      !! getResourceKey (HexString_new address) typeTag) /\
           parse (repo reached) data_data typeTag = Throw e
     | delete_resource address resource => parseTypeTagOrThrow resource = Throw e
     | other_change _ => False
     end ->
     o = {| returned := Throw e; final := reached; emitted := events |}).
Proof.
  intros Hsuccess Hhash Hchanges Hbefore o.
  assert (Ho : o = after events (forEach (change :: later) applyChange reached)).
  { subst o. unfold updateFromTransactionResult.
    rewrite Hsuccess. apply String.eqb_neq in Hhash. rewrite Hhash. cbn [andb negb].
    rewrite Hchanges. apply forEach_app_Ok, Hbefore. }
  rewrite forEach_cons in Ho. split.
  - intros address resource typeTag -> Hparse key.
    pose proof (applyChange_delete_run address resource typeTag reached Hparse) as Hstep.
    fold key in Hstep. cbv zeta in Hstep. split.
    + intros [old Hold]. unfold has_key in Hstep. rewrite Hold in Hstep.
      rewrite (bind_run _ _ _ _ _ _ Hstep), after_after in Ho.
      split; [exact Ho|].
      rewrite Ho, final_after. apply forEach_applyChange_adds_no_key.
      cbn [set_cachedResources cachedResources]. apply lookup_delete_eq.
    + intros Hnone. unfold has_key in Hstep. rewrite Hnone in Hstep.
      rewrite (bind_run _ _ _ _ _ _ Hstep), after_nil in Ho. exact Ho.
  - intros e Hthrows.
    rewrite (bind_throw _ _ _ _ _ _ (applyChange_throws change reached e Hthrows)) in Ho.
    rewrite Ho. unfold after. cbn [returned final emitted]. rewrite app_nil_r. reflexivity.
Qed.

(** One entry of the resource list, in the three ways it can go. *)
Lemma loadAccount_resource_run address listener keys resource this :
  loadAccount_resource address listener keys resource this =
    match parseTypeTagOrThrow (ar_type resource) with
    | Throw e => {| returned := Throw e; final := this; emitted := [] |}
    | Ok typeTag =>
        match parse (repo this) (ar_data resource) typeTag with
        | Throw _ =>
            {| returned := Ok keys; final := this;
               emitted := [ConsoleLog ("Failed to parse resource of type: "
                                       +:+ ar_type resource)] |}
        | Ok value =>
            let key := getResourceKey address typeTag in
            {| returned := Ok (keys ++ [key])%list;
               final := withListener key listener
                          (set_cachedResources <[key := value]> this);
               emitted := if has_key (cachedResources this) key
                          then notifications type_update value (listenersOf this key)
                          else [] |}
        end
    end.
Proof.
  unfold loadAccount_resource.
  destruct (parseTypeTagOrThrow (ar_type resource)) as [typeTag|e]; [|reflexivity].
  cbn [liftR]. rewrite bind_ret.
  destruct (parse (repo this) (ar_data resource) typeTag) as [value|e] eqn:Hdecode.
  - erewrite tryCatch_Ok; [reflexivity|].
    rewrite bind_getThis, (bind_liftR_Ok _ _ _ _ Hdecode).
    rewrite (bind_run _ _ _ _ _ _ (upsert_run _ _ _)).
    rewrite (bind_run _ _ _ _ _ _ (registration_run _ _ _)).
    unfold after, ret. cbn [returned final emitted]. rewrite !app_nil_r. reflexivity.
  - erewrite tryCatch_Throw.
    2:{ rewrite bind_getThis. apply bind_liftR_Throw, Hdecode. }
    rewrite bind_emit. reflexivity.
Qed.

(** The loop of [loadAccount] touches neither the watched addresses, nor
    the client, nor the repo. *)
Lemma withListener_frame key listener this :
  cachedResources (withListener key listener this) = cachedResources this /\
  watchedAddresses (withListener key listener this) = watchedAddresses this /\
  repo (withListener key listener this) = repo this /\
  client (withListener key listener this) = client this.
Proof.
  unfold withListener. destruct listener as [l|]; [|repeat split].
  destruct (existsb (sameId l) (listenersOf this key)); repeat split.
Qed.

Lemma loadAccount_resource_frame address listener keys resource this :
  let o := loadAccount_resource address listener keys resource this in
  watchedAddresses (final o) = watchedAddresses this /\
  repo (final o) = repo this /\ client (final o) = client this.
Proof.
  cbv zeta. rewrite loadAccount_resource_run.
  destruct (parseTypeTagOrThrow (ar_type resource)) as [typeTag|e]; [|repeat split].
  destruct (parse (repo this) (ar_data resource) typeTag) as [value|e]; [|repeat split].
  cbn [final].
  destruct (withListener_frame (getResourceKey address typeTag) listener
              (set_cachedResources <[getResourceKey address typeTag := value]> this))
    as (_ & -> & -> & ->).
  repeat split.
Qed.

Lemma loadAccount_loop_frame address listener resources keys this :
  let o := foldM (loadAccount_resource address listener) resources keys this in
  watchedAddresses (final o) = watchedAddresses this /\
  repo (final o) = repo this /\ client (final o) = client this.
Proof.
  revert keys this. induction resources as [|r rs IH]; intros keys this; [repeat split|].
  cbv zeta. rewrite foldM_cons.
  pose proof (loadAccount_resource_frame address listener keys r this) as Hstep.
  cbv zeta in Hstep.
  destruct (loadAccount_resource address listener keys r this) as [[keys1|e] s1 ev1] eqn:Hx;
    cbn [final] in Hstep.
  - rewrite (bind_run _ _ _ _ _ _ Hx), final_after.
    destruct Hstep as (<- & <- & <-). apply IH.
  - rewrite (bind_throw _ _ _ _ _ _ Hx). exact Hstep.
Qed.

(** The loop over entries that all decode. *)
Lemma loadAccount_loop_decoded address listener resources decoded keys this :
  mapR (decodeEntry (repo this) address) resources = Ok decoded ->
  exists s ev,
    foldM (loadAccount_resource address listener) resources keys this
    = {| returned := Ok (keys ++ map fst decoded)%list; final := s; emitted := ev |} /\
    cachedResources s = insertAll decoded (cachedResources this) /\
    repo s = repo this.
Proof.
  revert decoded keys this. induction resources as [|r rs IH]; intros decoded keys this Hall.
  - cbn in Hall. simplify_eq. exists this, []. cbn [map]. rewrite app_nil_r.
    repeat split.
  - cbn in Hall.
    destruct (decodeEntry (repo this) address r) as [[k v]|e] eqn:Hr; [|discriminate].
    destruct (mapR (decodeEntry (repo this) address) rs) as [rest|e] eqn:Hrs; [|discriminate].
    simplify_eq. unfold decodeEntry in Hr.
    destruct (parseTypeTagOrThrow (ar_type r)) as [typeTag|e] eqn:Hparse; [|discriminate].
    cbn [bindR] in Hr.
    destruct (parse (repo this) (ar_data r) typeTag) as [value|e] eqn:Hdecode;
      [|discriminate].
    cbn [bindR] in Hr. simplify_eq.
    set (key := getResourceKey address typeTag).
    rewrite foldM_cons.
    erewrite bind_run.
    2:{ rewrite loadAccount_resource_run, Hparse, Hdecode. reflexivity. }
    fold key.
    destruct (withListener_frame key listener (set_cachedResources <[key := v]> this))
      as (Hc & _ & Hrepo & _).
    destruct (IH rest (keys ++ [key])%list
                (withListener key listener (set_cachedResources <[key := v]> this)))
      as (s & ev & Hrun & Hcached & Hrepo').
    { rewrite Hrepo. exact Hrs. }
    eexists s, _. rewrite Hrun. unfold after. cbn [returned final emitted map fst].
    rewrite <- app_assoc. cbn [app]. repeat split.
    + rewrite Hcached, Hc. reflexivity.
    + rewrite Hrepo', Hrepo. reflexivity.
Qed.

(** C5: when every entry of the account's resource list decodes except
    one, whose type text parses and whose data does not decode,
    [loadAccount] returns normally with the keys of the other entries, in
    order; they are cached with their decoded values; the address is
    watched; and the failure was logged. *)
Theorem loadAccount_skips_the_entry_that_fails_to_decode
    address listener this before bad later typeTag e decoded :
  getAccountResources (client this) address = Ok (before ++ bad :: later)%list ->
  mapR (decodeEntry (repo this) address) (before ++ later) = Ok decoded ->
  parseTypeTagOrThrow (ar_type bad) = Ok typeTag ->
  parse (repo this) (ar_data bad) typeTag = Throw e ->
  let o := loadAccount address listener this in
  returned o = Ok (map fst decoded) /\
  (length (map fst decoded) + 1)%nat = length (before ++ bad :: later) /\
  cachedResources (final o) = insertAll decoded (cachedResources this) /\
  (forall k, In k (map fst decoded) -> is_Some (cachedResources (final o) !! k)) /\
  In address (watchedAddresses (final o)) /\
  In (ConsoleLog ("Failed to parse resource of type: " +:+ ar_type bad)) (emitted o).
Proof.
  intros Hlist Hothers Hparse Hdecode o.
  destruct (mapR_app_Ok _ _ _ _ Hothers) as (d1 & d2 & Hd1 & Hd2 & ->).
  destruct (loadAccount_loop_decoded address listener before d1 [] this Hd1)
    as (s1 & ev1 & Hrun1 & Hcached1 & Hrepo1).
  rewrite <- Hrepo1 in Hd2, Hdecode.
  destruct (loadAccount_loop_decoded address listener later d2 (map fst d1) s1 Hd2)
    as (s2 & ev2 & Hrun2 & Hcached2 & Hrepo2).
  assert (Ho : o = {| returned := Ok (map fst (d1 ++ d2));
                      final := set_watchedAddresses (Set_add address) s2;
                      emitted := (ev1 ++ ConsoleLog ("Failed to parse resource of type: "
                                                     +:+ ar_type bad) :: ev2)%list |}).
  { subst o. unfold loadAccount.
    rewrite bind_getThis, (bind_liftR_Ok _ _ _ _ Hlist).
    erewrite bind_run.
    2:{ rewrite (foldM_app_Ok _ _ _ _ _ _ _ _ Hrun1), foldM_cons.
        erewrite bind_run.
        2:{ rewrite loadAccount_resource_run, Hparse, Hdecode. reflexivity. }
        cbn [app]. rewrite Hrun2. reflexivity. }
    rewrite bind_modify. unfold after, ret. cbn [returned final emitted app].
    rewrite map_app, !app_nil_r. reflexivity. }
  rewrite Ho. cbn [returned final emitted]. repeat split.
  - rewrite length_map, length_app, (mapR_length _ _ _ Hd1), (mapR_length _ _ _ Hd2).
    rewrite !length_app. cbn [length]. lia.
  - cbn [set_watchedAddresses cachedResources].
    rewrite Hcached2, Hcached1. symmetry. apply insertAll_app.
  - intros k Hk. cbn [set_watchedAddresses cachedResources].
    rewrite Hcached2, Hcached1, <- insertAll_app. apply insertAll_cached, Hk.
  - cbn [set_watchedAddresses watchedAddresses]. apply Set_add_In.
  - apply in_or_app. right. left. reflexivity.
Qed.

Lemma first_unparsable resources :
  Exists (fun r => exists e, parseTypeTagOrThrow (ar_type r) = Throw e) resources ->
  exists before bad later e,
    resources = (before ++ bad :: later)%list /\
    Forall (fun r => exists t, parseTypeTagOrThrow (ar_type r) = Ok t) before /\
    parseTypeTagOrThrow (ar_type bad) = Throw e.
Proof.
  induction resources as [|r rs IH]; intros Hex; [inversion Hex|].
  destruct (parseTypeTagOrThrow (ar_type r)) as [t|e] eqn:Hr.
  - inversion Hex as [? ? [e He]|? ? Hrest]; subst; [congruence|].
    destruct (IH Hrest) as (before & bad & later & e & -> & Hbefore & Hbad).
    exists (r :: before), bad, later, e. repeat split; [|exact Hbad].
    constructor; [exists t; exact Hr | exact Hbefore].
  - exists [], r, rs, e. repeat split; [constructor | exact Hr].
Qed.

Lemma loadAccount_loop_parsable address listener resources keys this :
  Forall (fun r => exists t, parseTypeTagOrThrow (ar_type r) = Ok t) resources ->
  exists keys' s ev,
    foldM (loadAccount_resource address listener) resources keys this
    = {| returned := Ok keys'; final := s; emitted := ev |}.
Proof.
  revert keys this. induction resources as [|r rs IH]; intros keys this Hall.
  - exists keys, this, []. reflexivity.
  - inversion Hall as [|? ? [t Ht] Hrest]; subst.
    rewrite foldM_cons.
    destruct (loadAccount_resource address listener keys r this) as [[keys1|e] s1 ev1] eqn:Hx.
    + rewrite (bind_run _ _ _ _ _ _ Hx).
      destruct (IH keys1 s1 Hrest) as (keys' & s & ev & Hrun).
      exists keys', s, (ev1 ++ ev)%list. rewrite Hrun. reflexivity.
    + rewrite loadAccount_resource_run, Ht in Hx.
      destruct (parse (repo this) (ar_data r) t); discriminate.
Qed.

(** C9: when the type text of an entry of the resource list does not
    parse, [loadAccount] throws the parse error of the first such entry;
    the cache object and the events are the ones of the loop over the
    entries before it, so the later entries were not decoded or cached,
    nothing is returned, and the watched addresses are the ones before the
    call. *)
Theorem loadAccount_raises_the_type_parse_error address listener this resources :
  getAccountResources (client this) address = Ok resources ->
  Exists (fun r => exists e, parseTypeTagOrThrow (ar_type r) = Throw e) resources ->
  exists before bad later e,
    resources = (before ++ bad :: later)%list /\
    Forall (fun r => exists t, parseTypeTagOrThrow (ar_type r) = Ok t) before /\
    parseTypeTagOrThrow (ar_type bad) = Throw e /\
    let o := loadAccount address listener this in
    let stopped := foldM (loadAccount_resource address listener) before [] this in
    returned o = Throw e /\
    final o = final stopped /\
    emitted o = emitted stopped /\
    watchedAddresses (final o) = watchedAddresses this.
Proof.
  intros Hlist Hex.
  destruct (first_unparsable resources Hex) as (before & bad & later & e & -> & Hbefore & Hbad).
  exists before, bad, later, e. repeat split; [exact Hbefore | exact Hbad | | | |].
  all: destruct (loadAccount_loop_parsable address listener before [] this Hbefore)
         as (keys1 & s1 & ev1 & Hrun1).
  all: assert (Ho : loadAccount address listener this
                    = {| returned := Throw e; final := s1; emitted := ev1 |}).
  all: try (unfold loadAccount;
            rewrite bind_getThis, (bind_liftR_Ok _ _ _ _ Hlist);
            apply bind_throw;
            rewrite (foldM_app_Ok _ _ _ _ _ _ _ _ Hrun1), foldM_cons;
            erewrite bind_throw;
            [unfold after; cbn [returned final emitted]; rewrite app_nil_r; reflexivity
            | rewrite loadAccount_resource_run, Hbad; reflexivity]).
  all: rewrite Ho; try rewrite Hrun1; cbn [returned final emitted]; try reflexivity.
  pose proof (loadAccount_loop_frame address listener before [] this) as Hframe.
  cbv zeta in Hframe. rewrite Hrun1 in Hframe. cbn [final] in Hframe.
  destruct Hframe as (Hw & _). exact Hw.
Qed.

End CacheProperties.

(** ** The theorems on concrete inputs *)

(** A failed transaction with a delete change leaves the watching cache as
    it is. *)
Lemma updateFromTransactionResult_applies_only_on_success_witness :
  (success txn_failed = false \/ hash txn_failed = "0x0") /\
  updateFromTransactionResult demo_paramlessName demo_fullName demo_bigInt demo_parseType
    txn_failed (watching [])
  = {| returned := Ok tt; final := watching []; emitted := [] |}.
Proof.
  split; [left; reflexivity|].
  apply (proj1 (updateFromTransactionResult_applies_only_on_success
                  demo_paramlessName demo_fullName demo_bigInt demo_parseType
                  txn_failed (watching []))).
  left. reflexivity.
Defined.

(** [Box<u64>]: the field declared [TypeParamIdx(0)] is decoded by the
    [u64] parser, which turns the text ["42"] into an integer and refuses
    the boolean [true]. *)
Lemma parseStructProto_decodes_fields_with_resolved_types_witness :
  parseStructProto demo_paramlessName
    (applyParser demo_paramlessName demo_fullName demo_bigInt)
    (VObj [("value", VStr "42")]) boxOfU64 demo_repo Box
  = Ok (VObj [("value", VBigInt 42)]) /\
  parseStructProto demo_paramlessName
    (applyParser demo_paramlessName demo_fullName demo_bigInt)
    (VObj [("value", VBool true)]) boxOfU64 demo_repo Box
  = Throw (ExpectsDataType "U64Parser" "string" "boolean").
Proof.
  pose proof (parseStructProto_decodes_fields_with_resolved_types
                demo_paramlessName demo_fullName demo_bigInt) as (_ & Hall & Hbad & _).
  split.
  - apply (Hall [("value", VStr "42")] (HexString_new "0x1") [TAtomic U64] demo_repo Box
             [VBigInt 42]).
    + reflexivity.
    + apply NoDup_singleton.
    + constructor; [|constructor].
      exists (VStr "42"), (TAtomic U64), Fn_U64Parser.
      split; [reflexivity|]. split; [reflexivity|]. split; reflexivity.
  - apply (proj2 (Hbad [("value", VBool true)] (HexString_new "0x1") [TAtomic U64] demo_repo
                    Box [] {| fd_name := "value"; fd_typeTag := TypeParamIdx 0 |} []
                    (VBool true) (TAtomic U64)
                    eq_refl eq_refl (List.Forall_nil _) eq_refl eq_refl)
             Fn_U64Parser).
    + reflexivity.
    + reflexivity.
Defined.

(** A second [load] of the text resource, now ["hello"], with both
    listeners registered. *)
Lemma load_inserts_silently_and_notifies_on_update_witness :
  let this := watching [textResource "hello"] in
  let o := load demo_paramlessName demo_fullName demo_bigInt AsciiString owner [] None this in
  returned o = Ok (VStr "hello") /\
  cachedResources (final o) = <[textKey := VStr "hello"]> (cachedResources this) /\
  (cachedResources this !! textKey = None -> emitted o = []) /\
  (is_Some (cachedResources this !! textKey) ->
   emitted o = map (fun l => Called l type_update (VStr "hello")) (listenersOf this textKey)).
Proof.
  apply (load_inserts_silently_and_notifies_on_update
           demo_paramlessName demo_fullName demo_bigInt AsciiString owner [] None
           (watching [textResource "hello"]) (VStr "hello")).
  vm_compute. reflexivity.
Defined.

(** The delete change of [txn_delete], reached at once, on the watching
    cache; the write of [txn_blocked], for which the repo has no parser; and
    the first change of [txn_unparsable]. *)
Lemma delete_change_removes_and_notifies_witness :
  (let this := watching [] in
   let o := updateFromTransactionResult demo_paramlessName demo_fullName demo_bigInt
              demo_parseType txn_delete this in
   o = after ([] ++ map (fun l => Called l type_delete VNull) (listenersOf this textKey))
         (forEach []
            (applyChange demo_paramlessName demo_fullName demo_bigInt demo_parseType)
            (set_cachedResources (delete textKey) this)) /\
   cachedResources (final o) !! textKey = None) /\
  updateFromTransactionResult demo_paramlessName demo_fullName demo_bigInt demo_parseType
    txn_blocked watchingWithBox
  = {| returned := Throw (NoParserRegistered "0x1::Box::Box");
       final := watchingWithBox; emitted := [] |} /\
  updateFromTransactionResult demo_paramlessName demo_fullName demo_bigInt demo_parseType
    txn_unparsable (watching [])
  = {| returned := Throw (ExternalError "signer"); final := watching []; emitted := [] |}.
Proof.
  split; [|split].
  - apply (proj1 (delete_change_removes_and_notifies
                    demo_paramlessName demo_fullName demo_bigInt demo_parseType
                    txn_delete (watching []) [] (delete_resource "0x1" "0x1::ASCII::String")
                    [] (watching []) []
                    eq_refl ltac:(discriminate) eq_refl eq_refl)
             "0x1" "0x1::ASCII::String" textTag eq_refl eq_refl).
    exists (VStr "old"). reflexivity.
  - apply (proj2 (delete_change_removes_and_notifies
                    demo_paramlessName demo_fullName demo_bigInt demo_parseType
                    txn_blocked watchingWithBox []
                    (write_resource "0x1" "0x1::Box::Box<u64>" (VObj [("value", VStr "8")]))
                    [delete_resource "0x1" "0x1::ASCII::String"] watchingWithBox []
                    eq_refl ltac:(discriminate) eq_refl eq_refl)).
    right. exists boxOfU64. split; [reflexivity|].
    split; [exists (VObj [("value", VBigInt 1)]); reflexivity | reflexivity].
  - apply (proj2 (delete_change_removes_and_notifies
                    demo_paramlessName demo_fullName demo_bigInt demo_parseType
                    txn_unparsable (watching []) [] (delete_resource "0x1" "signer")
                    [delete_resource "0x1" "0x1::ASCII::String"] (watching []) []
                    eq_refl ltac:(discriminate) eq_refl eq_refl)).
    reflexivity.
Defined.

(** C4 as stated fails on [txn_blocked]: the transaction succeeded, its
    change-set holds a delete of the cached text resource, and the call
    throws at the write before it, for which the repo has no parser; the
    text resource stays cached and no listener is called. *)
Lemma delete_not_applied_after_a_change_that_throws :
  success txn_blocked = true /\
  hash txn_blocked <> "0x0" /\
  In (delete_resource "0x1" "0x1::ASCII::String") (changes txn_blocked) /\
  demo_parseType "0x1::ASCII::String" = Ok textTag /\
  getResourceKey demo_fullName (HexString_new "0x1") textTag = textKey /\
  cachedResources watchingWithBox !! textKey = Some (VStr "old") /\
  listenersOf watchingWithBox textKey = [listenerA; listenerB] /\
  updateFromTransactionResult demo_paramlessName demo_fullName demo_bigInt demo_parseType
    txn_blocked watchingWithBox
  = {| returned := Throw (NoParserRegistered "0x1::Box::Box");
       final := watchingWithBox; emitted := [] |}.
Proof.
  repeat split; try reflexivity.
  - discriminate.
  - right. left. reflexivity.
Qed.

(** C7 as stated fails on [null], a raw value that is not an object and
    whose [typeof] is ["object"].  Under the tag of the library's text type,
    which passes the identity checks of its schema, [null] is not returned:
    the call ends in the TypeError of the operator [in].  Against another
    struct, one without fields, no error is raised: the call returns the
    empty object. *)
Lemma null_is_neither_returned_nor_refused :
  typeof VNull = "object" /\
  textTag = StructTag (HexString_new "0x1") (moduleName AsciiString) (name AsciiString) [] /\
  hex (HexString_new "0x1") = hex (moduleAddress AsciiString) /\
  toShortString (HexString_new "0x1") = "0x1" /\
  parseStructProto demo_paramlessName
    (applyParser demo_paramlessName demo_fullName demo_bigInt)
    VNull textTag demo_repo AsciiString
  = Throw (TypeError "bytes") /\
  parseStructProto demo_paramlessName
    (applyParser demo_paramlessName demo_fullName demo_bigInt)
    VNull markerTag demo_repo Marker
  = Ok (VObj []).
Proof. repeat split. Qed.

(** An account with three resources, the second of which does not decode. *)
Lemma loadAccount_skips_the_entry_that_fails_to_decode_witness :
  let this := watching [u64Resource; misshapenResource; boolResource] in
  let o := loadAccount demo_paramlessName demo_fullName demo_bigInt demo_parseType
             owner (Some listenerA) this in
  let decoded := [("0x1/u64", VBigInt 7); ("0x1/bool", VBool true)] in
  returned o = Ok (map fst decoded) /\
  (length (map fst decoded) + 1)%nat
  = length ([u64Resource] ++ misshapenResource :: [boolResource]) /\
  cachedResources (final o) = insertAll decoded (cachedResources this) /\
  (forall k, In k (map fst decoded) -> is_Some (cachedResources (final o) !! k)) /\
  In owner (watchedAddresses (final o)) /\
  In (ConsoleLog ("Failed to parse resource of type: " +:+ ar_type misshapenResource))
     (emitted o).
Proof.
  apply (loadAccount_skips_the_entry_that_fails_to_decode
           demo_paramlessName demo_fullName demo_bigInt demo_parseType
           owner (Some listenerA)
           (watching [u64Resource; misshapenResource; boolResource])
           [u64Resource] misshapenResource [boolResource] (TAtomic U8)
           (ExpectsDataType "U8Parser" "number" "string")).
  - reflexivity.
  - vm_compute. reflexivity.
  - reflexivity.
  - vm_compute. reflexivity.
Defined.


(** The bare text ["hello"] against the struct of the library's text type. *)
Lemma parseStructProto_non_object_witness :
  parseStructProto demo_paramlessName
    (applyParser demo_paramlessName demo_fullName demo_bigInt)
    (VStr "hello") textTag demo_repo AsciiString
  = Ok (VStr "hello").
Proof.
  apply (proj1 (parseStructProto_non_object demo_paramlessName
                  (applyParser demo_paramlessName demo_fullName demo_bigInt)
                  (VStr "hello") (HexString_new "0x1") "ASCII" "String" []
                  demo_repo AsciiString
                  ltac:(discriminate) eq_refl eq_refl eq_refl)).
  repeat split; reflexivity.
Defined.

(** Registering again under the id ["a"], with another callback. *)
Lemma listeners_deduplicated_and_notified_in_order_witness :
  addListenerForResource textKey {| id := "a"; callback := 9%nat |} (watching [])
  = {| returned := Ok tt; final := watching []; emitted := [] |} /\
  listenersOf
    (final (addListenerForResource textKey {| id := "c"; callback := 3%nat |} (watching [])))
    textKey
  = [listenerA; listenerB; {| id := "c"; callback := 3%nat |}].
Proof.
  split.
  - apply (proj1 (listeners_deduplicated_and_notified_in_order
                    textKey {| id := "a"; callback := 9%nat |} (watching []))).
    reflexivity.
  - apply (proj1 (proj2 (listeners_deduplicated_and_notified_in_order
                           textKey {| id := "c"; callback := 3%nat |} (watching [])))).
    reflexivity.
Defined.

(** An account whose second resource has a type text that does not parse. *)
Lemma loadAccount_raises_the_type_parse_error_witness :
  exists before bad later e,
    [u64Resource; unparsableResource; boolResource] = (before ++ bad :: later)%list /\
    Forall (fun r => exists t, demo_parseType (ar_type r) = Ok t) before /\
    demo_parseType (ar_type bad) = Throw e /\
    let this := watching [u64Resource; unparsableResource; boolResource] in
    let o := loadAccount demo_paramlessName demo_fullName demo_bigInt demo_parseType
               owner None this in
    let stopped :=
      foldM (loadAccount_resource demo_paramlessName demo_fullName demo_bigInt demo_parseType
               owner None) before [] this in
    returned o = Throw e /\
    final o = final stopped /\
    emitted o = emitted stopped /\
    watchedAddresses (final o) = watchedAddresses this.
Proof.
  apply (loadAccount_raises_the_type_parse_error
           demo_paramlessName demo_fullName demo_bigInt demo_parseType
           owner None (watching [u64Resource; unparsableResource; boolResource])
           [u64Resource; unparsableResource; boolResource]).
  - reflexivity.
  - right. left. exists (ExternalError "signer"). reflexivity.
Defined.

(** A [load] for which the network has no resource. *)
Lemma load_failure_leaves_cache_unchanged_witness :
  load demo_paramlessName demo_fullName demo_bigInt AsciiString owner [] (Some listenerA)
    (watching [])
  = {| returned := Throw (ExternalError "resource not found");
       final := watching []; emitted := [] |}.
Proof.
  apply (load_failure_leaves_cache_unchanged
           demo_paramlessName demo_fullName demo_bigInt AsciiString owner []
           (Some listenerA) (watching []) (ExternalError "resource not found")).
  reflexivity.
Defined.

(** ** The concrete scenarios of the spec *)

Example decode_300_as_u8 :
  parse demo_paramlessName demo_fullName demo_bigInt demo_repo (VNum (inject_Z 300))
    (TAtomic U8)
  = Throw (U8OutOfRange (inject_Z 300)).
Proof. reflexivity. Qed.

Example decode_object_without_declared_field :
  parseStructProto demo_paramlessName
    (applyParser demo_paramlessName demo_fullName demo_bigInt)
    (VObj [("name", VStr "n")]) (StructTag (HexString_new "0x1") "Box" "Box" [TAtomic U8])
    demo_repo Box
  = Throw (MissingField "Box" "value").
Proof. reflexivity. Qed.

Example decode_box_of_u64 :
  parseStructProto demo_paramlessName
    (applyParser demo_paramlessName demo_fullName demo_bigInt)
    (VObj [("value", VStr "42")]) (StructTag (HexString_new "0x1") "Box" "Box" [TAtomic U64])
    demo_repo Box
  = Ok (VObj [("value", VBigInt 42)]).
Proof. reflexivity. Qed.

Example decode_bytes :
  parse demo_paramlessName demo_fullName demo_bigInt demo_repo (VStr "0x0aff")
    (VectorTag (TAtomic U8))
  = Ok (VArr [VNum (inject_Z 10); VNum (inject_Z 255)]).
Proof. reflexivity. Qed.

(** Registering a listener with a first [load] calls nothing; a second
    [load], when the network holds another text, calls the listener once. *)
Example first_load_silent_second_load_notifies :
  let empty := demo_cache [textResource "hello"] in
  let first := load demo_paramlessName demo_fullName demo_bigInt AsciiString owner []
                 (Some listenerA) empty in
  let later :=
    {| cachedResources := cachedResources (final first);
       resourceKeyToLoadParams := resourceKeyToLoadParams (final first);
       updateListener := updateListener (final first);
       watchedAddresses := watchedAddresses (final first);
       client := demo_client [textResource "changed"];
       repo := repo (final first) |} in
  let second := load demo_paramlessName demo_fullName demo_bigInt AsciiString owner []
                  None later in
  emitted first = [] /\
  emitted second = [Called listenerA type_update (VStr "changed")] /\
  cachedResources (final second) !! textKey = Some (VStr "changed").
Proof. vm_compute. repeat split; reflexivity. Qed.

(** ** More properties of the decoders *)

Lemma mapR_Ok_Forall2 {E A B} (f : A -> result E B) xs ys :
  mapR f xs = Ok ys <-> Forall2 (fun x y => f x = Ok y) xs ys.
Proof.
  revert ys. induction xs as [|x xs IH]; intros ys; cbn.
  - split.
    + intros H. simplify_eq. constructor.
    + intros H. inversion H. reflexivity.
  - split.
    + destruct (f x) as [y|e] eqn:Hx; [|discriminate].
      destruct (mapR f xs) as [ys'|e] eqn:Hxs; [|discriminate].
      intros H. simplify_eq. constructor; [exact Hx | apply IH; reflexivity].
    + intros H. inversion H as [|? y ? ys' Hx Hrest]; subst.
      rewrite Hx. apply IH in Hrest. rewrite Hrest. reflexivity.
Qed.

Lemma mapR_first_Throw {E A B} (f : A -> result E B) before bad later e :
  Forall (fun x => exists y, f x = Ok y) before ->
  f bad = Throw e ->
  mapR f (before ++ bad :: later) = Throw e.
Proof.
  intros Hbefore Hbad. induction Hbefore as [|x xs [y Hx] _ IH]; cbn.
  - rewrite Hbad. reflexivity.
  - rewrite Hx. cbn in IH. rewrite IH. reflexivity.
Qed.

Lemma Number_isInteger_spec q :
  Number_isInteger q = true <-> exists z, (q == inject_Z z)%Q.
Proof.
  unfold Number_isInteger. rewrite Z.eqb_eq. destruct q as [num den]. cbn [Qnum Qden].
  split.
  - intros Hmod. exists (num / Z.pos den).
    unfold Qeq, inject_Z. cbn [Qnum Qden].
    pose proof (Z.div_mod num (Z.pos den)) as Hdiv. lia.
  - intros [z Hz]. unfold Qeq, inject_Z in Hz. cbn [Qnum Qden] in Hz.
    rewrite Z.mul_1_r in Hz. subst num. apply Z.mod_mul. lia.
Qed.

Lemma Qltb_spec a b : Qltb a b = true <-> (a < b)%Q.
Proof.
  unfold Qltb. rewrite negb_true_iff, <- not_true_iff_false, Qle_bool_iff.
  split; [apply Qnot_le_lt | apply Qlt_not_le].
Qed.

Lemma hexChar_not_x n : 0 <= n < 16 -> hexChar n <> "x"%char.
Proof.
  intros H.
  assert (Hall : forallb (fun k => negb (Ascii.eqb (hexChar (Z.of_nat k)) "x"%char))
                   (seq 0 16) = true) by reflexivity.
  rewrite forallb_forall in Hall.
  specialize (Hall (Z.to_nat n)). rewrite Z2Nat.id in Hall by lia.
  intros Heq. rewrite Heq in Hall. discriminate Hall. apply in_seq. lia.
Qed.

Lemma hexEncode_no_prefix bytes :
  Forall (fun b => 0 <= b < 256) bytes -> startsWith (hexEncode bytes) "0x" = false.
Proof.
  intros H. destruct H as [|b bytes Hb _]; [reflexivity|].
  unfold startsWith. cbn [hexEncode String.prefix].
  destruct (ascii_dec "0" (hexChar (b / 16))); [|reflexivity].
  destruct (ascii_dec "x" (hexChar (b mod 16))) as [Heq|]; [|reflexivity].
  exfalso. symmetry in Heq. revert Heq. apply hexChar_not_x. apply Z.mod_pos_bound. lia.
Qed.

Lemma fromUint8Array_round_trip bytes :
  Forall (fun b => 0 <= b < 256) bytes ->
  hex (HexString_fromUint8Array bytes) = "0x" +:+ hexEncode bytes.
Proof.
  intros H. unfold HexString_fromUint8Array, HexString_new.
  rewrite (hexEncode_no_prefix _ H). reflexivity.
Qed.

Lemma input_bytes_in_range input :
  wellFormedInput input -> Forall (fun b => 0 <= b < 256) (u8Array (AptosVectorU8_new input)).
Proof.
  destruct input as [numbers|text|bytes]; cbn; intros H.
  - unfold Uint8Array_from_numbers.
    induction numbers as [|n numbers IH]; cbn; constructor; [|exact IH].
    apply Z.mod_pos_bound. lia.
  - unfold TextEncoder_encode.
    induction (list_ascii_of_string text) as [|c cs IH]; cbn; constructor; [|exact IH].
    pose proof (nat_ascii_bounded c). lia.
  - exact H.
Qed.

Section MoreDecoderProperties.

Variable getTypeTagParamlessName : TypeTag -> string.
Variable getTypeTagFullname : TypeTag -> string.
Variable bigInt : string -> res Z.

Local Abbreviation applyParser :=
  (applyParser getTypeTagParamlessName getTypeTagFullname bigInt).
Local Abbreviation parseStructProto := (parseStructProto getTypeTagParamlessName).
Local Abbreviation parseField := (parseField getTypeTagParamlessName).
Local Abbreviation U8Parser := (U8Parser getTypeTagParamlessName).

(** X1: the [u8] parser returns its data, and does so exactly for the
    numbers that are integers from 0 to 255. *)
Theorem U8Parser_accepts_exactly_the_bytes data repo v :
  U8Parser data (TAtomic U8) repo = Ok v <->
  v = data /\ exists q z, data = VNum q /\ (q == inject_Z z)%Q /\ 0 <= z <= 255.
Proof.
  unfold U8Parser. split.
  - destruct data as [| | |q| | | | |]; try discriminate.
    destruct (Qltb q 0 || Qltb 255 q) eqn:Hrange; [discriminate|].
    destruct (Number_isInteger q) eqn:Hint; [|discriminate].
    cbn [negb]. intros H. simplify_eq. split; [reflexivity|].
    apply Number_isInteger_spec in Hint as [z Hz].
    exists q, z. split; [reflexivity|]. split; [exact Hz|].
    apply orb_false_iff in Hrange as [Hlow Hhigh].
    apply not_true_iff_false in Hlow, Hhigh. rewrite Qltb_spec in Hlow, Hhigh.
    apply Qnot_lt_le in Hlow, Hhigh. rewrite Hz in Hlow, Hhigh.
    change 0%Q with (inject_Z 0) in Hlow. change 255%Q with (inject_Z 255) in Hhigh.
    rewrite <- Zle_Qle in Hlow, Hhigh. lia.
  - intros (-> & q & z & -> & Hz & Hrange).
    assert (Hlow : Qltb q 0 = false).
    { apply not_true_iff_false. rewrite Qltb_spec. apply Qle_not_lt. rewrite Hz.
      change 0%Q with (inject_Z 0). rewrite <- Zle_Qle. lia. }
    assert (Hhigh : Qltb 255 q = false).
    { apply not_true_iff_false. rewrite Qltb_spec. apply Qle_not_lt. rewrite Hz.
      change 255%Q with (inject_Z 255). rewrite <- Zle_Qle. lia. }
    rewrite Hlow, Hhigh. cbn [orb].
    assert (Hint : Number_isInteger q = true) by (apply Number_isInteger_spec; eauto).
    rewrite Hint. reflexivity.
Qed.

(** X2: after [addDefaultParsers] each of the seven default names holds its
    default parser, whatever was registered under the name before, and every
    other name holds what it held; [addParser] replaces the parser of its
    name only. *)
Theorem addDefaultParsers_overrides_its_names_only repo paramlessName :
  getParserFromParamlessName (addDefaultParsers repo) paramlessName =
    match defaultParser paramlessName with
    | Some parser => Some parser
    | None => getParserFromParamlessName repo paramlessName
    end /\
  (forall parser,
     getParserFromParamlessName (addParser repo paramlessName parser) paramlessName
     = Some parser) /\
  (forall other parser,
     other <> paramlessName ->
     getParserFromParamlessName (addParser repo other parser) paramlessName
     = getParserFromParamlessName repo paramlessName).
Proof.
  unfold getParserFromParamlessName. split; [|split].
  - unfold addDefaultParsers, addParser, defaultParser. cbn [paramlessNameToParser].
    repeat match goal with
           | |- context [String.eqb paramlessName ?lit] =>
               destruct (String.eqb_spec paramlessName lit) as [->|?];
               [ apply lookup_insert_eq | rewrite lookup_insert_ne by congruence ]
           end.
    reflexivity.
  - intros parser. cbn. apply lookup_insert_eq.
  - intros other parser Hne. cbn. apply lookup_insert_ne, Hne.
Qed.

(** X3: [parseStructProto] returns a value only under a struct tag whose
    address text, module and name are the schema's; under any other tag it
    throws, whatever the data. *)
Theorem parseStructProto_returns_only_under_the_schema_tag invoke data typeTag repo struct out :
  parseStructProto invoke data typeTag repo struct = Ok out ->
  exists address typeParams,
    typeTag = StructTag address (moduleName struct) (name struct) typeParams /\
    hex address = hex (moduleAddress struct).
Proof.
  unfold parseStructProto.
  destruct typeTag as [a|e|address module tagName typeParams|i]; try discriminate.
  destruct (String.eqb_spec (hex address) (hex (moduleAddress struct))) as [Ha|];
    [|discriminate].
  destruct (String.eqb_spec module (moduleName struct)) as [->|]; [|discriminate].
  destruct (String.eqb_spec tagName (name struct)) as [->|]; [|discriminate].
  intros _. exists address, typeParams. split; [reflexivity | exact Ha].
Qed.

Lemma getProp_setProp_is_Some key key' v props :
  is_Some (getProp key (setProp key' v props)) <->
  key = key' \/ is_Some (getProp key props).
Proof.
  destruct (string_dec key' key) as [->|Hne].
  - rewrite getProp_setProp_eq. split; [left; reflexivity | eauto].
  - rewrite (getProp_setProp_ne _ _ _ _ Hne). split; [right; assumption|].
    intros [Heq|H]; [congruence | exact H].
Qed.

Lemma fields_give_the_property_names invoke data typeParams repo struct fieldDecls proto out key :
  foldR (parseField invoke data typeParams repo struct) fieldDecls proto = Ok out ->
  is_Some (getProp key out) <->
  In key (map fd_name fieldDecls) \/ is_Some (getProp key proto).
Proof.
  revert proto. induction fieldDecls as [|d ds IH]; intros proto Hrun.
  - cbn in Hrun. simplify_eq. cbn. split; [right; assumption | intros [[]|H]; exact H].
  - cbn [foldR] in Hrun.
    destruct (parseField invoke data typeParams repo struct proto d) as [proto'|e] eqn:Hd;
      [|discriminate].
    apply parseField_Ok_inv in Hd as (props & v & t & parser & parsedValue & Hrest).
    destruct Hrest as (_ & _ & _ & _ & _ & ->).
    rewrite (IH _ Hrun), getProp_setProp_is_Some. cbn [map In]. intuition congruence.
Qed.

(** X4: the object that [parseStructProto] returns for object data has
    exactly the declared field names as its properties: a property of the
    raw data that the schema does not declare is dropped. *)
Theorem parseStructProto_keeps_exactly_the_declared_fields
    invoke data typeTag repo struct out :
  parseStructProto invoke data typeTag repo struct = Ok out ->
  typeof data = "object" ->
  exists proto,
    out = VObj proto /\
    forall key, is_Some (getProp key proto) <-> In key (map fd_name (fields struct)).
Proof.
  intros Hrun Hobj. unfold parseStructProto in Hrun.
  destruct typeTag as [a|e|address module tagName typeParams|i]; try discriminate.
  destruct (negb (String.eqb (hex address) (hex (moduleAddress struct)))); [discriminate|].
  destruct (negb (String.eqb module (moduleName struct))); [discriminate|].
  destruct (negb (String.eqb tagName (name struct))); [discriminate|].
  rewrite Hobj, String.eqb_refl in Hrun. cbn [negb] in Hrun.
  destruct (foldR (parseField invoke data typeParams repo struct) (fields struct) [])
    as [proto|e] eqn:Hfields; [|discriminate].
  cbn [bindR] in Hrun. exists proto. split; [congruence|].
  intros key. rewrite (fields_give_the_property_names _ _ _ _ _ _ _ _ _ Hfields).
  cbn [getProp]. split; [intros [H|[x Hx]]; [exact H | discriminate] | left; assumption].
Qed.

(** X5: the two edges of the field loop.  A schema without fields gives the
    empty object for every value whose [typeof] is ["object"], [null] and
    arrays included; with at least one field, [null] ends in the TypeError
    of the operator [in] on the first field. *)
Theorem parseStructProto_on_an_empty_schema_and_on_null
    invoke data address typeParams repo struct :
  hex address = hex (moduleAddress struct) ->
  typeof data = "object" ->
  let typeTag := StructTag address (moduleName struct) (name struct) typeParams in
  (fields struct = [] ->
   parseStructProto invoke data typeTag repo struct = Ok (VObj [])) /\
  (forall fieldDecl others,
     fields struct = fieldDecl :: others ->
     data = VNull ->
     parseStructProto invoke data typeTag repo struct
     = Throw (TypeError (fd_name fieldDecl))).
Proof.
  intros Haddr Hobj typeTag. subst typeTag. unfold parseStructProto.
  rewrite Haddr, !String.eqb_refl, Hobj, String.eqb_refl. cbn [negb].
  split.
  - intros ->. reflexivity.
  - intros fieldDecl others -> ->. reflexivity.
Qed.

(** X6: the vector parser on an array, for an element type other than
    [u8].  Without a parser for the element type it throws, also on the
    empty array; a result is an array of the same length whose elements are
    the decoded elements, in order; and the error of the first element that
    does not decode is the error of the call. *)
Theorem VectorParser_decodes_arrays_element_by_element repo elems elementType :
  elementType <> TAtomic U8 ->
  let lookup := paramlessNameToParser repo !! getTypeTagParamlessName elementType in
  let run := applyParser Fn_VectorParser (VArr elems) (VectorTag elementType) repo in
  (lookup = None ->
   run = Throw (NoElementParser (getTypeTagParamlessName elementType))) /\
  (forall out,
     run = Ok out ->
     exists elementParser vector,
       lookup = Some elementParser /\ out = VArr vector /\
       length vector = length elems /\
       Forall2 (fun element v => applyParser elementParser element elementType repo = Ok v)
               elems vector) /\
  (forall elementParser before bad later e,
     lookup = Some elementParser ->
     elems = (before ++ bad :: later)%list ->
     Forall (fun element =>
               exists v, applyParser elementParser element elementType repo = Ok v) before ->
     applyParser elementParser bad elementType repo = Throw e ->
     run = Throw e).
Proof.
  intros Hne lookup run.
  assert (Hrun : run =
            match lookup with
            | None => Throw (NoElementParser (getTypeTagParamlessName elementType))
            | Some elementParser =>
                (vector <- mapR (fun element =>
                                   applyParser elementParser element elementType repo) elems ;;
                 Ok (VArr vector))%result
            end).
  { subst run lookup. rewrite applyParser_VectorParser.
    unfold VectorParser, getParserFromParamlessName.
    destruct elementType as [[]| | |]; try reflexivity. contradiction. }
  rewrite Hrun. clear Hrun. split; [|split].
  - intros ->. reflexivity.
  - intros out Hout. destruct lookup as [elementParser|]; [|discriminate].
    destruct (mapR (fun element => applyParser elementParser element elementType repo) elems)
      as [vector|e] eqn:Hmap; [|discriminate].
    cbn [bindR] in Hout. exists elementParser, vector.
    split; [reflexivity|]. split; [congruence|]. split.
    + apply (mapR_length _ _ _ Hmap).
    + apply mapR_Ok_Forall2, Hmap.
  - intros elementParser before bad later e -> -> Hbefore Hbad.
    rewrite (mapR_first_Throw _ _ _ _ _ Hbefore Hbad). reflexivity.
Qed.

(** X7: bytes written as a hexadecimal text are read back by the decoder of
    [vector<u8>]: the text of [numbersOrStringToHexString], which is also
    the text of [AptosVectorU8.hex], decodes to the bytes that
    [AptosVectorU8] holds for the same input. *)
Theorem hex_of_bytes_decodes_to_the_bytes repo input :
  wellFormedInput input ->
  hex (numbersOrStringToHexString input) = AptosVectorU8_hex (AptosVectorU8_new input) /\
  parseVectorU8 (VStr (hex (numbersOrStringToHexString input)))
  = Ok (AptosVectorU8_asNumbers (AptosVectorU8_new input)) /\
  applyParser Fn_VectorParser (VStr (AptosVectorU8_hex (AptosVectorU8_new input)))
    (VectorTag (TAtomic U8)) repo
  = Ok (Array_from (AptosVectorU8_asNumbers (AptosVectorU8_new input))).
Proof.
  intros Hinput. pose proof (input_bytes_in_range input Hinput) as Hbytes.
  assert (Hsame : hex (numbersOrStringToHexString input)
                  = AptosVectorU8_hex (AptosVectorU8_new input))
    by (destruct input; reflexivity).
  assert (Hdecode : parseVectorU8 (VStr (AptosVectorU8_hex (AptosVectorU8_new input)))
                    = Ok (AptosVectorU8_asNumbers (AptosVectorU8_new input))).
  { unfold AptosVectorU8_hex, AptosVectorU8_asNumbers, parseVectorU8.
    rewrite (fromUint8Array_round_trip _ Hbytes), startsWith_0x. cbn [negb].
    rewrite (toUint8Array_of_hex _ Hbytes). reflexivity. }
  split; [exact Hsame|]. split; [rewrite Hsame; exact Hdecode|].
  rewrite applyParser_VectorParser. unfold VectorParser. rewrite Hdecode. reflexivity.
Qed.

End MoreDecoderProperties.

Section EventProperties.

Variable getTypeTagParamlessName : TypeTag -> string.
Variable getTypeTagFullname : TypeTag -> string.
Variable bigInt : string -> res Z.
Variable parseTypeTagOrThrow : string -> res TypeTag.

Local Abbreviation loadEvents :=
  (loadEvents getTypeTagParamlessName getTypeTagFullname bigInt parseTypeTagOrThrow).
Local Abbreviation loadEvents_event :=
  (loadEvents_event getTypeTagParamlessName getTypeTagFullname bigInt parseTypeTagOrThrow).

(** X8: [loadEvents] refuses a container tag that is not a struct whatever
    the network would answer; it passes a network error on; and it decodes
    all the events or none: the result holds one decoded value per event, in
    order, and the first event whose type text does not parse or whose data
    does not decode makes the whole call throw that error. *)
Theorem loadEvents_decodes_every_event_or_throws
    getEventsByEventHandle repo address containerTypeTag field query :
  (isStruct containerTypeTag = false ->
   loadEvents getEventsByEventHandle repo address containerTypeTag field query
   = Throw (ContainerNotAStruct (getTypeTagParamlessName containerTypeTag))) /\
  (isStruct containerTypeTag = true ->
   let fetched :=
     getEventsByEventHandle address (getTypeTagFullname containerTypeTag) field query in
   let run := loadEvents getEventsByEventHandle repo address containerTypeTag field query in
   (forall e, fetched = Throw e -> run = Throw (EventError e)) /\
   (forall events values,
      fetched = Ok events ->
      (run = Ok values <->
       Forall2 (fun event v => loadEvents_event repo event = Ok v) events values)) /\
   (forall before bad later e,
      fetched = Ok (before ++ bad :: later)%list ->
      Forall (fun event => exists v, loadEvents_event repo event = Ok v) before ->
      loadEvents_event repo bad = Throw e ->
      run = Throw (EventError e))).
Proof.
  split.
  - destruct containerTypeTag; try reflexivity. discriminate.
  - intros Hstruct fetched run. subst fetched run.
    destruct containerTypeTag as [a|t|address' module tagName typeParams|i];
      try discriminate.
    unfold loadEvents. split; [|split].
    + intros e ->. reflexivity.
    + intros events values ->. cbn [liftE bindR].
      rewrite <- mapR_Ok_Forall2.
      destruct (mapR (loadEvents_event repo) events) as [vs|e]; cbn [liftE].
      * split; intros H; simplify_eq; reflexivity.
      * split; intros H; discriminate.
    + intros before bad later e -> Hbefore Hbad. cbn [liftE bindR].
      rewrite (mapR_first_Throw _ _ _ _ _ Hbefore Hbad). reflexivity.
Qed.

End EventProperties.

(** ** More properties of the cache *)

Lemma forEach_preserves {A} (R : AptosResourceCache -> AptosResourceCache -> Prop)
    (body : A -> M unit) xs :
  (forall s, R s s) ->
  (forall a b c, R a b -> R b c -> R a c) ->
  (forall x s, R s (final (body x s))) ->
  forall s, R s (final (forEach xs body s)).
Proof.
  intros Hrefl Htrans Hbody. induction xs as [|x xs IH]; intros s; [apply Hrefl|].
  rewrite forEach_cons.
  pose proof (Hbody x s) as Hstep.
  destruct (body x s) as [[[]|e] s1 ev1] eqn:Hx; cbn [final] in Hstep.
  - rewrite (bind_run _ _ _ _ _ _ Hx), final_after. eapply Htrans; [exact Hstep | apply IH].
  - rewrite (bind_throw _ _ _ _ _ _ Hx). exact Hstep.
Qed.

Lemma foldM_preserves {A B} (R : AptosResourceCache -> AptosResourceCache -> Prop)
    (body : B -> A -> M B) xs :
  (forall s, R s s) ->
  (forall a b c, R a b -> R b c -> R a c) ->
  (forall acc x s, R s (final (body acc x s))) ->
  forall acc s, R s (final (foldM body xs acc s)).
Proof.
  intros Hrefl Htrans Hbody. induction xs as [|x xs IH]; intros acc s; [apply Hrefl|].
  rewrite foldM_cons.
  pose proof (Hbody acc x s) as Hstep.
  destruct (body acc x s) as [[acc1|e] s1 ev1] eqn:Hx; cbn [final] in Hstep.
  - rewrite (bind_run _ _ _ _ _ _ Hx), final_after. eapply Htrans; [exact Hstep | apply IH].
  - rewrite (bind_throw _ _ _ _ _ _ Hx). exact Hstep.
Qed.

Lemma onlyCacheChanged_refl s : onlyCacheChanged s s.
Proof. repeat split. Qed.

Lemma onlyCacheChanged_trans a b c :
  onlyCacheChanged a b -> onlyCacheChanged b c -> onlyCacheChanged a c.
Proof.
  intros (H1 & H2 & H3 & H4 & H5) (K1 & K2 & K3 & K4 & K5).
  repeat split; congruence.
Qed.

Lemma register_keeps_ids_distinct listener registered :
  NoDup (map id registered) ->
  existsb (sameId listener) registered = false ->
  NoDup (map id (registered ++ [listener])).
Proof.
  intros Hnodup Hfresh. rewrite map_app. cbn [map].
  apply NoDup_app. split; [exact Hnodup|]. split; [|apply NoDup_singleton].
  intros x Hx Hin. apply list_elem_of_singleton in Hin. subst x.
  apply list_elem_of_In, in_map_iff in Hx as (r & Hid & Hr).
  assert (Htrue : existsb (sameId listener) registered = true).
  { apply existsb_exists. exists r. split; [exact Hr|].
    unfold sameId. apply String.eqb_eq. exact Hid. }
  congruence.
Qed.

Lemma withListener_keeps_ids_distinct key listener s :
  listenersDistinct s -> listenersDistinct (withListener key listener s).
Proof.
  intros Hs. unfold withListener. destruct listener as [l|]; [|exact Hs].
  destruct (existsb (sameId l) (listenersOf s key)) eqn:Hfresh; [exact Hs|].
  intros k ls. cbn [set_updateListener updateListener].
  destruct (string_dec key k) as [->|Hne].
  - rewrite lookup_insert_eq. intros H. simplify_eq.
    apply register_keeps_ids_distinct; [|exact Hfresh].
    unfold listenersOf. destruct (updateListener s !! k) as [old|] eqn:Hold; cbn.
    + apply (Hs k old Hold).
    + constructor.
  - rewrite lookup_insert_ne by exact Hne. apply Hs.
Qed.

Lemma listenersDistinct_same_listeners s s' :
  updateListener s' = updateListener s -> listenersDistinct s -> listenersDistinct s'.
Proof. intros Heq Hs k ls. rewrite Heq. apply Hs. Qed.

Section MoreCacheProperties.

Variable getTypeTagParamlessName : TypeTag -> string.
Variable getTypeTagFullname : TypeTag -> string.
Variable bigInt : string -> res Z.
Variable parseTypeTagOrThrow : string -> res TypeTag.

Local Abbreviation getResourceKey := (getResourceKey getTypeTagFullname).
Local Abbreviation loadResource :=
  (loadResource getTypeTagParamlessName getTypeTagFullname bigInt).
Local Abbreviation parse := (parse getTypeTagParamlessName getTypeTagFullname bigInt).
Local Abbreviation load := (load getTypeTagParamlessName getTypeTagFullname bigInt).
Local Abbreviation loadAccount :=
  (loadAccount getTypeTagParamlessName getTypeTagFullname bigInt parseTypeTagOrThrow).
Local Abbreviation loadAccount_resource :=
  (loadAccount_resource getTypeTagParamlessName getTypeTagFullname bigInt parseTypeTagOrThrow).
Local Abbreviation applyChange :=
  (applyChange getTypeTagParamlessName getTypeTagFullname bigInt parseTypeTagOrThrow).
Local Abbreviation updateFromTransactionResult :=
  (updateFromTransactionResult getTypeTagParamlessName getTypeTagFullname bigInt
     parseTypeTagOrThrow).
Local Abbreviation decodeEntry :=
  (decodeEntry getTypeTagParamlessName getTypeTagFullname bigInt parseTypeTagOrThrow).
Local Abbreviation decodedEntries :=
  (decodedEntries getTypeTagParamlessName getTypeTagFullname bigInt parseTypeTagOrThrow).
Local Abbreviation failureLogs :=
  (failureLogs getTypeTagParamlessName getTypeTagFullname bigInt parseTypeTagOrThrow).

Lemma applyChange_write_run address data_type data_data typeTag this :
  parseTypeTagOrThrow data_type = Ok typeTag ->
  let key := getResourceKey (HexString_new address) typeTag in
  applyChange (write_resource address data_type data_data) this =
    if has_key (cachedResources this) key
    then match parse (repo this) data_data typeTag with
         | Ok newValue =>
             {| returned := Ok tt;
                final := set_cachedResources <[key := newValue]> this;
                emitted := notifications type_update newValue (listenersOf this key) |}
         | Throw e => {| returned := Throw e; final := this; emitted := [] |}
         end
    else {| returned := Ok tt; final := this; emitted := [] |}.
Proof.
  intros Hparse key. unfold applyChange.
  rewrite (bind_liftR_Ok _ _ _ _ Hparse), bind_getThis. fold key.
  destruct (has_key (cachedResources this) key); [|reflexivity].
  destruct (parse (repo this) data_data typeTag) as [newValue|e].
  - cbn [liftR]. rewrite bind_ret. apply updateResource_run.
  - reflexivity.
Qed.

Lemma applyChange_changes_the_cache_only change this :
  onlyCacheChanged this (final (applyChange change this)).
Proof.
  destruct change as [address data_type data_data | address resource | type];
    unfold applyChange.
  - destruct (parseTypeTagOrThrow data_type) as [typeTag|e]; [|repeat split].
    cbn [liftR]. rewrite bind_ret, bind_getThis.
    destruct (has_key (cachedResources this) _); [|repeat split].
    destruct (parse (repo this) data_data typeTag) as [newValue|e]; [|repeat split].
    cbn [liftR]. rewrite bind_ret, updateResource_run. repeat split.
  - destruct (parseTypeTagOrThrow resource) as [typeTag|e]; [|repeat split].
    cbn [liftR]. rewrite bind_ret, bind_getThis.
    destruct (has_key (cachedResources this) _); [|repeat split].
    rewrite deleteResource_run. repeat split.
  - repeat split.
Qed.

(** X9: a [write_resource] change that is reached in a successful
    transaction.  For a key that is not cached nothing happens, and the
    written data is not decoded, so it cannot make the call throw; for a
    cached key the decoded value is stored and each listener of the key is
    called once with ['update'] and the value; when the data does not decode
    the call ends with that error, and the changes made so far are kept. *)
Theorem write_change_updates_a_cached_key_only
    txn this before address data_type data_data later typeTag reached events :
  success txn = true ->
  hash txn <> "0x0" ->
  changes txn = (before ++ write_resource address data_type data_data :: later)%list ->
  forEach before applyChange this
    = {| returned := Ok tt; final := reached; emitted := events |} ->
  parseTypeTagOrThrow data_type = Ok typeTag ->
  let key := getResourceKey (HexString_new address) typeTag in
  let o := updateFromTransactionResult txn this in
  (cachedResources reached !! key = None ->
   o = after events (forEach later applyChange reached)) /\
  (forall newValue,
     is_Some (cachedResources reached !! key) ->
     parse (repo reached) data_data typeTag = Ok newValue ->
     o = after (events ++ map (fun l => Called l type_update newValue)
                            (listenersOf reached key))
           (forEach later applyChange (set_cachedResources <[key := newValue]> reached))) /\
  (forall e,
     is_Some (cachedResources reached !! key) ->
     parse (repo reached) data_data typeTag = Throw e ->
     o = {| returned := Throw e; final := reached; emitted := events |}).
Proof.
  intros Hsuccess Hhash Hchanges Hbefore Hparse key o.
  assert (Ho : o = after events
                 (forEach (write_resource address data_type data_data :: later)
                    applyChange reached)).
  { subst o. unfold updateFromTransactionResult.
    rewrite Hsuccess. apply String.eqb_neq in Hhash. rewrite Hhash. cbn [andb negb].
    rewrite Hchanges. apply forEach_app_Ok, Hbefore. }
  rewrite forEach_cons in Ho.
  pose proof (applyChange_write_run address data_type data_data typeTag reached Hparse)
    as Hstep.
  fold key in Hstep. cbv zeta in Hstep. unfold has_key in Hstep. split; [|split].
  - intros Hnone. rewrite Hnone in Hstep.
    rewrite (bind_run _ _ _ _ _ _ Hstep), after_nil in Ho. exact Ho.
  - intros newValue [old Hold] Hdecode. rewrite Hold, Hdecode in Hstep.
    rewrite (bind_run _ _ _ _ _ _ Hstep), after_after in Ho. exact Ho.
  - intros e [old Hold] Hdecode. rewrite Hold, Hdecode in Hstep.
    rewrite (bind_throw _ _ _ _ _ _ Hstep) in Ho. rewrite Ho.
    unfold after. cbn [returned final emitted]. rewrite app_nil_r. reflexivity.
Qed.

(** X10: whatever the transaction, and also when the call throws,
    [updateFromTransactionResult] adds no key to the cache and leaves the
    listeners, the replay tuples, the watched addresses, the client and the
    repo as they were: a deleted resource keeps its listeners and its replay
    tuple. *)
Theorem updateFromTransactionResult_writes_cached_values_only txn this :
  let o := updateFromTransactionResult txn this in
  (forall key, cachedResources this !! key = None ->
               cachedResources (final o) !! key = None) /\
  onlyCacheChanged this (final o).
Proof.
  cbv zeta. unfold updateFromTransactionResult.
  destruct (success txn && negb (String.eqb (hash txn) "0x0")).
  - split.
    + intros key Hkey. apply forEach_applyChange_adds_no_key, Hkey.
    + apply (forEach_preserves onlyCacheChanged).
      * apply onlyCacheChanged_refl.
      * apply onlyCacheChanged_trans.
      * intros x s. apply applyChange_changes_the_cache_only.
  - split; [intros key Hkey; exact Hkey | apply onlyCacheChanged_refl].
Qed.

Lemma transaction_changes_the_cache_only txn this :
  onlyCacheChanged this (final (updateFromTransactionResult txn this)).
Proof.
  unfold updateFromTransactionResult.
  destruct (success txn && negb (String.eqb (hash txn) "0x0")).
  - apply (forEach_preserves onlyCacheChanged).
    + apply onlyCacheChanged_refl.
    + apply onlyCacheChanged_trans.
    + intros x s. apply applyChange_changes_the_cache_only.
  - apply onlyCacheChanged_refl.
Qed.

Lemma loadAccount_resource_keeps_ids_distinct address listener keys resource s :
  listenersDistinct s ->
  listenersDistinct (final (loadAccount_resource address listener keys resource s)).
Proof.
  intros Hs. rewrite loadAccount_resource_run.
  destruct (parseTypeTagOrThrow (ar_type resource)) as [typeTag|e]; [|exact Hs].
  destruct (parse (repo s) (ar_data resource) typeTag) as [value|e]; [|exact Hs].
  cbn [final]. apply withListener_keeps_ids_distinct.
  apply (listenersDistinct_same_listeners s); [reflexivity | exact Hs].
Qed.

(** The cache object that [loadAccount] ends with is the one its loop ends
    with, with the address watched when the loop did not throw. *)
Lemma loadAccount_final address listener this resources :
  getAccountResources (client this) address = Ok resources ->
  let loop := foldM (loadAccount_resource address listener) resources [] this in
  let o := loadAccount address listener this in
  emitted o = emitted loop /\
  match returned loop with
  | Ok keys =>
      returned o = Ok keys /\
      final o = set_watchedAddresses (Set_add address) (final loop)
  | Throw e => returned o = Throw e /\ final o = final loop
  end.
Proof.
  intros Hlist loop o. subst o. unfold loadAccount.
  rewrite bind_getThis, (bind_liftR_Ok _ _ _ _ Hlist). fold loop.
  destruct loop as [[keys|e] s1 ev1] eqn:Hloop.
  - rewrite (bind_run _ _ _ _ _ _ Hloop), bind_modify.
    unfold after, ret. cbn [returned final emitted]. rewrite app_nil_r. repeat split.
  - rewrite (bind_throw _ _ _ _ _ _ Hloop). repeat split.
Qed.

(** X11: the ids of the listeners of every key are distinct in a new cache
    and stay distinct through [addListenerForResource], [load],
    [loadAccount] and [updateFromTransactionResult], whether they return or
    throw. *)
Theorem listener_ids_stay_distinct :
  (forall client repo, listenersDistinct (AptosResourceCache_new client repo)) /\
  (forall this,
     listenersDistinct this ->
     (forall key listener,
        listenersDistinct (final (addListenerForResource key listener this))) /\
     (forall struct address typeParams listener,
        listenersDistinct (final (load struct address typeParams listener this))) /\
     (forall address listener,
        listenersDistinct (final (loadAccount address listener this))) /\
     (forall txn, listenersDistinct (final (updateFromTransactionResult txn this)))).
Proof.
  split.
  - intros client repo key listeners. cbn. rewrite lookup_empty. discriminate.
  - intros this Hthis. split; [|split; [|split]].
    + intros key listener.
      pose proof (registration_run key (Some listener) this) as Hrun.
      cbv beta iota in Hrun. rewrite Hrun. cbn [final].
      apply withListener_keeps_ids_distinct, Hthis.
    + intros struct address typeParams listener.
      destruct (loadResource (repo this) (client this) address struct typeParams)
        as [loaded|e] eqn:Hload.
      * rewrite (load_run _ _ _ _ _ _ _ _ _ Hload). cbn [final]. unfold afterLoad.
        apply withListener_keeps_ids_distinct.
        apply (listenersDistinct_same_listeners this); [reflexivity | exact Hthis].
      * rewrite (load_throw _ _ _ _ _ _ _ _ _ Hload). exact Hthis.
    + intros address listener.
      destruct (getAccountResources (client this) address) as [resources|e] eqn:Hlist.
      * pose proof (loadAccount_final address listener this resources Hlist) as Hfinal.
        cbv zeta in Hfinal. destruct Hfinal as [_ Hfinal].
        assert (Hloop : listenersDistinct
                          (final (foldM (loadAccount_resource address listener)
                                    resources [] this))).
        { apply (foldM_preserves
                   (fun s s' => listenersDistinct s -> listenersDistinct s'));
            [auto | auto | | exact Hthis].
          intros acc x s. apply loadAccount_resource_keeps_ids_distinct. }
        destruct (returned (foldM (loadAccount_resource address listener) resources [] this))
          as [keys|e]; destruct Hfinal as [_ ->]; [|exact Hloop].
        apply (listenersDistinct_same_listeners _ _ eq_refl Hloop).
      * unfold loadAccount. rewrite bind_getThis, (bind_liftR_Throw _ _ _ _ Hlist).
        exact Hthis.
    + intros txn. destruct (transaction_changes_the_cache_only txn this) as [Hsame _].
      apply (listenersDistinct_same_listeners this _ Hsame Hthis).
Qed.

(** X12: what a [load] that obtained a value records beside the value: the
    replay tuple of the key, replacing an earlier one; the listener, so that
    afterwards a listener with its id is registered for the key.  No
    listener is removed, the listeners of the other keys and the watched
    addresses are as before, and without a listener argument the listeners
    are unchanged. *)
Theorem load_records_the_replay_tuple_and_the_listener
    struct address typeParams listener this loaded :
  loadResource (repo this) (client this) address struct typeParams = Ok loaded ->
  let key :=
    getResourceKey address
      (StructTag (moduleAddress struct) (moduleName struct) (structName struct) typeParams) in
  let o := load struct address typeParams listener this in
  resourceKeyToLoadParams (final o)
  = <[key := (struct, address, typeParams)]> (resourceKeyToLoadParams this) /\
  watchedAddresses (final o) = watchedAddresses this /\
  (forall l, listener = Some l -> registeredFor l (final o) key) /\
  (listener = None -> updateListener (final o) = updateListener this) /\
  (forall r, In r (listenersOf this key) -> In r (listenersOf (final o) key)) /\
  (forall other, other <> key -> listenersOf (final o) other = listenersOf this other).
Proof.
  intros Hload key o. subst o. rewrite (load_run _ _ _ _ _ _ _ _ _ Hload).
  cbn [final]. unfold afterLoad. fold key.
  set (stored := set_resourceKeyToLoadParams _ (set_cachedResources _ this)).
  assert (Hlisteners : forall k, listenersOf stored k = listenersOf this k) by reflexivity.
  unfold withListener, registeredFor. destruct listener as [l|].
  - rewrite Hlisteners.
    destruct (existsb (sameId l) (listenersOf this key)) eqn:Hknown.
    + repeat split; try discriminate.
      * intros l' H. simplify_eq. rewrite Hlisteners. exact Hknown.
      * intros r Hr. exact Hr.
    + repeat split; try discriminate.
      * intros l' H. simplify_eq. unfold listenersOf at 1.
        cbn [set_updateListener updateListener]. rewrite lookup_insert_eq.
        cbn [default from_option Datatypes.id]. rewrite existsb_app.
        apply orb_true_iff. right. cbn [existsb]. unfold sameId.
        rewrite String.eqb_refl. reflexivity.
      * intros r Hr. unfold listenersOf at 1.
        cbn [set_updateListener updateListener]. rewrite lookup_insert_eq.
        cbn [default from_option Datatypes.id]. apply in_or_app. left. exact Hr.
      * intros other Hne. unfold listenersOf at 1.
        cbn [set_updateListener updateListener].
        rewrite lookup_insert_ne by congruence. reflexivity.
  - repeat split; try discriminate. intros r Hr. exact Hr.
Qed.

Lemma loadAccount_fetch_throws address listener this e :
  getAccountResources (client this) address = Throw e ->
  loadAccount address listener this
  = {| returned := Throw e; final := this; emitted := [] |}.
Proof.
  intros Hlist. unfold loadAccount. rewrite bind_getThis.
  apply bind_liftR_Throw, Hlist.
Qed.

Lemma no_log_among_notifications type value listeners :
  List.filter isConsoleLog (notifications type value listeners) = [].
Proof. induction listeners as [|l ls IH]; [reflexivity | exact IH]. Qed.

(** The loop of [loadAccount] over entries whose type texts parse. *)
Lemma loadAccount_loop_best_effort address listener resources keys this :
  Forall (fun r => exists t, parseTypeTagOrThrow (ar_type r) = Ok t) resources ->
  exists s ev,
    foldM (loadAccount_resource address listener) resources keys this
    = {| returned := Ok (keys ++ map fst (decodedEntries (repo this) address resources))%list;
         final := s; emitted := ev |} /\
    cachedResources s
    = insertAll (decodedEntries (repo this) address resources) (cachedResources this) /\
    repo s = repo this /\
    List.filter isConsoleLog ev = failureLogs (repo this) address resources.
Proof.
  revert keys this. induction resources as [|r rs IH]; intros keys this Hall.
  - exists this, []. cbn. rewrite app_nil_r. repeat split.
  - inversion Hall as [|? ? [typeTag Hparse] Hrest]; subst.
    rewrite foldM_cons.
    set (key := getResourceKey address typeTag).
    assert (Hentry : decodeEntry (repo this) address r
                     = (value <- parse (repo this) (ar_data r) typeTag ;;
                        Ok (key, value))%result).
    { unfold decodeEntry. rewrite Hparse. reflexivity. }
    assert (Hd : decodedEntries (repo this) address (r :: rs)
                 = (match decodeEntry (repo this) address r with
                    | Ok kv => [kv]
                    | Throw _ => []
                    end ++ decodedEntries (repo this) address rs)%list) by reflexivity.
    assert (Hf : failureLogs (repo this) address (r :: rs)
                 = (match decodeEntry (repo this) address r with
                    | Ok _ => []
                    | Throw _ =>
                        [ConsoleLog ("Failed to parse resource of type: " +:+ ar_type r)]
                    end ++ failureLogs (repo this) address rs)%list) by reflexivity.
    rewrite Hd, Hf, Hentry. clear Hd Hf Hentry.
    destruct (parse (repo this) (ar_data r) typeTag) as [value|e] eqn:Hdecode; cbn [bindR].
    + erewrite bind_run.
      2:{ rewrite loadAccount_resource_run, Hparse, Hdecode. reflexivity. }
      fold key.
      destruct (withListener_frame key listener (set_cachedResources <[key := value]> this))
        as (Hc & _ & Hrepo & _).
      destruct (IH (keys ++ [key])%list
                  (withListener key listener (set_cachedResources <[key := value]> this))
                  Hrest)
        as (s & ev & Hrun & Hcached & Hrepo' & Hlogs).
      rewrite Hrepo in Hrun, Hcached, Hlogs.
      cbn [repo set_cachedResources] in Hrun, Hcached, Hlogs.
      eexists s, _. rewrite Hrun. unfold after. cbn [returned final emitted map fst app].
      rewrite <- app_assoc. cbn [app]. repeat split.
      * rewrite Hcached, Hc. reflexivity.
      * rewrite Hrepo', Hrepo. reflexivity.
      * rewrite List.filter_app, Hlogs.
        destruct (has_key (cachedResources this) key);
          [rewrite no_log_among_notifications|]; reflexivity.
    + erewrite bind_run.
      2:{ rewrite loadAccount_resource_run, Hparse, Hdecode. reflexivity. }
      destruct (IH keys this Hrest) as (s & ev & Hrun & Hcached & Hrepo' & Hlogs).
      eexists s, _. rewrite Hrun. unfold after. cbn [returned final emitted app].
      repeat split.
      * exact Hcached.
      * exact Hrepo'.
      * cbn [List.filter isConsoleLog app]. rewrite Hlogs. reflexivity.
Qed.

(** X13: [loadAccount] is best effort over the entries whose data does not
    decode, however many there are.  When the request fails it throws that
    error and the cache object is the one before the call.  When the request
    returns a list whose type texts all parse it returns normally: the
    result is the keys of the entries that decode, in order; these entries
    are cached with their values; one line is logged for each entry that
    does not decode, in order; and the address is watched. *)
Theorem loadAccount_keeps_what_decodes_and_logs_the_rest address listener this :
  (forall e,
     getAccountResources (client this) address = Throw e ->
     loadAccount address listener this
     = {| returned := Throw e; final := this; emitted := [] |}) /\
  (forall resources,
     getAccountResources (client this) address = Ok resources ->
     Forall (fun r => exists t, parseTypeTagOrThrow (ar_type r) = Ok t) resources ->
     let o := loadAccount address listener this in
     let decoded := decodedEntries (repo this) address resources in
     returned o = Ok (map fst decoded) /\
     cachedResources (final o) = insertAll decoded (cachedResources this) /\
     List.filter isConsoleLog (emitted o) = failureLogs (repo this) address resources /\
     In address (watchedAddresses (final o))).
Proof.
  split; [intros e; apply loadAccount_fetch_throws|].
  intros resources Hlist Hall o decoded.
  destruct (loadAccount_loop_best_effort address listener resources [] this Hall)
    as (s & ev & Hrun & Hcached & _ & Hlogs).
  pose proof (loadAccount_final address listener this resources Hlist) as Hfinal.
  cbv zeta in Hfinal. rewrite Hrun in Hfinal. cbn [returned final emitted app] in Hfinal.
  destruct Hfinal as (Hev & Hret & Hfin). subst o decoded.
  rewrite Hret, Hfin, Hev. repeat split.
  - exact Hcached.
  - exact Hlogs.
  - cbn [set_watchedAddresses watchedAddresses]. apply Set_add_In.
Qed.

Lemma registeredFor_kept l key listener value s k :
  registeredFor l s k ->
  registeredFor l (withListener key listener (set_cachedResources <[key := value]> s)) k.
Proof.
  unfold registeredFor, withListener. intros Hk.
  change (listenersOf (set_cachedResources <[key := value]> s) key)
    with (listenersOf s key).
  destruct listener as [l'|]; [|exact Hk].
  destruct (existsb (sameId l') (listenersOf s key)); [exact Hk|].
  unfold listenersOf at 1. cbn [set_updateListener set_cachedResources updateListener].
  destruct (string_dec key k) as [->|Hne].
  - rewrite lookup_insert_eq. cbn [default from_option Datatypes.id].
    rewrite existsb_app, Hk. reflexivity.
  - rewrite lookup_insert_ne by exact Hne. exact Hk.
Qed.

Lemma registeredFor_after_registration l key value s :
  registeredFor l (withListener key (Some l) (set_cachedResources <[key := value]> s)) key.
Proof.
  unfold registeredFor, withListener.
  change (listenersOf (set_cachedResources <[key := value]> s) key)
    with (listenersOf s key).
  destruct (existsb (sameId l) (listenersOf s key)) eqn:Hknown; [exact Hknown|].
  unfold listenersOf at 1. cbn [set_updateListener set_cachedResources updateListener].
  rewrite lookup_insert_eq. cbn [default from_option Datatypes.id].
  rewrite existsb_app. apply orb_true_iff. right. cbn [existsb]. unfold sameId.
  rewrite String.eqb_refl. reflexivity.
Qed.

Lemma loadAccount_loop_registers address l resources :
  forall keys this keys' s ev,
    foldM (loadAccount_resource address (Some l)) resources keys this
    = {| returned := Ok keys'; final := s; emitted := ev |} ->
    (forall k, In k keys -> registeredFor l this k) ->
    forall k, In k keys' -> registeredFor l s k.
Proof.
  induction resources as [|r rs IH]; intros keys this keys' s ev Hrun Hkeys.
  - cbv [foldM ret] in Hrun. simplify_eq. exact Hkeys.
  - rewrite foldM_cons in Hrun.
    pose proof (loadAccount_resource_run getTypeTagParamlessName getTypeTagFullname bigInt
                  parseTypeTagOrThrow address (Some l) keys r this) as Hstep.
    destruct (parseTypeTagOrThrow (ar_type r)) as [typeTag|e].
    2:{ rewrite (bind_throw _ _ _ _ _ _ Hstep) in Hrun. discriminate. }
    destruct (parse (repo this) (ar_data r) typeTag) as [value|e].
    + cbv zeta in Hstep. rewrite (bind_run _ _ _ _ _ _ Hstep) in Hrun.
      destruct (foldM (loadAccount_resource address (Some l)) rs _ _) as [r2 s2 ev2] eqn:Hrs
        in Hrun.
      unfold after in Hrun. cbn [returned final emitted] in Hrun. simplify_eq.
      apply (IH _ _ _ _ _ Hrs).
      intros k Hk. apply in_app_or in Hk as [Hk|[<-|[]]].
      * apply registeredFor_kept, Hkeys, Hk.
      * apply registeredFor_after_registration.
    + rewrite (bind_run _ _ _ _ _ _ Hstep) in Hrun.
      destruct (foldM (loadAccount_resource address (Some l)) rs _ _) as [r2 s2 ev2] eqn:Hrs
        in Hrun.
      unfold after in Hrun. cbn [returned final emitted] in Hrun. simplify_eq.
      apply (IH _ _ _ _ _ Hrs), Hkeys.
Qed.

Lemma loadAccount_resource_without_listener address keys resource s :
  updateListener (final (loadAccount_resource address None keys resource s))
  = updateListener s.
Proof.
  rewrite loadAccount_resource_run.
  destruct (parseTypeTagOrThrow (ar_type resource)) as [typeTag|e]; [|reflexivity].
  destruct (parse (repo s) (ar_data resource) typeTag) as [value|e]; reflexivity.
Qed.

(** X14: the listener argument of [loadAccount].  When the call returns, a
    listener with the argument's id is registered for every key of the
    result; without a listener argument the listeners are the ones before
    the call, whether the call returns or throws. *)
Theorem loadAccount_registers_the_listener_for_every_key address this :
  (forall l keys,
     returned (loadAccount address (Some l) this) = Ok keys ->
     forall k, In k keys -> registeredFor l (final (loadAccount address (Some l) this)) k) /\
  updateListener (final (loadAccount address None this)) = updateListener this.
Proof.
  destruct (getAccountResources (client this) address) as [resources|e] eqn:Hlist.
  2:{ split.
      - intros l keys Hret. rewrite (loadAccount_fetch_throws _ _ _ _ Hlist) in Hret.
        discriminate.
      - rewrite (loadAccount_fetch_throws _ _ _ _ Hlist). reflexivity. }
  split.
  - intros l keys Hret k Hk.
    pose proof (loadAccount_final address (Some l) this resources Hlist) as Hfinal.
    cbv zeta in Hfinal. destruct Hfinal as [_ Hfinal].
    destruct (foldM (loadAccount_resource address (Some l)) resources [] this)
      as [[keys1|e] s1 ev1] eqn:Hloop; cbn [returned final] in Hfinal.
    + destruct Hfinal as [Hret' ->]. rewrite Hret' in Hret. simplify_eq.
      assert (Hreg : registeredFor l s1 k).
      { apply (loadAccount_loop_registers _ _ _ _ _ _ _ _ Hloop); [intros ? []|exact Hk]. }
      exact Hreg.
    + destruct Hfinal as [Hret' _]. rewrite Hret' in Hret. discriminate.
  - pose proof (loadAccount_final address None this resources Hlist) as Hfinal.
    cbv zeta in Hfinal. destruct Hfinal as [_ Hfinal].
    assert (Hloop : updateListener
                      (final (foldM (loadAccount_resource address None) resources [] this))
                    = updateListener this).
    { apply (foldM_preserves (fun s s' => updateListener s' = updateListener s));
        [reflexivity | intros a b c H1 H2; congruence |].
      intros acc x s. apply loadAccount_resource_without_listener. }
    destruct (returned (foldM (loadAccount_resource address None) resources [] this));
      destruct Hfinal as [_ ->]; exact Hloop.
Qed.

End MoreCacheProperties.

(** ** Properties of the generator *)

Lemma append_assoc_str (a b c : string) : (a +:+ b) +:+ c = a +:+ (b +:+ c).
Proof.
  induction a as [|x a IH]; [reflexivity|].
  change (String x ((a +:+ b) +:+ c) = String x (a +:+ (b +:+ c))).
  rewrite IH. reflexivity.
Qed.

Lemma append_empty_r (a : string) : a +:+ "" = a.
Proof.
  induction a as [|x a IH]; [reflexivity|].
  change (String x (a +:+ "") = String x a). rewrite IH. reflexivity.
Qed.

Lemma brackets_snoc n : brackets n +:+ "[]" = brackets (S n).
Proof.
  induction n as [|n IH]; [reflexivity|].
  change (String "[" (String "]" (brackets n +:+ "[]"))
          = String "[" (String "]" (brackets (S n)))).
  rewrite IH. reflexivity.
Qed.

Lemma gbind_Ok {A B} (m : G A) (k : A -> G B) st a st' :
  m st = (Ok a, st') -> gbind m k st = k a st'.
Proof. intros H. unfold gbind. rewrite H. reflexivity. Qed.

Lemma gbind_Throw {A B} (m : G A) (k : A -> G B) st e st' :
  m st = (Throw e, st') -> gbind m k st = (Throw e, st').
Proof. intros H. unfold gbind. rewrite H. reflexivity. Qed.

Lemma addTo_keeps {A} (eqb : A -> A -> bool) x y set : In y set -> In y (addTo eqb x set).
Proof.
  intros H. unfold addTo. destruct (existsb (eqb x) set); [exact H|].
  apply in_or_app. left. exact H.
Qed.

Lemma addTo_In {A} (eqb : A -> A -> bool) x set :
  (forall a b, eqb a b = true -> a = b) -> In x (addTo eqb x set).
Proof.
  intros Heqb. unfold addTo. destruct (existsb (eqb x) set) eqn:E.
  - apply existsb_exists in E as (y & Hy & Hxy). apply Heqb in Hxy. subst y. exact Hy.
  - apply in_or_app. right. left. reflexivity.
Qed.

Lemma IMPORT_eqb_eq a b : IMPORT_eqb a b = true -> a = b.
Proof. destruct a, b; cbn; intros H; first [reflexivity | discriminate H]. Qed.

Lemma String_eqb_true a b : String.eqb a b = true -> a = b.
Proof. apply String.eqb_eq. Qed.

Lemma typeTagToTsType_VectorTag elementType module allowStruct st :
  typeTagToTsType (VectorTag elementType) module allowStruct st =
    match typeTagToTsType elementType module allowStruct st with
    | (Ok innerTsType, st') => (Ok (innerTsType +:+ "[]"), st')
    | (Throw e, st') => (Throw e, st')
    end.
Proof.
  cbn [typeTagToTsType]. unfold gbind.
  destruct (typeTagToTsType elementType module allowStruct st) as [[inner|e] st'];
    reflexivity.
Qed.

Lemma typeTagToTsType_innermost typeTag module allowStruct st :
  typeTagToTsType typeTag module allowStruct st =
    match typeTagToTsType (innermost typeTag) module allowStruct st with
    | (Ok base, st') => (Ok (base +:+ brackets (vectorDepth typeTag)), st')
    | (Throw e, st') => (Throw e, st')
    end.
Proof.
  induction typeTag as [a|elementType IH|address tagModule tagName typeParams|index].
  2:{ rewrite typeTagToTsType_VectorTag, IH. cbn [innermost vectorDepth].
      destruct (typeTagToTsType (innermost elementType) module allowStruct st)
        as [[base|e] st']; [|reflexivity].
      rewrite append_assoc_str, brackets_snoc. reflexivity. }
  all: cbn [innermost vectorDepth brackets].
  all: match goal with
       | |- ?run = _ => destruct run as [[base|e] st']; [rewrite append_empty_r|]; reflexivity
       end.
Qed.

(** X15: a vector type is the type of its elements followed by [[]]: the
    text that [typeTagToTsType] returns is the text for the innermost
    element type followed by one [[]] per vector level, and the throw and
    the imports are those of the innermost element type. *)
Theorem typeTagToTsType_appends_brackets_per_vector_level typeTag module allowStruct st :
  typeTagToTsType typeTag module allowStruct st =
    match typeTagToTsType (innermost typeTag) module allowStruct st with
    | (Ok base, st') => (Ok (base +:+ brackets (vectorDepth typeTag)), st')
    | (Throw e, st') => (Throw e, st')
    end.
Proof. apply typeTagToTsType_innermost. Qed.

Lemma innermost_not_vector typeTag elementType : innermost typeTag <> VectorTag elementType.
Proof. induction typeTag; cbn; try discriminate. exact IHtypeTag. Qed.

Lemma typeTagToTsType_refused typeTag module allowStruct st :
  if refusedType allowStruct typeTag
  then typeTagToTsType typeTag module allowStruct st
       = (Throw (StructTagNotAllowed (innermost typeTag)), st)
  else exists tsType st',
         typeTagToTsType typeTag module allowStruct st = (Ok tsType, st') /\
         lines st' = lines st.
Proof.
  rewrite typeTagToTsType_innermost. unfold refusedType.
  pose proof (innermost_not_vector typeTag) as Hnv.
  destruct (innermost typeTag) as [a|elementType|address tagModule tagName typeParams|index].
  - cbn [isStruct andb]. rewrite andb_false_r. cbn [andb].
    destruct a; cbn; eexists _, _; split; reflexivity.
  - exfalso. apply (Hnv elementType). reflexivity.
  - cbn [isStruct isAsciiStruct typeTagToTsType].
    destruct (String.eqb tagModule "ASCII" && String.eqb (toShortString address) "0x1").
    + rewrite andb_false_r. cbn. eexists _, _; split; reflexivity.
    + destruct allowStruct; cbn [negb andb].
      * destruct (String.eqb (toShortString address)
                    (toShortString (HexString_new (mod_address module))));
          [destruct (String.eqb tagModule (mod_module module))|];
          cbn; eexists _, _; split; reflexivity.
      * reflexivity.
  - cbn [isStruct andb]. rewrite andb_false_r. cbn. eexists _, _; split; reflexivity.
Qed.

(** X16: [typeTagToTsType] throws exactly when structs are not allowed and
    the type is, under its vectors, a struct outside the module
    [0x1::ASCII]; it then leaves the generator as it was.  In every other
    case it returns a text and emits no line.  A struct of the module
    [ASCII] at the short address [0x1] is the type [string] whatever its
    name, also when structs are not allowed, and needs no import. *)
Theorem typeTagToTsType_refuses_only_a_struct_that_is_not_allowed
    typeTag module allowStruct st :
  (refusedType allowStruct typeTag = true ->
   typeTagToTsType typeTag module allowStruct st
   = (Throw (StructTagNotAllowed (innermost typeTag)), st)) /\
  (refusedType allowStruct typeTag = false ->
   exists tsType st',
     typeTagToTsType typeTag module allowStruct st = (Ok tsType, st') /\
     lines st' = lines st) /\
  (isAsciiStruct (innermost typeTag) = true ->
   typeTagToTsType typeTag module allowStruct st
   = (Ok ("string" +:+ brackets (vectorDepth typeTag)), st)).
Proof.
  pose proof (typeTagToTsType_refused typeTag module allowStruct st) as H.
  split; [|split].
  - intros Hr. rewrite Hr in H. exact H.
  - intros Hr. rewrite Hr in H. exact H.
  - intros Hascii. rewrite typeTagToTsType_innermost.
    destruct (innermost typeTag) as [a|e|address tagModule tagName typeParams|i];
      try discriminate.
    cbn [isAsciiStruct] in Hascii. cbn [typeTagToTsType]. rewrite Hascii. reflexivity.
Qed.

(** X17: what the returned type names is imported.  After a call that
    returns, the import sets hold what they held; [BIGINT] is imported for a
    type over [u64] or [u128] and [HEXSTRING] for a type over [address]; for
    a struct of another address the name [X<address>] that prefixes the type
    is among the imported addresses, and for a struct of another module of
    the same address the module is among the imported modules. *)
Theorem typeTagToTsType_imports_what_the_type_names
    typeTag module allowStruct st tsType st' :
  typeTagToTsType typeTag module allowStruct st = (Ok tsType, st') ->
  (forall i, In i (imports st) -> In i (imports st')) /\
  (forall a, In a (importedAddresses st) -> In a (importedAddresses st')) /\
  (forall m, In m (importedModulesUnderSameAddress st) ->
             In m (importedModulesUnderSameAddress st')) /\
  (innermost typeTag = TAtomic U64 \/ innermost typeTag = TAtomic U128 ->
   In BIGINT (imports st')) /\
  (innermost typeTag = TAtomic Address -> In HEXSTRING (imports st')) /\
  (forall address tagModule tagName typeParams,
     innermost typeTag = StructTag address tagModule tagName typeParams ->
     isAsciiStruct (innermost typeTag) = false ->
     if String.eqb (toShortString address)
                   (toShortString (HexString_new (mod_address module)))
     then tagModule = mod_module module \/
          (In tagModule (importedModulesUnderSameAddress st') /\
           tsType = (tagModule +:+ "." +:+ tagName) +:+ brackets (vectorDepth typeTag))
     else In ("X" +:+ hex address) (importedAddresses st') /\
          tsType = ("X" +:+ hex address +:+ "." +:+ tagModule +:+ "." +:+ tagName)
                   +:+ brackets (vectorDepth typeTag)).
Proof.
  rewrite typeTagToTsType_innermost.
  pose proof (innermost_not_vector typeTag) as Hnv.
  destruct (innermost typeTag) as [a|elementType|address tagModule tagName typeParams|index].
  - destruct a; cbn; intros H; simplify_eq; cbn.
    all: repeat split; try (intros; assumption); try discriminate;
      try (intros [?|?]; discriminate).
    all: try (intros; apply addTo_keeps; assumption).
    all: try (intros; apply addTo_In, IMPORT_eqb_eq).
  - exfalso. apply (Hnv elementType). reflexivity.
  - cbn [typeTagToTsType isAsciiStruct].
    destruct (String.eqb tagModule "ASCII" && String.eqb (toShortString address) "0x1").
    { cbn. intros H. simplify_eq.
      repeat split; try (intros; assumption); try discriminate;
        try (intros [?|?]; discriminate). }
    destruct allowStruct; cbn [negb]; [|discriminate].
    destruct (String.eqb (toShortString address)
                (toShortString (HexString_new (mod_address module)))) eqn:Hsame;
      cbn [andb].
    + destruct (String.eqb_spec tagModule (mod_module module)) as [Hmod|Hmod].
      * cbn. intros H. simplify_eq.
        repeat split; try (intros; assumption); try discriminate;
          try (intros [?|?]; discriminate).
        intros a m n tps Heq _. simplify_eq. rewrite Hsame. left. reflexivity.
      * cbn. intros H. simplify_eq. cbn.
        repeat split; try (intros; assumption); try discriminate;
          try (intros [?|?]; discriminate).
        -- intros; apply addTo_keeps; assumption.
        -- intros a m n tps Heq _. simplify_eq. rewrite Hsame. right.
           split; [apply addTo_In, String_eqb_true | reflexivity].
    + cbn. intros H. simplify_eq. cbn.
      repeat split; try (intros; assumption); try discriminate;
        try (intros [?|?]; discriminate).
      * intros; apply addTo_keeps; assumption.
      * intros a m n tps Heq _. simplify_eq. rewrite Hsame.
        split; [apply addTo_In, String_eqb_true | reflexivity].
  - cbn. intros H. simplify_eq.
    repeat split; try (intros; assumption); try discriminate;
      try (intros [?|?]; discriminate).
Qed.

Lemma isAcceptableConstantType_innermost tag :
  isAcceptableConstantType tag = isAtomic (innermost tag).
Proof. induction tag; cbn; try reflexivity. assumption. Qed.

Lemma handler_Ok_iff_plain tag param :
  (exists tsHandler, getTsHandlerForScriptFunctionParameter tag param = Ok tsHandler) <->
  isPlainParameterType tag = true.
Proof.
  unfold getTsHandlerForScriptFunctionParameter.
  destruct tag as [a|elementType|address tagModule tagName typeParams|index].
  - cbn. destruct a; split; eauto.
  - cbn [isAcceptableConstantType isPlainParameterType].
    destruct elementType as [a|inner|address tagModule tagName typeParams|index].
    + cbn. destruct a; split; eauto.
    + destruct (isAcceptableConstantType (VectorTag inner)); cbn [negb];
        split; try discriminate; intros [s Hs]; discriminate.
    + cbn. split; try discriminate. intros [s Hs]; discriminate.
    + cbn. split; try discriminate. intros [s Hs]; discriminate.
  - cbn. split; try discriminate. intros [s Hs]; discriminate.
  - cbn. split; try discriminate. intros [s Hs]; discriminate.
Qed.

(** X18: the parameter types of a script function.
    [getTsHandlerForScriptFunctionParameter] returns a text exactly for an
    atomic type and for a vector of an atomic type.
    [isAcceptableConstantType] accepts more: every atomic type under any
    number of vector levels; so a vector of vectors passes the first check
    and is refused by the second throw.  These two are the only throws that
    are reached. *)
Theorem script_function_parameters_are_atomic_or_vectors_of_atomic tag param :
  ((exists tsHandler, getTsHandlerForScriptFunctionParameter tag param = Ok tsHandler) <->
   isPlainParameterType tag = true) /\
  isAcceptableConstantType tag = isAtomic (innermost tag) /\
  (forall e,
     getTsHandlerForScriptFunctionParameter tag param = Throw e ->
     (isAcceptableConstantType tag = false /\ e = NotAcceptableParameterType tag) \/
     (isAcceptableConstantType tag = true /\ (2 <= vectorDepth tag)%nat /\
      e = VectorNotSupported tag)).
Proof.
  split; [apply handler_Ok_iff_plain|]. split; [apply isAcceptableConstantType_innermost|].
  intros e. unfold getTsHandlerForScriptFunctionParameter.
  destruct (isAcceptableConstantType tag) eqn:Hacc; cbn [negb].
  - destruct tag as [a|elementType|address tagModule tagName typeParams|index];
      try discriminate.
    + destruct a; discriminate.
    + cbn [isAcceptableConstantType] in Hacc.
      destruct elementType as [a|inner|address tagModule tagName typeParams|index];
        try discriminate.
      * destruct a; discriminate.
      * intros H. simplify_eq. right. repeat split. cbn. lia.
  - intros H. simplify_eq. left. split; reflexivity.
Qed.

(** X19: [generateConstant] emits one line for a constant of type [bool],
    [u8], [u64] or [u128], and imports [BIGINT] for the last two; for every
    other type text, [address] included, it throws and leaves the generator
    as it was. *)
Theorem generateConstant_supports_four_types constant st :
  let supported :=
    In (const_type constant) ["bool"; "u8"; "u64"; "u128"] in
  (supported ->
   exists line st',
     generateConstant constant st = (Ok tt, st') /\
     lines st' = (lines st ++ [line])%list /\
     (forall i, In i (imports st) -> In i (imports st')) /\
     (const_type constant = "u64" \/ const_type constant = "u128" ->
      In BIGINT (imports st'))) /\
  (~ supported ->
   generateConstant constant st
   = (Throw (UnsupportedConstantType (const_type constant)), st)).
Proof.
  cbv zeta. unfold generateConstant. cbn [AtomicTypeTag_value In].
  destruct (String.eqb_spec (const_type constant) "bool") as [Hb|Hb].
  { split; [|intros Hn; exfalso; apply Hn; left; congruence].
    intros _. eexists _, _. split; [reflexivity|]. cbn. split; [reflexivity|].
    split; [intros; assumption|]. rewrite Hb. intros [?|?]; discriminate. }
  destruct (String.eqb_spec (const_type constant) "u8") as [H8|H8].
  { split; [|intros Hn; exfalso; apply Hn; right; left; congruence].
    intros _. eexists _, _. split; [reflexivity|]. cbn. split; [reflexivity|].
    split; [intros; assumption|]. rewrite H8. intros [?|?]; discriminate. }
  destruct (String.eqb_spec (const_type constant) "u64") as [H64|H64].
  { split; [|intros Hn; exfalso; apply Hn; right; right; left; congruence].
    intros _. eexists _, _. split; [reflexivity|]. cbn. split; [reflexivity|].
    split; [intros; apply addTo_keeps; assumption|].
    intros _. apply addTo_In, IMPORT_eqb_eq. }
  destruct (String.eqb_spec (const_type constant) "u128") as [H128|H128].
  { split; [|intros Hn; exfalso; apply Hn; right; right; right; left; congruence].
    intros _. eexists _, _. split; [reflexivity|]. cbn. split; [reflexivity|].
    split; [intros; apply addTo_keeps; assumption|].
    intros _. apply addTo_In, IMPORT_eqb_eq. }
  cbn [orb]. split; [|reflexivity].
  intros [?|[?|[?|[?|[]]]]]; congruence.
Qed.

Lemma gbind_total {A B} (m : G A) (k : A -> G B) st a :
  fst (m st) = Ok a -> gbind m k st = k a (snd (m st)).
Proof. unfold gbind. destruct (m st) as [r st']. cbn. intros ->. reflexivity. Qed.

Lemma gbind_Ok_iff {A B} (m : G A) (k : A -> G B) st b :
  fst (gbind m k st) = Ok b <->
  exists a, fst (m st) = Ok a /\ fst (k a (snd (m st))) = Ok b.
Proof.
  unfold gbind. destruct (m st) as [[a|e] st']; cbn.
  - split; [intros H; exists a; split; [reflexivity | exact H]|].
    intros (a' & Ha & H). simplify_eq. exact H.
  - split; [discriminate | intros (a' & Ha & _); discriminate].
Qed.

Lemma gforEach_Ok_iff {A} (body : A -> G unit) (Q : A -> Prop) :
  (forall x st, fst (body x st) = Ok tt <-> Q x) ->
  forall xs st, fst (gforEach xs body st) = Ok tt <-> Forall Q xs.
Proof.
  intros Hbody. induction xs as [|x xs IH]; intros st.
  - cbn. split; [constructor | reflexivity].
  - cbn [gforEach]. rewrite gbind_Ok_iff. split.
    + intros ([] & Hx & Hrest). constructor.
      * exact (proj1 (Hbody x st) Hx).
      * exact (proj1 (IH _) Hrest).
    + intros H. inversion H as [|? ? Hx Hrest]; subst. exists tt. split.
      * exact (proj2 (Hbody x st) Hx).
      * exact (proj2 (IH _) Hrest).
Qed.

Lemma plain_type_is_not_refused tag :
  isPlainParameterType tag = true -> refusedType false tag = false.
Proof.
  destruct tag as [a|[a| | |]| |]; try discriminate; reflexivity.
Qed.

Section GeneratorProperties.

Variable parseTypeTagOrThrow : string -> res TypeTag.

Local Abbreviation generateScriptFunction := (generateScriptFunction parseTypeTagOrThrow).

Lemma parameter_declaration_Ok_iff module param st :
  fst ((tag <- gliftTag (parseTypeTagOrThrow (param_type param)) ;;
        tsType <- typeTagToTsType tag module false ;;
        emitln ("  " +:+ param_name param +:+ ": " +:+ tsType +:+ ","))%gen st) = Ok tt <->
  exists tag, parseTypeTagOrThrow (param_type param) = Ok tag /\ refusedType false tag = false.
Proof.
  rewrite gbind_Ok_iff. split.
  - intros (tag & Htag & Hrest).
    destruct (parseTypeTagOrThrow (param_type param)) as [tag'|e]; [|discriminate].
    cbn in Htag. simplify_eq. exists tag. split; [reflexivity|].
    cbn [gliftTag gret snd] in Hrest. apply gbind_Ok_iff in Hrest as (tsType & Hts & _).
    pose proof (typeTagToTsType_refused tag module false st) as Href.
    destruct (refusedType false tag); [|reflexivity].
    rewrite Href in Hts. discriminate.
  - intros (tag & Htag & Href). exists tag. rewrite Htag. split; [reflexivity|].
    cbn [gliftTag gret snd]. apply gbind_Ok_iff.
    pose proof (typeTagToTsType_refused tag module false st) as Hrun.
    rewrite Href in Hrun. destruct Hrun as (tsType & st' & Hrun & _).
    exists tsType. rewrite Hrun. split; reflexivity.
Qed.

Lemma parameter_argument_Ok_iff param st :
  fst ((tag <- gliftTag (parseTypeTagOrThrow (param_type param)) ;;
        tsHandler <- gliftR (getTsHandlerForScriptFunctionParameter tag param) ;;
        emitln ("      " +:+ tsHandler +:+ ","))%gen st) = Ok tt <->
  exists tag, parseTypeTagOrThrow (param_type param) = Ok tag /\
              isPlainParameterType tag = true.
Proof.
  rewrite gbind_Ok_iff. split.
  - intros (tag & Htag & Hrest).
    destruct (parseTypeTagOrThrow (param_type param)) as [tag'|e]; [|discriminate].
    cbn in Htag. simplify_eq. exists tag. split; [reflexivity|].
    cbn [gliftTag gret snd] in Hrest. apply gbind_Ok_iff in Hrest as (tsHandler & Hh & _).
    apply (handler_Ok_iff_plain tag param). exists tsHandler.
    destruct (getTsHandlerForScriptFunctionParameter tag param); [|discriminate].
    cbn in Hh. congruence.
  - intros (tag & Htag & Hplain). exists tag. rewrite Htag. split; [reflexivity|].
    cbn [gliftTag gret snd]. apply gbind_Ok_iff.
    apply (handler_Ok_iff_plain tag param) in Hplain as [tsHandler Hh].
    exists tsHandler. rewrite Hh. split; reflexivity.
Qed.

(** X20: [generateScriptFunction] returns exactly when the type text of
    every parameter other than a signer parses to an atomic type or to a
    vector of an atomic type; a parameter of a struct type, of a type
    parameter or of a vector of vectors makes it throw. *)
Theorem generateScriptFunction_returns_for_plain_parameters_only func module st :
  fst (generateScriptFunction func module st) = Ok tt <->
  Forall (fun param =>
            exists tag, parseTypeTagOrThrow (param_type param) = Ok tag /\
                        isPlainParameterType tag = true)
         (List.filter notSigner (func_params func)).
Proof.
  unfold generateScriptFunction.
  set (params := List.filter notSigner (func_params func)).
  set (declared := fun param : JsonFuncParamType =>
         exists tag, parseTypeTagOrThrow (param_type param) = Ok tag /\
                     refusedType false tag = false).
  set (plain := fun param : JsonFuncParamType =>
         exists tag, parseTypeTagOrThrow (param_type param) = Ok tag /\
                     isPlainParameterType tag = true).
  repeat (rewrite gbind_total with (a := tt) by reflexivity).
  rewrite gbind_Ok_iff.
  split.
  - intros (u & Hfirst & Hrest).
    revert Hrest. repeat (rewrite gbind_total with (a := tt) by reflexivity).
    rewrite gbind_Ok_iff. intros (u' & Hargs & _).
    destruct params as [|p ps]; [constructor|].
    cbn [length Nat.eqb] in Hargs.
    revert Hargs. rewrite gbind_total with (a := tt) by reflexivity.
    rewrite gbind_Ok_iff. intros ([] & Hloop & _).
    refine (proj1 (gforEach_Ok_iff _ plain _ _ _) Hloop).
    intros x st0. apply parameter_argument_Ok_iff.
  - intros Hplain. exists tt. split.
    + refine (proj2 (gforEach_Ok_iff _ declared _ _ _) _).
      * intros x st0. apply parameter_declaration_Ok_iff.
      * apply (Forall_impl _ _ _ Hplain). intros p (tag & Htag & Hp).
        exists tag. split; [exact Htag | apply plain_type_is_not_refused, Hp].
    + repeat (rewrite gbind_total with (a := tt) by reflexivity).
      rewrite gbind_Ok_iff. exists tt. split.
      * destruct (Nat.eqb (length params) 0); [reflexivity|].
        rewrite gbind_total with (a := tt) by reflexivity.
        rewrite gbind_Ok_iff. exists tt. split; [|reflexivity].
        refine (proj2 (gforEach_Ok_iff _ plain _ _ _) Hplain).
        intros x st0. apply parameter_argument_Ok_iff.
      * rewrite gbind_total with (a := tt) by reflexivity. reflexivity.
Qed.

End GeneratorProperties.

(** ** The further theorems on concrete inputs *)

(** The number 200 is a byte. *)
Lemma U8Parser_accepts_exactly_the_bytes_witness :
  U8Parser demo_paramlessName (VNum (inject_Z 200)) (TAtomic U8) demo_repo
  = Ok (VNum (inject_Z 200)).
Proof.
  apply (proj2 (U8Parser_accepts_exactly_the_bytes demo_paramlessName
                  (VNum (inject_Z 200)) demo_repo (VNum (inject_Z 200)))).
  split; [reflexivity|]. exists (inject_Z 200), 200.
  split; [reflexivity|]. split; [reflexivity | lia].
Defined.

(** Replacing the parser of [u64] leaves the parser of [u8]. *)
Lemma addDefaultParsers_overrides_its_names_only_witness :
  getParserFromParamlessName (addParser demo_repo "u64" Fn_BoolParser) "u8"
  = getParserFromParamlessName demo_repo "u8".
Proof.
  apply (proj2 (proj2 (addDefaultParsers_overrides_its_names_only demo_repo "u8"))).
  discriminate.
Defined.

(** [Box<u64>] holding ["42"] is decoded under the tag of the schema. *)
Lemma parseStructProto_returns_only_under_the_schema_tag_witness :
  exists address typeParams,
    boxOfU64 = StructTag address (moduleName Box) (name Box) typeParams /\
    hex address = hex (moduleAddress Box).
Proof.
  apply (parseStructProto_returns_only_under_the_schema_tag demo_paramlessName
           (applyParser demo_paramlessName demo_fullName demo_bigInt)
           (VObj [("value", VStr "42")]) boxOfU64 demo_repo Box
           (VObj [("value", VBigInt 42)])).
  reflexivity.
Defined.

(** A box whose data has a property that the schema does not declare. *)
Lemma parseStructProto_keeps_exactly_the_declared_fields_witness :
  exists proto,
    VObj [("value", VBigInt 42)] = VObj proto /\
    forall key, is_Some (getProp key proto) <-> In key (map fd_name (fields Box)).
Proof.
  apply (parseStructProto_keeps_exactly_the_declared_fields
           demo_paramlessName demo_fullName demo_bigInt
           (applyParser demo_paramlessName demo_fullName demo_bigInt)
           (VObj [("extra", VBool true); ("value", VStr "42")]) boxOfU64 demo_repo Box
           (VObj [("value", VBigInt 42)])).
  - reflexivity.
  - reflexivity.
Defined.

(** [null] as the data of a box. *)
Lemma parseStructProto_on_an_empty_schema_and_on_null_witness :
  parseStructProto demo_paramlessName
    (applyParser demo_paramlessName demo_fullName demo_bigInt)
    VNull boxOfU64 demo_repo Box
  = Throw (TypeError "value").
Proof.
  pose proof (parseStructProto_on_an_empty_schema_and_on_null demo_paramlessName
                (applyParser demo_paramlessName demo_fullName demo_bigInt)
                VNull (HexString_new "0x1") [TAtomic U64] demo_repo Box
                eq_refl eq_refl) as [_ Hnull].
  apply (Hnull {| fd_name := "value"; fd_typeTag := TypeParamIdx 0 |} []); reflexivity.
Defined.

(** A vector of [u64] whose second element is not a number text. *)
Lemma VectorParser_decodes_arrays_element_by_element_witness :
  applyParser demo_paramlessName demo_fullName demo_bigInt Fn_VectorParser
    (VArr [VStr "1"; VStr "x"]) (VectorTag (TAtomic U64)) demo_repo
  = Throw (ExternalError "Invalid integer: x").
Proof.
  pose proof (VectorParser_decodes_arrays_element_by_element
                demo_paramlessName demo_fullName demo_bigInt
                demo_repo [VStr "1"; VStr "x"] (TAtomic U64) ltac:(discriminate))
    as (_ & _ & Hfirst).
  apply (Hfirst Fn_U64Parser [VStr "1"] (VStr "x") []).
  - reflexivity.
  - reflexivity.
  - constructor; [exists (VBigInt 1); reflexivity | constructor].
  - reflexivity.
Defined.

(** The text ["hi"]. *)
Lemma hex_of_bytes_decodes_to_the_bytes_witness :
  hex (numbersOrStringToHexString (InString "hi")) = "0x6869" /\
  applyParser demo_paramlessName demo_fullName demo_bigInt Fn_VectorParser
    (VStr "0x6869") (VectorTag (TAtomic U8)) demo_repo
  = Ok (Array_from [104; 105]).
Proof.
  pose proof (hex_of_bytes_decodes_to_the_bytes
                demo_paramlessName demo_fullName demo_bigInt
                demo_repo (InString "hi") I) as (Hhex & _ & Hdecode).
  split; [exact Hhex | exact Hdecode].
Defined.

(** Events under an atomic container tag, and a stream whose second event
    does not decode. *)
Lemma loadEvents_decodes_every_event_or_throws_witness :
  loadEvents demo_paramlessName demo_fullName demo_bigInt demo_parseType
    (demo_events [u64Event]) demo_repo owner (TAtomic U8) "events" None
  = Throw (ContainerNotAStruct "u8") /\
  loadEvents demo_paramlessName demo_fullName demo_bigInt demo_parseType
    (demo_events [u64Event; misshapenEvent]) demo_repo owner textTag "events" None
  = Throw (EventError (ExpectsDataType "U8Parser" "number" "string")).
Proof.
  split.
  - apply (proj1 (loadEvents_decodes_every_event_or_throws
                    demo_paramlessName demo_fullName demo_bigInt demo_parseType
                    (demo_events [u64Event]) demo_repo owner (TAtomic U8) "events" None)).
    reflexivity.
  - pose proof (proj2 (loadEvents_decodes_every_event_or_throws
                         demo_paramlessName demo_fullName demo_bigInt demo_parseType
                         (demo_events [u64Event; misshapenEvent]) demo_repo owner textTag
                         "events" None) eq_refl) as (_ & _ & Hfirst).
    apply (Hfirst [u64Event] misshapenEvent []).
    + reflexivity.
    + constructor; [exists (VBigInt 7); reflexivity | constructor].
    + reflexivity.
Defined.

(** The write of [txn_write], reached at once, on the watching cache. *)
Lemma write_change_updates_a_cached_key_only_witness :
  let this := watching [] in
  updateFromTransactionResult demo_paramlessName demo_fullName demo_bigInt demo_parseType
    txn_write this
  = after ([] ++ map (fun l => Called l type_update (VStr "new")) (listenersOf this textKey))
      (forEach [] (applyChange demo_paramlessName demo_fullName demo_bigInt demo_parseType)
         (set_cachedResources <[textKey := VStr "new"]> this)).
Proof.
  pose proof (write_change_updates_a_cached_key_only
                demo_paramlessName demo_fullName demo_bigInt demo_parseType
                txn_write (watching []) [] "0x1" "0x1::ASCII::String" (VStr "new") []
                textTag (watching []) []
                eq_refl ltac:(discriminate) eq_refl eq_refl eq_refl) as (_ & Hcached & _).
  apply (Hcached (VStr "new")).
  - exists (VStr "old"). reflexivity.
  - reflexivity.
Defined.

(** The transaction that throws adds no key. *)
Lemma updateFromTransactionResult_writes_cached_values_only_witness :
  cachedResources
    (final (updateFromTransactionResult demo_paramlessName demo_fullName demo_bigInt
              demo_parseType txn_blocked watchingWithBox)) !! "0x1/u64" = None.
Proof.
  apply (proj1 (updateFromTransactionResult_writes_cached_values_only
                  demo_paramlessName demo_fullName demo_bigInt demo_parseType
                  txn_blocked watchingWithBox) "0x1/u64").
  reflexivity.
Defined.

(** A new cache, a registration and then the load of an account. *)
Lemma listener_ids_stay_distinct_witness :
  listenersDistinct
    (final (loadAccount demo_paramlessName demo_fullName demo_bigInt demo_parseType
              owner (Some listenerA)
              (final (addListenerForResource textKey listenerB
                        (AptosResourceCache_new (demo_client [u64Resource]) demo_repo))))).
Proof.
  pose proof (listener_ids_stay_distinct
                demo_paramlessName demo_fullName demo_bigInt demo_parseType)
    as [Hnew Hkept].
  apply Hkept. apply Hkept. apply Hnew.
Defined.

(** A [load] of the text resource with a third listener. *)
Lemma load_records_the_replay_tuple_and_the_listener_witness :
  let this := watching [textResource "hello"] in
  let o := load demo_paramlessName demo_fullName demo_bigInt AsciiString owner []
             (Some listenerC) this in
  resourceKeyToLoadParams (final o)
  = <[textKey := (AsciiString, owner, [])]> (resourceKeyToLoadParams this) /\
  watchedAddresses (final o) = watchedAddresses this /\
  (forall l, Some listenerC = Some l -> registeredFor l (final o) textKey) /\
  (Some listenerC = None -> updateListener (final o) = updateListener this) /\
  (forall r, In r (listenersOf this textKey) -> In r (listenersOf (final o) textKey)) /\
  (forall other, other <> textKey -> listenersOf (final o) other = listenersOf this other).
Proof.
  apply (load_records_the_replay_tuple_and_the_listener
           demo_paramlessName demo_fullName demo_bigInt AsciiString owner []
           (Some listenerC) (watching [textResource "hello"]) (VStr "hello")).
  vm_compute. reflexivity.
Defined.

(** An account with three resources, the second of which does not decode. *)
Lemma loadAccount_keeps_what_decodes_and_logs_the_rest_witness :
  let resources := [u64Resource; misshapenResource; boolResource] in
  let this := watching resources in
  let o := loadAccount demo_paramlessName demo_fullName demo_bigInt demo_parseType
             owner None this in
  let decoded := decodedEntries demo_paramlessName demo_fullName demo_bigInt demo_parseType
                   (repo this) owner resources in
  returned o = Ok (map fst decoded) /\
  cachedResources (final o) = insertAll decoded (cachedResources this) /\
  List.filter isConsoleLog (emitted o)
  = failureLogs demo_paramlessName demo_fullName demo_bigInt demo_parseType
      (repo this) owner resources /\
  In owner (watchedAddresses (final o)).
Proof.
  apply (proj2 (loadAccount_keeps_what_decodes_and_logs_the_rest
                  demo_paramlessName demo_fullName demo_bigInt demo_parseType
                  owner None (watching [u64Resource; misshapenResource; boolResource]))
           [u64Resource; misshapenResource; boolResource]).
  - reflexivity.
  - constructor; [exists (TAtomic U64); reflexivity|].
    constructor; [exists (TAtomic U8); reflexivity|].
    constructor; [exists (TAtomic Bool); reflexivity | constructor].
Defined.

(** The listener is registered for the key of the one resource. *)
Lemma loadAccount_registers_the_listener_for_every_key_witness :
  registeredFor listenerA
    (final (loadAccount demo_paramlessName demo_fullName demo_bigInt demo_parseType
              owner (Some listenerA) (watching [u64Resource])))
    "0x1/u64".
Proof.
  apply (proj1 (loadAccount_registers_the_listener_for_every_key
                  demo_paramlessName demo_fullName demo_bigInt demo_parseType
                  owner (watching [u64Resource]))
           listenerA ["0x1/u64"]).
  - reflexivity.
  - left. reflexivity.
Defined.

(** A vector of boxes as the type of a parameter. *)
Lemma typeTagToTsType_refuses_only_a_struct_that_is_not_allowed_witness :
  typeTagToTsType (VectorTag boxOfU64) demo_module false emptyTsgen
  = (Throw (StructTagNotAllowed (innermost (VectorTag boxOfU64))), emptyTsgen).
Proof.
  apply (proj1 (typeTagToTsType_refuses_only_a_struct_that_is_not_allowed
                  (VectorTag boxOfU64) demo_module false emptyTsgen)).
  reflexivity.
Defined.

(** A vector of [u64]. *)
Lemma typeTagToTsType_imports_what_the_type_names_witness :
  In BIGINT
     (imports (snd (typeTagToTsType (VectorTag (TAtomic U64)) demo_module false emptyTsgen))).
Proof.
  apply (proj1 (proj2 (proj2 (proj2
           (typeTagToTsType_imports_what_the_type_names
              (VectorTag (TAtomic U64)) demo_module false emptyTsgen
              "bigInt.BigInteger[]"
              (snd (typeTagToTsType (VectorTag (TAtomic U64)) demo_module false emptyTsgen))
              eq_refl))))).
  left. reflexivity.
Defined.

(** A parameter of type [vector<u8>]. *)
Lemma script_function_parameters_are_atomic_or_vectors_of_atomic_witness :
  exists tsHandler,
    getTsHandlerForScriptFunctionParameter (VectorTag (TAtomic U8))
      {| param_name := "name"; param_type := "vector<u8>" |} = Ok tsHandler.
Proof.
  apply (proj2 (proj1 (script_function_parameters_are_atomic_or_vectors_of_atomic
                         (VectorTag (TAtomic U8))
                         {| param_name := "name"; param_type := "vector<u8>" |}))).
  reflexivity.
Defined.

(** A constant of type [address]. *)
Lemma generateConstant_supports_four_types_witness :
  generateConstant maxAddress emptyTsgen
  = (Throw (UnsupportedConstantType "address"), emptyTsgen).
Proof.
  apply (proj2 (generateConstant_supports_four_types maxAddress emptyTsgen)).
  intros [H|[H|[H|[H|[]]]]]; discriminate H.
Defined.

(** The function [register] of the README's example. *)
Lemma generateScriptFunction_returns_for_plain_parameters_only_witness :
  fst (generateScriptFunction demo_parseType demo_register demo_module emptyTsgen) = Ok tt.
Proof.
  apply (proj2 (generateScriptFunction_returns_for_plain_parameters_only
                  demo_parseType demo_register demo_module emptyTsgen)).
  change (List.filter notSigner (func_params demo_register))
    with [ {| param_name := "name"; param_type := "vector<u8>" |};
           {| param_name := "age"; param_type := "u8" |};
           {| param_name := "balance"; param_type := "u64" |} ].
  constructor; [exists (VectorTag (TAtomic U8)); split; reflexivity|].
  constructor; [exists (TAtomic U8); split; reflexivity|].
  constructor; [exists (TAtomic U64); split; reflexivity | constructor].
Defined.
